(** * MPTRAC particle integration engine (trac.c): embedding and properties

    The C program works on [double] values and [int] indices.  Here a
    [double] is an exact real number ([R]), an [int] is an integer ([Z]),
    and a C array is a total map from its index to its element; where a
    property is about the bounds of an array the bounds are checked by the
    accessor ([q_read], [q_write]).  The data-parallel loops over the
    particles are run in index order.  A [while] loop takes the number of
    iterations it may run ([fuel]) and yields [None] when that is not
    enough. *)

From Stdlib Require Import Reals ZArith List Bool String Lra Lia.
Import ListNotations.

Open Scope Z_scope.
Open Scope R_scope.

(** ** Comparisons of doubles as booleans *)

Definition Rltb (x y : R) : bool := if Rlt_dec x y then true else false.
Definition Rleb (x y : R) : bool := if Rle_dec x y then true else false.
Definition Rgtb (x y : R) : bool := Rltb y x.
Definition Rgeb (x y : R) : bool := Rleb y x.
Definition Reqb (x y : R) : bool := if Req_dec_T x y then true else false.
Definition Rneqb (x y : R) : bool := negb (Reqb x y).

(** ** Arrays *)

Definition upd {A : Type} (a : Z -> A) (i : Z) (v : A) : Z -> A :=
  fun j => if Z.eqb j i then v else a j.

Definition upd2 {A : Type} (a : Z -> Z -> A) (i j : Z) (v : A) : Z -> Z -> A :=
  upd a i (upd (a i) j v).

Definition upd3 {A : Type} (a : Z -> Z -> Z -> A) (i j k : Z) (v : A)
  : Z -> Z -> Z -> A :=
  upd a i (upd2 (a i) j k v).

(** A local array given by its elements, as in [double u[16]]. *)
Definition arr_of_list (l : list R) : Z -> R :=
  fun i => nth (Z.to_nat i) l 0.

(** ** Loops *)

(** [for (int ip = 0; ip < n; ip++) body] *)
Definition for_loop {S : Type} (n : Z) (body : Z -> S -> S) (s : S) : S :=
  fold_left (fun s ip => body ip s) (map Z.of_nat (seq 0 (Z.to_nat n))) s.

(** The same loop when the body may fail. *)
Definition for_loop_opt {S : Type} (n : Z) (body : Z -> S -> option S) (s : S)
  : option S :=
  fold_left (fun o ip => match o with Some s => body ip s | None => None end)
            (map Z.of_nat (seq 0 (Z.to_nat n))) (Some s).

(** [while (cond) body], run for at most [fuel] iterations. *)
Fixpoint while_loop {S : Type} (fuel : nat) (cond : S -> bool) (body : S -> S)
  (s : S) : option S :=
  if cond s then
    match fuel with
    | O => None
    | Datatypes.S f => while_loop f cond body (body s)
    end
  else Some s.

(** Number of times the body of a [while] loop runs from [s], when the loop
    ends within [fuel] iterations. *)
Fixpoint while_count {S : Type} (fuel : nat) (cond : S -> bool) (body : S -> S)
  (s : S) : option nat :=
  if cond s then
    match fuel with
    | O => None
    | Datatypes.S f => option_map Datatypes.S (while_count f cond body (body s))
    end
  else Some O.

(** ** Errors *)

(** [ERRMSG] ends the run with a message. *)
Inductive result (A : Type) : Type :=
| Ok (a : A)
| Fatal (msg : string).
Arguments Ok {A} a.
Arguments Fatal {A} msg.

Definition obind {A B : Type} (o : option A) (f : A -> option B) : option B :=
  match o with Some a => f a | None => None end.

Notation "x <- e1 ;; e2" := (obind e1 (fun x => e2))
  (at level 61, e1 at next level, right associativity).

(** ** Data model *)

(** Control parameters ([ctl_t]), the fields trac.c reads. *)
Record ctl_t : Type := mk_ctl {
  direction : Z;
  t_start : R;
  t_stop : R;
  dt_mod : R;
  dt_met : R;
  turb_dx_trop : R;
  turb_dx_strat : R;
  turb_dz_trop : R;
  turb_dz_strat : R;
  turb_mesox : R;
  turb_mesoz : R;
  tdec_trop : R;
  tdec_strat : R;
  isosurf : Z;
  balloon : string;
  psc_h2o : R;
  psc_hno3 : R;
  met_dt_out : R;
  qnt_m : Z;
  qnt_r : Z;
  qnt_rho : Z;
  qnt_ps : Z;
  qnt_pt : Z;
  qnt_p : Z;
  qnt_z : Z;
  qnt_t : Z;
  qnt_u : Z;
  qnt_v : Z;
  qnt_w : Z;
  qnt_h2o : Z;
  qnt_o3 : Z;
  qnt_vh : Z;
  qnt_vz : Z;
  qnt_theta : Z;
  qnt_pv : Z;
  qnt_tice : Z;
  qnt_tnat : Z;
  qnt_tsts : Z
}.

(** Meteorological snapshot ([met_t]). *)
Record met_t : Type := mk_met {
  met_time : R;
  met_nx : Z;
  met_ny : Z;
  met_np : Z;
  met_lon : Z -> R;
  met_lat : Z -> R;
  met_p : Z -> R;
  met_u : Z -> Z -> Z -> R;
  met_v : Z -> Z -> Z -> R;
  met_w : Z -> Z -> Z -> R
}.

(** Particle ensemble ([atm_t]): one array per field, indexed by particle;
    [atm_q] is [q[NQ][NP]]. *)
Record atm_t : Type := mk_atm {
  atm_np : Z;
  atm_time : Z -> R;
  atm_lon : Z -> R;
  atm_lat : Z -> R;
  atm_p : Z -> R;
  atm_q : Z -> Z -> R;
  atm_up : Z -> R;
  atm_vp : Z -> R;
  atm_wp : Z -> R;
  atm_iso_var : Z -> R;
  atm_iso_ts : Z -> R;
  atm_iso_ps : Z -> R;
  atm_iso_n : Z;
  atm_cache_time : Z -> Z -> Z -> R;
  atm_cache_usig : Z -> Z -> Z -> R;
  atm_cache_vsig : Z -> Z -> Z -> R;
  atm_cache_wsig : Z -> Z -> Z -> R
}.

(** Replacing one field of the ensemble. *)
Definition set_atm_time (v : Z -> R) (a : atm_t) : atm_t :=
  mk_atm (atm_np a) v (atm_lon a) (atm_lat a) (atm_p a) (atm_q a) (atm_up a)
    (atm_vp a) (atm_wp a) (atm_iso_var a) (atm_iso_ts a) (atm_iso_ps a)
    (atm_iso_n a) (atm_cache_time a) (atm_cache_usig a) (atm_cache_vsig a)
    (atm_cache_wsig a).

Definition set_atm_lon (v : Z -> R) (a : atm_t) : atm_t :=
  mk_atm (atm_np a) (atm_time a) v (atm_lat a) (atm_p a) (atm_q a) (atm_up a)
    (atm_vp a) (atm_wp a) (atm_iso_var a) (atm_iso_ts a) (atm_iso_ps a)
    (atm_iso_n a) (atm_cache_time a) (atm_cache_usig a) (atm_cache_vsig a)
    (atm_cache_wsig a).

Definition set_atm_lat (v : Z -> R) (a : atm_t) : atm_t :=
  mk_atm (atm_np a) (atm_time a) (atm_lon a) v (atm_p a) (atm_q a) (atm_up a)
    (atm_vp a) (atm_wp a) (atm_iso_var a) (atm_iso_ts a) (atm_iso_ps a)
    (atm_iso_n a) (atm_cache_time a) (atm_cache_usig a) (atm_cache_vsig a)
    (atm_cache_wsig a).

Definition set_atm_p (v : Z -> R) (a : atm_t) : atm_t :=
  mk_atm (atm_np a) (atm_time a) (atm_lon a) (atm_lat a) v (atm_q a)
    (atm_up a) (atm_vp a) (atm_wp a) (atm_iso_var a) (atm_iso_ts a)
    (atm_iso_ps a) (atm_iso_n a) (atm_cache_time a) (atm_cache_usig a)
    (atm_cache_vsig a) (atm_cache_wsig a).

Definition set_atm_q (v : Z -> Z -> R) (a : atm_t) : atm_t :=
  mk_atm (atm_np a) (atm_time a) (atm_lon a) (atm_lat a) (atm_p a) v
    (atm_up a) (atm_vp a) (atm_wp a) (atm_iso_var a) (atm_iso_ts a)
    (atm_iso_ps a) (atm_iso_n a) (atm_cache_time a) (atm_cache_usig a)
    (atm_cache_vsig a) (atm_cache_wsig a).

Definition set_atm_up (v : Z -> R) (a : atm_t) : atm_t :=
  mk_atm (atm_np a) (atm_time a) (atm_lon a) (atm_lat a) (atm_p a) (atm_q a)
    v (atm_vp a) (atm_wp a) (atm_iso_var a) (atm_iso_ts a) (atm_iso_ps a)
    (atm_iso_n a) (atm_cache_time a) (atm_cache_usig a) (atm_cache_vsig a)
    (atm_cache_wsig a).

Definition set_atm_vp (v : Z -> R) (a : atm_t) : atm_t :=
  mk_atm (atm_np a) (atm_time a) (atm_lon a) (atm_lat a) (atm_p a) (atm_q a)
    (atm_up a) v (atm_wp a) (atm_iso_var a) (atm_iso_ts a) (atm_iso_ps a)
    (atm_iso_n a) (atm_cache_time a) (atm_cache_usig a) (atm_cache_vsig a)
    (atm_cache_wsig a).

Definition set_atm_wp (v : Z -> R) (a : atm_t) : atm_t :=
  mk_atm (atm_np a) (atm_time a) (atm_lon a) (atm_lat a) (atm_p a) (atm_q a)
    (atm_up a) (atm_vp a) v (atm_iso_var a) (atm_iso_ts a) (atm_iso_ps a)
    (atm_iso_n a) (atm_cache_time a) (atm_cache_usig a) (atm_cache_vsig a)
    (atm_cache_wsig a).

Definition set_atm_iso_var (v : Z -> R) (a : atm_t) : atm_t :=
  mk_atm (atm_np a) (atm_time a) (atm_lon a) (atm_lat a) (atm_p a) (atm_q a)
    (atm_up a) (atm_vp a) (atm_wp a) v (atm_iso_ts a) (atm_iso_ps a)
    (atm_iso_n a) (atm_cache_time a) (atm_cache_usig a) (atm_cache_vsig a)
    (atm_cache_wsig a).

Definition set_atm_iso_ts (v : Z -> R) (a : atm_t) : atm_t :=
  mk_atm (atm_np a) (atm_time a) (atm_lon a) (atm_lat a) (atm_p a) (atm_q a)
    (atm_up a) (atm_vp a) (atm_wp a) (atm_iso_var a) v (atm_iso_ps a)
    (atm_iso_n a) (atm_cache_time a) (atm_cache_usig a) (atm_cache_vsig a)
    (atm_cache_wsig a).

Definition set_atm_iso_ps (v : Z -> R) (a : atm_t) : atm_t :=
  mk_atm (atm_np a) (atm_time a) (atm_lon a) (atm_lat a) (atm_p a) (atm_q a)
    (atm_up a) (atm_vp a) (atm_wp a) (atm_iso_var a) (atm_iso_ts a) v
    (atm_iso_n a) (atm_cache_time a) (atm_cache_usig a) (atm_cache_vsig a)
    (atm_cache_wsig a).

Definition set_atm_iso_n (v : Z) (a : atm_t) : atm_t :=
  mk_atm (atm_np a) (atm_time a) (atm_lon a) (atm_lat a) (atm_p a) (atm_q a)
    (atm_up a) (atm_vp a) (atm_wp a) (atm_iso_var a) (atm_iso_ts a)
    (atm_iso_ps a) v (atm_cache_time a) (atm_cache_usig a) (atm_cache_vsig a)
    (atm_cache_wsig a).

Definition set_atm_cache_time (v : Z -> Z -> Z -> R) (a : atm_t) : atm_t :=
  mk_atm (atm_np a) (atm_time a) (atm_lon a) (atm_lat a) (atm_p a) (atm_q a)
    (atm_up a) (atm_vp a) (atm_wp a) (atm_iso_var a) (atm_iso_ts a)
    (atm_iso_ps a) (atm_iso_n a) v (atm_cache_usig a) (atm_cache_vsig a)
    (atm_cache_wsig a).

Definition set_atm_cache_usig (v : Z -> Z -> Z -> R) (a : atm_t) : atm_t :=
  mk_atm (atm_np a) (atm_time a) (atm_lon a) (atm_lat a) (atm_p a) (atm_q a)
    (atm_up a) (atm_vp a) (atm_wp a) (atm_iso_var a) (atm_iso_ts a)
    (atm_iso_ps a) (atm_iso_n a) (atm_cache_time a) v (atm_cache_vsig a)
    (atm_cache_wsig a).

Definition set_atm_cache_vsig (v : Z -> Z -> Z -> R) (a : atm_t) : atm_t :=
  mk_atm (atm_np a) (atm_time a) (atm_lon a) (atm_lat a) (atm_p a) (atm_q a)
    (atm_up a) (atm_vp a) (atm_wp a) (atm_iso_var a) (atm_iso_ts a)
    (atm_iso_ps a) (atm_iso_n a) (atm_cache_time a) (atm_cache_usig a) v
    (atm_cache_wsig a).

Definition set_atm_cache_wsig (v : Z -> Z -> Z -> R) (a : atm_t) : atm_t :=
  mk_atm (atm_np a) (atm_time a) (atm_lon a) (atm_lat a) (atm_p a) (atm_q a)
    (atm_up a) (atm_vp a) (atm_wp a) (atm_iso_var a) (atm_iso_ts a)
    (atm_iso_ps a) (atm_iso_n a) (atm_cache_time a) (atm_cache_usig a)
    (atm_cache_vsig a) v.
(** [atm->f[ip] = v] *)
Definition wr_time (ip : Z) (v : R) (a : atm_t) : atm_t :=
  set_atm_time (upd (atm_time a) ip v) a.
Definition wr_lon (ip : Z) (v : R) (a : atm_t) : atm_t :=
  set_atm_lon (upd (atm_lon a) ip v) a.
Definition wr_lat (ip : Z) (v : R) (a : atm_t) : atm_t :=
  set_atm_lat (upd (atm_lat a) ip v) a.
Definition wr_p (ip : Z) (v : R) (a : atm_t) : atm_t :=
  set_atm_p (upd (atm_p a) ip v) a.
Definition wr_up (ip : Z) (v : R) (a : atm_t) : atm_t :=
  set_atm_up (upd (atm_up a) ip v) a.
Definition wr_vp (ip : Z) (v : R) (a : atm_t) : atm_t :=
  set_atm_vp (upd (atm_vp a) ip v) a.
Definition wr_wp (ip : Z) (v : R) (a : atm_t) : atm_t :=
  set_atm_wp (upd (atm_wp a) ip v) a.
Definition wr_iso_var (ip : Z) (v : R) (a : atm_t) : atm_t :=
  set_atm_iso_var (upd (atm_iso_var a) ip v) a.
(** [atm->q[iq][ip] = v] *)
Definition wr_q (iq ip : Z) (v : R) (a : atm_t) : atm_t :=
  set_atm_q (upd2 (atm_q a) iq ip v) a.

(** Values the meteorological accessor returns at a point. *)
Record met_vals : Type := mk_met_vals {
  mv_ps : R;
  mv_pt : R;
  mv_z : R;
  mv_t : R;
  mv_u : R;
  mv_v : R;
  mv_w : R;
  mv_pv : R;
  mv_h2o : R;
  mv_o3 : R
}.

(** ** The library the engine is linked with (libtrac.h)

    trac.c calls these functions and uses these constants and macros; their
    definitions are not part of trac.c, so the engine is parametrised by
    them.  [intpol_met_time] returns all interpolated fields; a caller that
    passes [NULL] for a field ignores it. *)
Class Libtrac : Type := {
  NP : Z;
  NQ : Z;
  H0 : R;
  RA : R;
  KB : R;
  G0 : R;
  DX2DEG : R -> R -> R;
  DY2DEG : R -> R;
  DZ2DP : R -> R -> R;
  SQR : R -> R;
  intpol_met_time : met_t -> met_t -> R -> R -> R -> R -> met_vals;
  clim_tropo : R -> R -> R;
  clim_hno3 : R -> R -> R -> R;
  locate_reg : (Z -> R) -> Z -> R -> Z;
  stddev : (Z -> R) -> Z -> R
}.

(** ** Macros and helpers of libtrac modelled from the specification *)

(** Modelled from the spec: the macro [LIN] of libtrac.h is not in trac.c;
    the specification calls it linear interpolation between two points
    [(x0, y0)] and [(x1, y1)], evaluated at [x]. *)
Definition LIN (x0 y0 x1 y1 x : R) : R :=
  y0 + (y1 - y0) / (x1 - x0) * (x - x0).

(** Modelled from the spec: the macro [FMOD] of libtrac.h is not in trac.c;
    the specification says the position module normalises longitude and
    latitude modulo 360.  [int_cast] is the integer part of the quotient,
    rounded towards zero as a C conversion to [int] does (the quotient is
    taken to fit the type), so that the remainder keeps the sign of [x]. *)
Definition int_cast (x : R) : Z :=
  if Rleb 0 x then Zfloor x else Zceil x.

(** Modelled from the spec: [FMOD (x, y)], the remainder of [x] modulo [y]
    that the position module applies with [y = 360]. *)
Definition FMOD (x y : R) : R :=
  x - IZR (int_cast (x / y)) * y.

(** [pow(x, y)] of math.h, for a positive base. *)
Definition pow_d (x y : R) : R := Rpower x y.

(** [log10(x)] of math.h. *)
Definition log10_d (x : R) : R := ln x / ln 10.

(** [(float) x]: exact in this model of the numbers. *)
Definition float_cast (x : R) : R := x.

(** Modelled from the spec: the macro [THETA] of libtrac.h is not in trac.c;
    the specification says isosurface mode 3 stores the potential
    temperature and that enforcement inverts the same formula, which in
    [module_isosurf] is [p = 1000 * pow(theta / t, -1 / 0.286)]. *)
Definition THETA (p t : R) : R :=
  t * pow_d (1000 / p) 0.286.

(** Modelled from the spec: the function [locate_irr] of libtrac is not in
    trac.c; the specification says a grid index lookup returns the lower
    bracketing index for interpolation and is clamped to the nearest valid
    interval at and outside the bounds of the axis.  [brackets a b x] says
    that [x] lies between two neighbours [a] and [b] of the axis, which may
    increase or decrease. *)
Definition brackets (a b x : R) : bool :=
  (Rleb a x && Rltb x b) || (Rltb b x && Rleb x a).

(** Modelled from the spec: the first of the [count] intervals from [i] on
    whose ends bracket [x]. *)
Fixpoint locate_scan (xx : Z -> R) (x : R) (i : Z) (count : nat) : option Z :=
  match count with
  | O => None
  | S c =>
      if brackets (xx i) (xx (i + 1)%Z) x then Some i
      else locate_scan xx x (i + 1)%Z c
  end.

(** Modelled from the spec: [locate_irr (xx, n, x)], the lower index of the
    interval of the axis [xx] of [n] points that brackets [x]; outside the
    axis, the nearest of the valid intervals [0 .. n-2]. *)
Definition locate_irr (xx : Z -> R) (n : Z) (x : R) : Z :=
  match locate_scan xx x 0 (Z.to_nat (n - 1)) with
  | Some i => i
  | None =>
      if Rleb (Rabs (x - xx 0%Z)) (Rabs (x - xx (n - 1)%Z)) then 0%Z
      else Z.max 0 (n - 2)
  end.

(** ** The engine *)

Section Engine.

Context {L : Libtrac}.

(** *** Time steps of the particles (the first loop of a step in [main]) *)

(** The loop writes [dt]; the state of the loop is the ensemble and [dt]. *)
Definition time_step_ip (ctl : ctl_t) (t : R) (ip : Z)
  (s : atm_t * (Z -> R)) : atm_t * (Z -> R) :=
  let (atm, dt) := s in
  let atmtime := atm_time atm ip in
  let tstart := t_start ctl in
  let tstop := t_stop ctl in
  let dir := IZR (direction ctl) in
  if Rgeb (dir * (atmtime - tstart)) 0
     && Rleb (dir * (atmtime - tstop)) 0
     && Rltb (dir * (atmtime - t)) 0
  then (atm, upd dt ip (t - atmtime))
  else (atm, upd dt ip 0).

(** The increment the loop stores for a particle whose time is [atmtime]. *)
Definition time_step_of (ctl : ctl_t) (t atmtime : R) : R :=
  if Rgeb (IZR (direction ctl) * (atmtime - t_start ctl)) 0
     && Rleb (IZR (direction ctl) * (atmtime - t_stop ctl)) 0
     && Rltb (IZR (direction ctl) * (atmtime - t)) 0
  then t - atmtime else 0.

Definition time_steps (ctl : ctl_t) (t : R) (s : atm_t * (Z -> R))
  : atm_t * (Z -> R) :=
  for_loop (atm_np (fst s)) (time_step_ip ctl t) s.

(** *** Tropopause-relative weight

    [module_decay] and [module_diffusion_turb] compute the weight with the
    same statements; [pt] is the tropopause pressure and [p] the pressure of
    the particle. *)
Definition tropo_weight (pt p : R) : R :=
  let p1 := pt * 0.866877899 in
  let p0 := pt / 0.866877899 in
  if Rgtb p p0 then 1
  else if Rltb p p1 then 0
  else LIN p0 1.0 p1 0.0 p.

(** *** Advection *)

Definition advection_ip (met0 met1 : met_t) (dt : Z -> R) (ip : Z)
  (atm : atm_t) : atm_t :=
  if Rneqb (dt ip) 0 then
    let m := intpol_met_time met0 met1 (atm_time atm ip) (atm_p atm ip)
               (atm_lon atm ip) (atm_lat atm ip) in
    let xm0 :=
      atm_lon atm ip + DX2DEG (0.5 * dt ip * mv_u m / 1000) (atm_lat atm ip) in
    let xm1 := atm_lat atm ip + DY2DEG (0.5 * dt ip * mv_v m / 1000) in
    let xm2 := atm_p atm ip + 0.5 * dt ip * mv_w m in
    let m := intpol_met_time met0 met1 (atm_time atm ip + 0.5 * dt ip)
               xm2 xm0 xm1 in
    let atm := wr_time ip (atm_time atm ip + dt ip) atm in
    let atm := wr_lon ip (atm_lon atm ip + DX2DEG (dt ip * mv_u m / 1000) xm1)
                 atm in
    let atm := wr_lat ip (atm_lat atm ip + DY2DEG (dt ip * mv_v m / 1000))
                 atm in
    wr_p ip (atm_p atm ip + dt ip * mv_w m) atm
  else atm.

Definition module_advection (met0 met1 : met_t) (atm : atm_t) (dt : Z -> R)
  : atm_t :=
  for_loop (atm_np atm) (advection_ip met0 met1 dt) atm.

(** *** Decay *)

(** Lifetime of the mass at the particle. *)
Definition decay_tdec (ctl : ctl_t) (atm : atm_t) (ip : Z) : R :=
  let pt := clim_tropo (atm_time atm ip) (atm_lat atm ip) in
  let w := tropo_weight pt (atm_p atm ip) in
  w * tdec_trop ctl + (1 - w) * tdec_strat ctl.

Definition decay_ip (ctl : ctl_t) (dt : Z -> R) (ip : Z) (atm : atm_t)
  : atm_t :=
  if Rneqb (dt ip) 0 then
    let tdec := decay_tdec ctl atm ip in
    wr_q (qnt_m ctl) ip
         (atm_q atm (qnt_m ctl) ip * exp (- dt ip / tdec)) atm
  else atm.

Definition module_decay (ctl : ctl_t) (atm : atm_t) (dt : Z -> R) : atm_t :=
  for_loop (atm_np atm) (decay_ip ctl dt) atm.

(** *** Mesoscale diffusion *)

(** The 16 values of a wind component at the corners of the grid cell, in
    the two snapshots. *)
Definition corners (f0 f1 : Z -> Z -> Z -> R) (ix iy iz : Z) : Z -> R :=
  arr_of_list
    [ f0 ix iy iz; f0 (ix + 1)%Z iy iz;
      f0 ix (iy + 1)%Z iz; f0 (ix + 1)%Z (iy + 1)%Z iz;
      f0 ix iy (iz + 1)%Z; f0 (ix + 1)%Z iy (iz + 1)%Z;
      f0 ix (iy + 1)%Z (iz + 1)%Z; f0 (ix + 1)%Z (iy + 1)%Z (iz + 1)%Z;
      f1 ix iy iz; f1 (ix + 1)%Z iy iz;
      f1 ix (iy + 1)%Z iz; f1 (ix + 1)%Z (iy + 1)%Z iz;
      f1 ix iy (iz + 1)%Z; f1 (ix + 1)%Z iy (iz + 1)%Z;
      f1 ix (iy + 1)%Z (iz + 1)%Z; f1 (ix + 1)%Z (iy + 1)%Z (iz + 1)%Z ].

(** Caching of the wind standard deviations of a grid cell. *)
Definition meso_cache (met0 met1 : met_t) (ix iy iz : Z) (atm : atm_t)
  : atm_t :=
  if Rneqb (atm_cache_time atm ix iy iz) (met_time met0) then
    let u := corners (met_u met0) (met_u met1) ix iy iz in
    let v := corners (met_v met0) (met_v met1) ix iy iz in
    let w := corners (met_w met0) (met_w met1) ix iy iz in
    let atm := set_atm_cache_usig
                 (upd3 (atm_cache_usig atm) ix iy iz (float_cast (stddev u 16)))
                 atm in
    let atm := set_atm_cache_vsig
                 (upd3 (atm_cache_vsig atm) ix iy iz (float_cast (stddev v 16)))
                 atm in
    let atm := set_atm_cache_wsig
                 (upd3 (atm_cache_wsig atm) ix iy iz (float_cast (stddev w 16)))
                 atm in
    set_atm_cache_time (upd3 (atm_cache_time atm) ix iy iz (met_time met0)) atm
  else atm.

(** Temporal correlation [r] of the fluctuations and the argument of the
    square root in [r2 = sqrt(1 - r * r)]. *)
Definition meso_r (ctl : ctl_t) (dt : R) : R :=
  1 - 2 * Rabs dt / dt_met ctl.

Definition meso_radicand (ctl : ctl_t) (dt : R) : R :=
  1 - meso_r ctl dt * meso_r ctl dt.

Definition diffusion_meso_ip (ctl : ctl_t) (met0 met1 : met_t)
  (dt rs : Z -> R) (ip : Z) (atm : atm_t) : atm_t :=
  if Rneqb (dt ip) 0 then
    let ix := locate_reg (met_lon met0) (met_nx met0) (atm_lon atm ip) in
    let iy := locate_reg (met_lat met0) (met_ny met0) (atm_lat atm ip) in
    let iz := locate_irr (met_p met0) (met_np met0) (atm_p atm ip) in
    let atm := meso_cache met0 met1 ix iy iz atm in
    let r := meso_r ctl (dt ip) in
    let r2 := sqrt (meso_radicand ctl (dt ip)) in
    let atm :=
      if Rgtb (turb_mesox ctl) 0 then
        let atm :=
          wr_up ip
            (float_cast
               (r * atm_up atm ip
                + r2 * rs (3 * ip)%Z * turb_mesox ctl
                  * atm_cache_usig atm ix iy iz)) atm in
        let atm :=
          wr_lon ip
            (atm_lon atm ip
             + DX2DEG (atm_up atm ip * dt ip / 1000) (atm_lat atm ip)) atm in
        let atm :=
          wr_vp ip
            (float_cast
               (r * atm_vp atm ip
                + r2 * rs (3 * ip + 1)%Z * turb_mesox ctl
                  * atm_cache_vsig atm ix iy iz)) atm in
        wr_lat ip (atm_lat atm ip + DY2DEG (atm_vp atm ip * dt ip / 1000)) atm
      else atm in
    if Rgtb (turb_mesoz ctl) 0 then
      let atm :=
        wr_wp ip
          (float_cast
             (r * atm_wp atm ip
              + r2 * rs (3 * ip + 2)%Z * turb_mesoz ctl
                * atm_cache_wsig atm ix iy iz)) atm in
      wr_p ip (atm_p atm ip + atm_wp atm ip * dt ip) atm
    else atm
  else atm.

Definition module_diffusion_meso (ctl : ctl_t) (met0 met1 : met_t)
  (atm : atm_t) (dt rs : Z -> R) : atm_t :=
  for_loop (atm_np atm) (diffusion_meso_ip ctl met0 met1 dt rs) atm.

(** *** Turbulent diffusion *)

Definition diffusion_turb_ip (ctl : ctl_t) (dt rs : Z -> R) (ip : Z)
  (atm : atm_t) : atm_t :=
  if Rneqb (dt ip) 0 then
    let pt := clim_tropo (atm_time atm ip) (atm_lat atm ip) in
    let w := tropo_weight pt (atm_p atm ip) in
    let dx := w * turb_dx_trop ctl + (1 - w) * turb_dx_strat ctl in
    let dz := w * turb_dz_trop ctl + (1 - w) * turb_dz_strat ctl in
    let atm :=
      if Rgtb dx 0 then
        let sigma := sqrt (2.0 * dx * Rabs (dt ip)) in
        let atm :=
          wr_lon ip
            (atm_lon atm ip
             + DX2DEG (rs (3 * ip)%Z * sigma / 1000) (atm_lat atm ip)) atm in
        wr_lat ip
          (atm_lat atm ip + DY2DEG (rs (3 * ip + 1)%Z * sigma / 1000)) atm
      else atm in
    if Rgtb dz 0 then
      let sigma := sqrt (2.0 * dz * Rabs (dt ip)) in
      wr_p ip
        (atm_p atm ip + DZ2DP (rs (3 * ip + 2)%Z * sigma / 1000) (atm_p atm ip))
        atm
    else atm
  else atm.

Definition module_diffusion_turb (ctl : ctl_t) (atm : atm_t) (dt rs : Z -> R)
  : atm_t :=
  for_loop (atm_np atm) (diffusion_turb_ip ctl dt rs) atm.

(** *** Isosurface *)

(** What [sscanf(line, "%lg %lg", &iso_ts[iso_n], &iso_ps[iso_n])] finds in
    a line of the balloon file: no number, one number or two. *)
Inductive scan_line : Type :=
| Scan0
| Scan1 (t : R)
| Scan2 (t p : R).

(** The [while (fgets ...)] loop that reads the pressure time series. *)
Fixpoint read_balloon (lines : list scan_line) (atm : atm_t) : result atm_t :=
  match lines with
  | [] => Ok atm
  | Scan0 :: rest => read_balloon rest atm
  | Scan1 t :: rest =>
      read_balloon rest
        (set_atm_iso_ts (upd (atm_iso_ts atm) (atm_iso_n atm) t) atm)
  | Scan2 t p :: rest =>
      let atm := set_atm_iso_ts (upd (atm_iso_ts atm) (atm_iso_n atm) t) atm in
      let atm := set_atm_iso_ps (upd (atm_iso_ps atm) (atm_iso_n atm) p) atm in
      let atm := set_atm_iso_n (atm_iso_n atm + 1)%Z atm in
      if (atm_iso_n atm >? NP)%Z then Fatal "Too many data points!"
      else read_balloon rest atm
  end.

(** [file] is the balloon file: [None] when it cannot be opened, else its
    lines as [sscanf] reads them. *)
Definition module_isosurf_init (ctl : ctl_t) (met0 met1 : met_t)
  (file : option (list scan_line)) (atm : atm_t) : result atm_t :=
  if (isosurf ctl =? 1)%Z then
    Ok (for_loop (atm_np atm)
          (fun ip atm => wr_iso_var ip (atm_p atm ip) atm) atm)
  else if (isosurf ctl =? 2)%Z then
    Ok (for_loop (atm_np atm)
          (fun ip atm =>
             let t := mv_t (intpol_met_time met0 met1 (atm_time atm ip)
                              (atm_p atm ip) (atm_lon atm ip) (atm_lat atm ip)) in
             wr_iso_var ip (atm_p atm ip / t) atm) atm)
  else if (isosurf ctl =? 3)%Z then
    Ok (for_loop (atm_np atm)
          (fun ip atm =>
             let t := mv_t (intpol_met_time met0 met1 (atm_time atm ip)
                              (atm_p atm ip) (atm_lon atm ip) (atm_lat atm ip)) in
             wr_iso_var ip (THETA (atm_p atm ip) t) atm) atm)
  else if (isosurf ctl =? 4)%Z then
    match file with
    | None => Fatal "Cannot open file!"
    | Some lines =>
        match read_balloon lines atm with
        | Fatal msg => Fatal msg
        | Ok atm =>
            if (atm_iso_n atm <? 1)%Z then Fatal "Could not read any data!"
            else Ok atm
        end
    end
  else Ok atm.

(** Pressure of the balloon series at time [t] (mode 4). *)
Definition balloon_pressure (atm : atm_t) (t : R) : R :=
  if Rleb t (atm_iso_ts atm 0%Z) then atm_iso_ps atm 0%Z
  else if Rgeb t (atm_iso_ts atm (atm_iso_n atm - 1)%Z)
  then atm_iso_ps atm (atm_iso_n atm - 1)%Z
  else
    let idx := locate_irr (atm_iso_ts atm) (atm_iso_n atm) t in
    LIN (atm_iso_ts atm idx) (atm_iso_ps atm idx)
        (atm_iso_ts atm (idx + 1)%Z) (atm_iso_ps atm (idx + 1)%Z) t.

Definition isosurf_ip (ctl : ctl_t) (met0 met1 : met_t) (ip : Z)
  (atm : atm_t) : atm_t :=
  if (isosurf ctl =? 1)%Z then
    wr_p ip (atm_iso_var atm ip) atm
  else if (isosurf ctl =? 2)%Z then
    let t := mv_t (intpol_met_time met0 met1 (atm_time atm ip) (atm_p atm ip)
                     (atm_lon atm ip) (atm_lat atm ip)) in
    wr_p ip (atm_iso_var atm ip * t) atm
  else if (isosurf ctl =? 3)%Z then
    let t := mv_t (intpol_met_time met0 met1 (atm_time atm ip) (atm_p atm ip)
                     (atm_lon atm ip) (atm_lat atm ip)) in
    wr_p ip (1000 * pow_d (atm_iso_var atm ip / t) (- 1 / 0.286)) atm
  else if (isosurf ctl =? 4)%Z then
    wr_p ip (balloon_pressure atm (atm_time atm ip)) atm
  else atm.

Definition module_isosurf (ctl : ctl_t) (met0 met1 : met_t) (atm : atm_t)
  : atm_t :=
  for_loop (atm_np atm) (isosurf_ip ctl met0 met1) atm.

(** *** Diagnostics *)

(** The quantity array is [q[NQ][NP]]; an access outside it yields [None]. *)
Definition q_in_bounds (iq ip : Z) : bool :=
  ((0 <=? iq) && (iq <? NQ) && (0 <=? ip) && (ip <? NP))%Z.

Definition q_read (atm : atm_t) (iq ip : Z) : option R :=
  if q_in_bounds iq ip then Some (atm_q atm iq ip) else None.

Definition q_write (iq ip : Z) (v : R) (atm : atm_t) : option atm_t :=
  if q_in_bounds iq ip then Some (wr_q iq ip v atm) else None.

(** [if (qnt >= 0) atm->q[qnt][ip] = v;] *)
Definition set_qnt (qnt ip : Z) (v : R) (atm : atm_t) : option atm_t :=
  if (qnt >=? 0)%Z then q_write qnt ip v atm else Some atm.

(** T_ice (Marti and Mauersberger, 1993). *)
Definition meteo_tice (ctl : ctl_t) (h2o p : R) : R :=
  - 2663.5
  / (log10_d ((if Rgtb (psc_h2o ctl) 0 then psc_h2o ctl else h2o) * p * 100)
     - 12.537).

(** T_NAT (Hanson and Mauersberger, 1988). *)
Definition meteo_tnat (ctl : ctl_t) (h2o : R) (ip : Z) (atm : atm_t)
  : option atm_t :=
  if (qnt_tnat ctl >=? 0)%Z then
    let p := atm_p atm ip in
    let p_hno3 :=
      if Rgtb (psc_hno3 ctl) 0 then psc_hno3 ctl * p / 1.333224
      else clim_hno3 (atm_time atm ip) (atm_lat atm ip) p
           * 1e-9 * p / 1.333224 in
    let p_h2o :=
      (if Rgtb (psc_h2o ctl) 0 then psc_h2o ctl else h2o) * p / 1.333224 in
    let a := 0.009179 - 0.00088 * log10_d p_h2o in
    let b := (38.9855 - log10_d p_hno3 - 2.7836 * log10_d p_h2o) / a in
    let c := - 11397.0 / a in
    let x1 := (- b + sqrt (b * b - 4 * c)) / 2 in
    let x2 := (- b - sqrt (b * b - 4 * c)) / 2 in
    atm <- (if Rgtb x1 0 then q_write (qnt_tnat ctl) ip x1 atm else Some atm) ;;
    if Rgtb x2 0 then q_write (qnt_tnat ctl) ip x2 atm else Some atm
  else Some atm.

(** T_STS (mean of T_ice and T_NAT). *)
Definition meteo_tsts (ctl : ctl_t) (ip : Z) (atm : atm_t) : option atm_t :=
  if (qnt_tsts ctl >=? 0)%Z then
    tice <- q_read atm (qnt_tice ctl) ip ;;
    tnat <- q_read atm (qnt_tnat ctl) ip ;;
    q_write (qnt_tsts ctl) ip (0.5 * (tice + tnat)) atm
  else Some atm.

Definition meteo_ip (ctl : ctl_t) (met0 met1 : met_t) (ip : Z) (atm : atm_t)
  : option atm_t :=
  let m := intpol_met_time met0 met1 (atm_time atm ip) (atm_p atm ip)
             (atm_lon atm ip) (atm_lat atm ip) in
  atm <- set_qnt (qnt_ps ctl) ip (mv_ps m) atm ;;
  atm <- set_qnt (qnt_pt ctl) ip (mv_pt m) atm ;;
  atm <- set_qnt (qnt_p ctl) ip (atm_p atm ip) atm ;;
  atm <- set_qnt (qnt_z ctl) ip (mv_z m) atm ;;
  atm <- set_qnt (qnt_t ctl) ip (mv_t m) atm ;;
  atm <- set_qnt (qnt_u ctl) ip (mv_u m) atm ;;
  atm <- set_qnt (qnt_v ctl) ip (mv_v m) atm ;;
  atm <- set_qnt (qnt_w ctl) ip (mv_w m) atm ;;
  atm <- set_qnt (qnt_h2o ctl) ip (mv_h2o m) atm ;;
  atm <- set_qnt (qnt_o3 ctl) ip (mv_o3 m) atm ;;
  atm <- set_qnt (qnt_vh ctl) ip
           (sqrt (mv_u m * mv_u m + mv_v m * mv_v m)) atm ;;
  atm <- set_qnt (qnt_vz ctl) ip (- 1e3 * H0 / atm_p atm ip * mv_w m) atm ;;
  atm <- set_qnt (qnt_theta ctl) ip (THETA (atm_p atm ip) (mv_t m)) atm ;;
  atm <- set_qnt (qnt_pv ctl) ip (mv_pv m) atm ;;
  atm <- set_qnt (qnt_tice ctl) ip (meteo_tice ctl (mv_h2o m) (atm_p atm ip))
           atm ;;
  atm <- meteo_tnat ctl (mv_h2o m) ip atm ;;
  meteo_tsts ctl ip atm.

Definition module_meteo (ctl : ctl_t) (met0 met1 : met_t) (atm : atm_t)
  : option atm_t :=
  for_loop_opt (atm_np atm) (meteo_ip ctl met0 met1) atm.

(** *** Position *)

(** The loop that checks the latitude. *)
Definition lat_cond (ip : Z) (atm : atm_t) : bool :=
  Rltb (atm_lat atm ip) (- 90) || Rgtb (atm_lat atm ip) 90.

Definition lat_body (ip : Z) (atm : atm_t) : atm_t :=
  let atm :=
    if Rgtb (atm_lat atm ip) 90 then
      let atm := wr_lat ip (180 - atm_lat atm ip) atm in
      wr_lon ip (atm_lon atm ip + 180) atm
    else atm in
  if Rltb (atm_lat atm ip) (- 90) then
    let atm := wr_lat ip (- 180 - atm_lat atm ip) atm in
    wr_lon ip (atm_lon atm ip + 180) atm
  else atm.

(** "Calculate modulo..." *)
Definition position_modulo (ip : Z) (atm : atm_t) : atm_t :=
  let atm := wr_lon ip (FMOD (atm_lon atm ip) 360) atm in
  wr_lat ip (FMOD (atm_lat atm ip) 360) atm.

(** The part of the body before the pressure check: modulo and the three
    loops. *)
Definition position_lonlat (fuel : nat) (ip : Z) (atm : atm_t)
  : option atm_t :=
  let atm := position_modulo ip atm in
  atm <- while_loop fuel (lat_cond ip) (lat_body ip) atm ;;
  atm <- while_loop fuel (fun a => Rltb (atm_lon a ip) (- 180))
           (fun a => wr_lon ip (atm_lon a ip + 360) a) atm ;;
  while_loop fuel (fun a => Rgeb (atm_lon a ip) 180)
    (fun a => wr_lon ip (atm_lon a ip - 360) a) atm.

Definition position_pressure (met0 met1 : met_t) (ip : Z) (atm : atm_t)
  : atm_t :=
  if Rltb (atm_p atm ip) (met_p met0 (met_np met0 - 1)%Z) then
    wr_p ip (met_p met0 (met_np met0 - 1)%Z) atm
  else if Rgtb (atm_p atm ip) 300 then
    let ps := mv_ps (intpol_met_time met0 met1 (atm_time atm ip) (atm_p atm ip)
                       (atm_lon atm ip) (atm_lat atm ip)) in
    if Rgtb (atm_p atm ip) ps then wr_p ip ps atm else atm
  else atm.

Definition position_ip (fuel : nat) (met0 met1 : met_t) (dt : Z -> R)
  (ip : Z) (atm : atm_t) : option atm_t :=
  if Rneqb (dt ip) 0 then
    atm <- position_lonlat fuel ip atm ;;
    Some (position_pressure met0 met1 ip atm)
  else Some atm.

Definition module_position (fuel : nat) (met0 met1 : met_t) (atm : atm_t)
  (dt : Z -> R) : option atm_t :=
  for_loop_opt (atm_np atm) (position_ip fuel met0 met1 dt) atm.

(** *** Sedimentation *)

Definition sedi_ip (ctl : ctl_t) (met0 met1 : met_t) (dt : Z -> R) (ip : Z)
  (atm : atm_t) : atm_t :=
  if Rneqb (dt ip) 0 then
    let A := 1.249 in
    let B := 0.42 in
    let C := 0.87 in
    let m := 4.8096e-26 in
    let p := 100 * atm_p atm ip in
    let r_p := 1e-6 * atm_q atm (qnt_r ctl) ip in
    let rho_p := atm_q atm (qnt_rho ctl) ip in
    let T := mv_t (intpol_met_time met0 met1 (atm_time atm ip) (atm_p atm ip)
                     (atm_lon atm ip) (atm_lat atm ip)) in
    let rho := p / (RA * T) in
    let eta := 1.8325e-5 * (416.16 / (T + 120)) * pow_d (T / 296.16) 1.5 in
    let v := sqrt (8 * KB * T / (PI * m)) in
    let lambda := 2 * eta / (rho * v) in
    let K := lambda / r_p in
    let G := 1 + K * (A + B * exp (- C / K)) in
    let v_p := 2 * SQR r_p * (rho_p - rho) * G0 / (9 * eta) * G in
    wr_p ip (atm_p atm ip + DZ2DP (v_p * dt ip / 1000) (atm_p atm ip)) atm
  else atm.

Definition module_sedi (ctl : ctl_t) (met0 met1 : met_t) (atm : atm_t)
  (dt : Z -> R) : atm_t :=
  for_loop (atm_np atm) (sedi_ip ctl met0 met1 dt) atm.

(** *** One time step of [main]

    The modules in the order of the loop over the time steps, from the time
    steps of the particles to the decay.  [t] is the time of the step (after
    the adjustment of the final step), [met0] and [met1] are the snapshots
    [get_met] provides for it, and [rs_turb] and [rs_meso] are the random
    numbers [module_diffusion_rng] draws for the two diffusion modules. *)
Definition timestep (fuel : nat) (ctl : ctl_t) (met0 met1 : met_t) (t : R)
  (rs_turb rs_meso : Z -> R) (s : atm_t * (Z -> R))
  : option (atm_t * (Z -> R)) :=
  let (atm, dt) := time_steps ctl t s in
  atm <- module_position fuel met0 met1 atm dt ;;
  let atm := module_advection met0 met1 atm dt in
  let atm :=
    if Rgtb (turb_dx_trop ctl) 0 || Rgtb (turb_dz_trop ctl) 0
       || Rgtb (turb_dx_strat ctl) 0 || Rgtb (turb_dz_strat ctl) 0
    then module_diffusion_turb ctl atm dt rs_turb else atm in
  let atm :=
    if Rgtb (turb_mesox ctl) 0 || Rgtb (turb_mesoz ctl) 0
    then module_diffusion_meso ctl met0 met1 atm dt rs_meso else atm in
  let atm :=
    if ((qnt_r ctl >=? 0) && (qnt_rho ctl >=? 0))%Z
    then module_sedi ctl met0 met1 atm dt else atm in
  let atm :=
    if ((isosurf ctl >=? 1) && (isosurf ctl <=? 4))%Z
    then module_isosurf ctl met0 met1 atm else atm in
  atm <- module_position fuel met0 met1 atm dt ;;
  atm <- (if Rgtb (met_dt_out ctl) 0
             && (Rltb (met_dt_out ctl) (dt_mod ctl)
                 || Reqb (FMOD t (met_dt_out ctl)) 0)
          then module_meteo ctl met0 met1 atm else Some atm) ;;
  let atm :=
    if Rgtb (tdec_trop ctl) 0 && Rgtb (tdec_strat ctl) 0
       && (qnt_m ctl >=? 0)%Z
    then module_decay ctl atm dt else atm in
  Some (atm, dt).

End Engine.

(** ** Vocabulary of the properties *)

(** The state fields of particle [j] are the same in [a] and [a']: time,
    longitude, latitude, pressure, quantities and fluctuation components. *)
Definition same_particle (j : Z) (a a' : atm_t) : Prop :=
  atm_time a' j = atm_time a j
  /\ atm_lon a' j = atm_lon a j
  /\ atm_lat a' j = atm_lat a j
  /\ atm_p a' j = atm_p a j
  /\ (forall iq, atm_q a' iq j = atm_q a iq j)
  /\ atm_up a' j = atm_up a j
  /\ atm_vp a' j = atm_vp a j
  /\ atm_wp a' j = atm_wp a j.

(** The isosurface bookkeeping is the same in [a] and [a']: the saved value
    of particle [j], the balloon series and the number of particles. *)
Definition same_iso (j : Z) (a a' : atm_t) : Prop :=
  atm_iso_var a' j = atm_iso_var a j
  /\ atm_iso_ts a' = atm_iso_ts a
  /\ atm_iso_ps a' = atm_iso_ps a
  /\ atm_iso_n a' = atm_iso_n a
  /\ atm_np a' = atm_np a.

(** Particle [j] and the isosurface bookkeeping are the same. *)
Definition same_state (j : Z) (a a' : atm_t) : Prop :=
  same_particle j a a' /\ same_iso j a a'.

(** [(lat', lon')] is [(lat, lon)] after no reflection at a pole, after one
    (at the north or at the south pole) or after two (north then south, or
    south then north); each reflection adds 180 to the longitude. *)
Definition reflected (lat lon lat' lon' : R) : Prop :=
  (lat' = lat /\ lon' = lon)
  \/ (lat' = 180 - lat /\ lon' = lon + 180)
  \/ (lat' = - 180 - lat /\ lon' = lon + 180)
  \/ (lat' = - 180 - (180 - lat) /\ lon' = lon + 180 + 180)
  \/ (lat' = 180 - (- 180 - lat) /\ lon' = lon + 180 + 180).

(** ** A small run: one particle, constant fields

    Used to evaluate the modules on concrete data. *)

Definition ex_vals : met_vals :=
  mk_met_vals 1000 200 5 250 0 0 0 0 0 0.

Definition ex_lib : Libtrac :=
  {| NP := 4;
     NQ := 3;
     H0 := 7;
     RA := 287.058;
     KB := 1.3806504e-23;
     G0 := 9.80665;
     DX2DEG := fun dx _ => dx;
     DY2DEG := fun dy => dy;
     DZ2DP := fun dz p => - dz * p / 7;
     SQR := fun x => x * x;
     intpol_met_time := fun _ _ _ _ _ _ => ex_vals;
     clim_tropo := fun _ _ => 200;
     clim_hno3 := fun _ _ _ => 1;
     locate_reg := fun _ _ _ => 0%Z;
     stddev := fun _ _ => 0 |}.

Definition ex_met : met_t :=
  mk_met 0 2 2 2 (fun i => IZR i) (fun i => IZR i)
         (fun i => if (i =? 0)%Z then 1000 else 10)
         (fun _ _ _ => 0) (fun _ _ _ => 0) (fun _ _ _ => 0).

(** One particle at time 0, longitude 500, latitude 100 and pressure 500,
    with every quantity equal to [mass]; the balloon series has the two
    samples (0, 500) and (10, 400). *)
Definition ex_atm (mass : R) : atm_t :=
  mk_atm 1 (fun _ => 0) (fun _ => 500) (fun _ => 100) (fun _ => 500)
         (fun _ _ => mass) (fun _ => 0) (fun _ => 0) (fun _ => 0)
         (fun _ => 0) (fun i => IZR i * 10) (fun i => 500 - IZR i * 100) 2
         (fun _ _ _ => 0) (fun _ _ _ => 0) (fun _ _ _ => 0) (fun _ _ _ => 0).

(** Forward run from 0 to 100 in steps of 10, lifetimes 1, mass in row 0;
    the isosurface mode and the rows of T_ice, T_NAT and T_STS are given. *)
Definition ex_ctl (mode q_tice q_tnat q_tsts : Z) : ctl_t :=
  mk_ctl 1 0 100 10 20 0 0 0 0 0 0 1 1 mode "balloon.tab" 0 0 0
         0 (- 1) (- 1) (- 1) (- 1) (- 1) (- 1) (- 1) (- 1) (- 1) (- 1)
         (- 1) (- 1) (- 1) (- 1) (- 1) (- 1) q_tice q_tnat q_tsts.

(** ** Fields of the ensemble and what a module keeps *)

Inductive field : Type :=
| F_np | F_time | F_lon | F_lat | F_p | F_q | F_up | F_vp | F_wp
| F_iso | F_cache.

(** [keeps f a b]: field [f] has the same contents in [a] and [b], for every
    particle; [F_iso] is the isosurface bookkeeping (saved values and balloon
    series), [F_cache] the cache of wind deviations. *)
Definition keeps (f : field) (a b : atm_t) : Prop :=
  match f with
  | F_np => atm_np b = atm_np a
  | F_time => atm_time b = atm_time a
  | F_lon => atm_lon b = atm_lon a
  | F_lat => atm_lat b = atm_lat a
  | F_p => atm_p b = atm_p a
  | F_q => atm_q b = atm_q a
  | F_up => atm_up b = atm_up a
  | F_vp => atm_vp b = atm_vp a
  | F_wp => atm_wp b = atm_wp a
  | F_iso =>
      atm_iso_var b = atm_iso_var a
      /\ atm_iso_ts b = atm_iso_ts a
      /\ atm_iso_ps b = atm_iso_ps a
      /\ atm_iso_n b = atm_iso_n a
  | F_cache =>
      atm_cache_time b = atm_cache_time a
      /\ atm_cache_usig b = atm_cache_usig a
      /\ atm_cache_vsig b = atm_cache_vsig a
      /\ atm_cache_wsig b = atm_cache_wsig a
  end.

(** ** The run: start and stop time, loop over the time steps *)

(** Replacing the start or the stop time of the control parameters. *)
Definition set_t_start (v : R) (c : ctl_t) : ctl_t :=
  mk_ctl (direction c) v (t_stop c) (dt_mod c) (dt_met c) (turb_dx_trop c)
    (turb_dx_strat c) (turb_dz_trop c) (turb_dz_strat c) (turb_mesox c)
    (turb_mesoz c) (tdec_trop c) (tdec_strat c) (isosurf c) (balloon c)
    (psc_h2o c) (psc_hno3 c) (met_dt_out c) (qnt_m c) (qnt_r c) (qnt_rho c)
    (qnt_ps c) (qnt_pt c) (qnt_p c) (qnt_z c) (qnt_t c) (qnt_u c) (qnt_v c)
    (qnt_w c) (qnt_h2o c) (qnt_o3 c) (qnt_vh c) (qnt_vz c) (qnt_theta c)
    (qnt_pv c) (qnt_tice c) (qnt_tnat c) (qnt_tsts c).

Definition set_t_stop (v : R) (c : ctl_t) : ctl_t :=
  mk_ctl (direction c) (t_start c) v (dt_mod c) (dt_met c) (turb_dx_trop c)
    (turb_dx_strat c) (turb_dz_trop c) (turb_dz_strat c) (turb_mesox c)
    (turb_mesoz c) (tdec_trop c) (tdec_strat c) (isosurf c) (balloon c)
    (psc_h2o c) (psc_hno3 c) (met_dt_out c) (qnt_m c) (qnt_r c) (qnt_rho c)
    (qnt_ps c) (qnt_pt c) (qnt_p c) (qnt_z c) (qnt_t c) (qnt_u c) (qnt_v c)
    (qnt_w c) (qnt_h2o c) (qnt_o3 c) (qnt_vh c) (qnt_vz c) (qnt_theta c)
    (qnt_pv c) (qnt_tice c) (qnt_tnat c) (qnt_tsts c).

(** [gsl_stats_min (data, 1, n)] and [gsl_stats_max (data, 1, n)] of the
    GSL: the least and the greatest of the first [n] elements, found by a
    scan that starts from [data[0]]. *)
Definition gsl_stats_min (data : Z -> R) (n : Z) : R :=
  for_loop n (fun i m => if Rltb (data i) m then data i else m) (data 0%Z).

Definition gsl_stats_max (data : Z -> R) (n : Z) : R :=
  for_loop n (fun i m => if Rgtb (data i) m then data i else m) (data 0%Z).

(** [floor] and [ceil] of math.h. *)
Definition floor_d (x : R) : R := IZR (Zfloor x).
Definition ceil_d (x : R) : R := IZR (Zceil x).

(** "Set start time...", "Check time interval..." and "Round start
    time..." of [main]. *)
Definition init_times (ctl : ctl_t) (atm : atm_t) : result ctl_t :=
  let ctl :=
    if (direction ctl =? 1)%Z then
      let ctl := set_t_start (gsl_stats_min (atm_time atm) (atm_np atm)) ctl in
      if Rgtb (t_stop ctl) 1e99
      then set_t_stop (gsl_stats_max (atm_time atm) (atm_np atm)) ctl
      else ctl
    else
      let ctl := set_t_start (gsl_stats_max (atm_time atm) (atm_np atm)) ctl in
      if Rgtb (t_stop ctl) 1e99
      then set_t_stop (gsl_stats_min (atm_time atm) (atm_np atm)) ctl
      else ctl in
  if Rleb (IZR (direction ctl) * (t_stop ctl - t_start ctl)) 0
  then Fatal "Nothing to do!"
  else
    Ok (if (direction ctl =? 1)%Z
        then set_t_start (floor_d (t_start ctl / dt_mod ctl) * dt_mod ctl) ctl
        else set_t_start (ceil_d (t_start ctl / dt_mod ctl) * dt_mod ctl) ctl).

(** The time [c] of a particle lies in the window of the run: between the
    start and the stop time, in the direction of the run. *)
Definition in_window (ctl : ctl_t) (c : R) : Prop :=
  IZR (direction ctl) * t_start ctl <= IZR (direction ctl) * c
  /\ IZR (direction ctl) * c <= IZR (direction ctl) * t_stop ctl.

Section Run.

Context {L : Libtrac}.

(** The rows of the quantity array [module_meteo] may write: the indices
    of the diagnostics in the control parameters. *)
Definition meteo_rows (ctl : ctl_t) : list Z :=
  [qnt_ps ctl; qnt_pt ctl; qnt_p ctl; qnt_z ctl; qnt_t ctl; qnt_u ctl;
   qnt_v ctl; qnt_w ctl; qnt_h2o ctl; qnt_o3 ctl; qnt_vh ctl; qnt_vz ctl;
   qnt_theta ctl; qnt_pv ctl; qnt_tice ctl; qnt_tnat ctl; qnt_tsts ctl].

(** The rows the diagnostics write lie inside the quantity array, and
    T_STS is requested only together with T_ice and T_NAT. *)
Definition meteo_rows_ok (ctl : ctl_t) : Prop :=
  Forall (fun q => (q < NQ)%Z) (meteo_rows ctl)
  /\ ((qnt_tsts ctl >= 0)%Z ->
      (qnt_tice ctl >= 0)%Z /\ (qnt_tnat ctl >= 0)%Z).

(** What a run takes from outside: [get_met t mets] are the two snapshots
    that bracket the time [t], given the two held so far, and [rs_of t] are
    the two batches of random numbers drawn in the step at [t]. *)
Variable get_met : R -> met_t * met_t -> met_t * met_t.
Variable rs_of : R -> (Z -> R) * (Z -> R).

(** "Loop over timesteps..." of [main], started with the loop variable at
    [t]; [fuel] bounds the number of steps and [pfuel] the iterations of the
    loops of the position check.  The result is the state after the last
    step and the times of the steps, which are the times [write_output] is
    called with. *)
Fixpoint main_loop (fuel pfuel : nat) (ctl : ctl_t) (t : R)
  (mets : met_t * met_t) (s : atm_t * (Z -> R))
  : option (atm_t * (Z -> R) * list R) :=
  if Rltb (IZR (direction ctl) * (t - t_stop ctl)) (dt_mod ctl) then
    match fuel with
    | O => None
    | S f =>
        let t :=
          if Rgtb (IZR (direction ctl) * (t - t_stop ctl)) 0
          then t_stop ctl else t in
        let mets := if Rneqb t (t_start ctl) then get_met t mets else mets in
        s <- timestep pfuel ctl (fst mets) (snd mets) t
               (fst (rs_of t)) (snd (rs_of t)) s ;;
        r <- main_loop f pfuel ctl (t + IZR (direction ctl) * dt_mod ctl)
               mets s ;;
        Some (fst r, t :: snd r)
    end
  else Some (s, []).

(** The model run of [main] for one directory, from "Set start time..." to
    the end of the loop over the time steps: [atm] is the ensemble
    [read_atm] returns, [mets0] the two snapshots as allocated, [file] the
    balloon file. *)
Definition main_run (fuel pfuel : nat) (ctl : ctl_t) (mets0 : met_t * met_t)
  (file : option (list scan_line)) (atm : atm_t) (dt : Z -> R)
  : result (option (atm_t * (Z -> R) * list R)) :=
  match init_times ctl atm with
  | Fatal msg => Fatal msg
  | Ok ctl =>
      let mets := get_met (t_start ctl) mets0 in
      match
        (if ((isosurf ctl >=? 1) && (isosurf ctl <=? 4))%Z
         then module_isosurf_init ctl (fst mets) (snd mets) file atm
         else Ok atm)
      with
      | Fatal msg => Fatal msg
      | Ok atm => Ok (main_loop fuel pfuel ctl (t_start ctl) mets (atm, dt))
      end
  end.

End Run.

(** ** The cache of wind deviations and the balloon file *)

Section Cache.

Context {L : Libtrac}.

(** Every entry of the cache that carries the time of the first snapshot
    holds the standard deviations of the winds at the 16 corners of its
    cell. *)
Definition cache_valid (met0 met1 : met_t) (atm : atm_t) : Prop :=
  forall ix iy iz,
    atm_cache_time atm ix iy iz = met_time met0 ->
    atm_cache_usig atm ix iy iz
    = float_cast (stddev (corners (met_u met0) (met_u met1) ix iy iz) 16)
    /\ atm_cache_vsig atm ix iy iz
       = float_cast (stddev (corners (met_v met0) (met_v met1) ix iy iz) 16)
    /\ atm_cache_wsig atm ix iy iz
       = float_cast (stddev (corners (met_w met0) (met_w met1) ix iy iz) 16).

End Cache.

(** The samples of a balloon file: its lines with two numbers, in order. *)
Fixpoint balloon_samples (lines : list scan_line) : list (R * R) :=
  match lines with
  | [] => []
  | Scan2 t p :: rest => (t, p) :: balloon_samples rest
  | _ :: rest => balloon_samples rest
  end.

(** ** The point of the sphere at a longitude and a latitude *)

(** An angle in degrees, in radians. *)
Definition rad (x : R) : R := x * (PI / 180).

(** [(lon', lat')] is the same point of the unit sphere as [(lon, lat)]:
    the three Cartesian coordinates agree. *)
Definition same_point (lon lat lon' lat' : R) : Prop :=
  cos (rad lat') * cos (rad lon') = cos (rad lat) * cos (rad lon)
  /\ cos (rad lat') * sin (rad lon') = cos (rad lat) * sin (rad lon)
  /\ sin (rad lat') = sin (rad lat).

(** ** A second small run: two particles, no stop time given

    The particles are at the times 0 and 10; the meteorological data are
    never replaced and the random numbers are all 0. *)
Definition ex_atm2 : atm_t :=
  mk_atm 2 (fun i => IZR i * 10) (fun _ => 0) (fun _ => 0) (fun _ => 500)
         (fun _ _ => 1) (fun _ => 0) (fun _ => 0) (fun _ => 0)
         (fun _ => 0) (fun i => IZR i * 10) (fun i => 500 - IZR i * 100) 2
         (fun _ _ _ => 0) (fun _ _ _ => 0) (fun _ _ _ => 0) (fun _ _ _ => 0).

Definition ex_get_met : R -> met_t * met_t -> met_t * met_t :=
  fun _ mets => mets.

Definition ex_rs_of : R -> (Z -> R) * (Z -> R) :=
  fun _ => (fun _ => 0, fun _ => 0).

(** A balloon file of four lines: two samples, an empty line and a line
    with one number. *)
Definition ex_lines : list scan_line :=
  [Scan2 0 500; Scan0; Scan1 5; Scan2 10 400].

(** The control parameters of the small run with both coefficients of the
    mesoscale diffusion equal to 1. *)
Definition ex_ctl_meso : ctl_t :=
  mk_ctl 1 0 100 10 20 0 0 0 0 1 1 1 1 0 "balloon.tab" 0 0 0
         0 (- 1) (- 1) (- 1) (- 1) (- 1) (- 1) (- 1) (- 1) (- 1) (- 1)
         (- 1) (- 1) (- 1) (- 1) (- 1) (- 1) (- 1) (- 1) (- 1).

(** * Properties *)

(** ** Comparisons, arrays and loops *)

Lemma Rltb_spec x y : reflect (x < y) (Rltb x y).
Proof. unfold Rltb; destruct (Rlt_dec x y); constructor; assumption. Qed.

Lemma Rleb_spec x y : reflect (x <= y) (Rleb x y).
Proof. unfold Rleb; destruct (Rle_dec x y); constructor; assumption. Qed.

Lemma Rgtb_spec x y : reflect (x > y) (Rgtb x y).
Proof. unfold Rgtb, Rgt; apply Rltb_spec. Qed.

Lemma Rgeb_spec x y : reflect (x >= y) (Rgeb x y).
Proof. unfold Rgeb; destruct (Rleb_spec y x); constructor; lra. Qed.

Lemma Reqb_spec x y : reflect (x = y) (Reqb x y).
Proof. unfold Reqb; destruct (Req_dec_T x y); constructor; assumption. Qed.

Lemma Rneqb_spec x y : reflect (x <> y) (Rneqb x y).
Proof. unfold Rneqb; destruct (Reqb_spec x y); constructor; auto. Qed.

Lemma Rneqb_refl x : Rneqb x x = false.
Proof. destruct (Rneqb_spec x x); congruence. Qed.

(** Case analysis on the comparisons of doubles in the goal. *)
Ltac rcase :=
  repeat match goal with
  | |- context [Rltb ?a ?b] => destruct (Rltb_spec a b)
  | |- context [Rleb ?a ?b] => destruct (Rleb_spec a b)
  | |- context [Rgtb ?a ?b] => destruct (Rgtb_spec a b)
  | |- context [Rgeb ?a ?b] => destruct (Rgeb_spec a b)
  | |- context [Rneqb ?a ?b] => destruct (Rneqb_spec a b)
  | |- context [Reqb ?a ?b] => destruct (Reqb_spec a b)
  end.

Lemma upd_same {A} (a : Z -> A) i v : upd a i v i = v.
Proof. unfold upd; now rewrite Z.eqb_refl. Qed.

Lemma upd_other {A} (a : Z -> A) i j v : j <> i -> upd a i v j = a j.
Proof. intros H; unfold upd; now apply Z.eqb_neq in H as ->. Qed.

Lemma upd2_same {A} (a : Z -> Z -> A) i j v : upd2 a i j v i j = v.
Proof. unfold upd2; now rewrite !upd_same. Qed.

Lemma upd2_col_other {A} (a : Z -> Z -> A) i j v r c :
  c <> j -> upd2 a i j v r c = a r c.
Proof.
  intros H; unfold upd2, upd.
  destruct (Z.eqb_spec r i) as [->|]; [|reflexivity].
  now apply Z.eqb_neq in H as ->.
Qed.

Lemma loop_range n ip :
  In ip (map Z.of_nat (seq 0 (Z.to_nat n))) -> (0 <= ip < n)%Z.
Proof.
  intros Hi; apply in_map_iff in Hi as (k & <- & Hk).
  apply in_seq in Hk; lia.
Qed.

Lemma for_loop_inv {S} (P : S -> Prop) n (body : Z -> S -> S) s :
  P s ->
  (forall ip s, (0 <= ip < n)%Z -> P s -> P (body ip s)) ->
  P (for_loop n body s).
Proof.
  intros H0 Hstep; unfold for_loop.
  pose proof (loop_range n) as Hin.
  revert s H0 Hin.
  induction (map Z.of_nat (seq 0 (Z.to_nat n))) as [|i l IH]; intros s H0 Hin.
  - exact H0.
  - simpl; apply IH.
    + apply Hstep; [apply Hin; now left | exact H0].
    + intros ip Hi; apply Hin; now right.
Qed.

Lemma for_loop_opt_inv {S} (P : S -> Prop) n (body : Z -> S -> option S) s s' :
  P s ->
  (forall ip s s', (0 <= ip < n)%Z -> P s -> body ip s = Some s' -> P s') ->
  for_loop_opt n body s = Some s' -> P s'.
Proof.
  intros H0 Hstep; unfold for_loop_opt.
  pose proof (loop_range n) as Hin.
  revert s H0 Hin.
  induction (map Z.of_nat (seq 0 (Z.to_nat n))) as [|i l IH]; intros s H0 Hin.
  - simpl; intros [= <-]; exact H0.
  - simpl; destruct (body i s) as [s1|] eqn:E.
    + apply IH.
      * eapply Hstep; [apply Hin; now left | exact H0 | exact E].
      * intros ip Hi; apply Hin; now right.
    + intros Hn; exfalso; clear - Hn.
      induction l as [|j l IHl]; simpl in Hn; [discriminate | auto].
Qed.

Lemma for_loop_opt_total {S} (P : S -> Prop) n (body : Z -> S -> option S) s :
  P s ->
  (forall ip s, (0 <= ip < n)%Z -> P s ->
                exists s', body ip s = Some s' /\ P s') ->
  exists s', for_loop_opt n body s = Some s' /\ P s'.
Proof.
  intros H0 Hstep; unfold for_loop_opt.
  pose proof (loop_range n) as Hin.
  revert s H0 Hin.
  induction (map Z.of_nat (seq 0 (Z.to_nat n))) as [|i l IH]; intros s H0 Hin.
  - exists s; split; [reflexivity | exact H0].
  - simpl; destruct (Hstep i s) as (s1 & E & H1);
      [apply Hin; now left | exact H0 |].
    rewrite E; apply IH; [exact H1 | intros ip Hi; apply Hin; now right].
Qed.

Lemma for_loop_succ {S} n (body : Z -> S -> S) s :
  (0 <= n)%Z -> for_loop (n + 1) body s = body n (for_loop n body s).
Proof.
  intros Hn; unfold for_loop.
  replace (Z.to_nat (n + 1)) with (Z.to_nat n + 1)%nat by lia.
  rewrite seq_app, map_app, fold_left_app; simpl.
  now rewrite Z2Nat.id.
Qed.

Lemma for_loop_0 {S} n (body : Z -> S -> S) s :
  (n <= 0)%Z -> for_loop n body s = s.
Proof.
  intros Hn; unfold for_loop.
  now replace (Z.to_nat n) with 0%nat by lia.
Qed.


(** ** While loops *)

Lemma while_loop_false {S} fuel (cond : S -> bool) body s :
  cond s = false -> while_loop fuel cond body s = Some s.
Proof. intros H; destruct fuel; simpl; now rewrite H. Qed.

Lemma while_loop_true {S} fuel (cond : S -> bool) body s :
  cond s = true ->
  while_loop (Datatypes.S fuel) cond body s = while_loop fuel cond body (body s).
Proof. intros H; simpl; now rewrite H. Qed.

Lemma while_count_false {S} fuel (cond : S -> bool) body s :
  cond s = false -> while_count fuel cond body s = Some O.
Proof. intros H; destruct fuel; simpl; now rewrite H. Qed.

Lemma while_count_true {S} fuel (cond : S -> bool) body s :
  cond s = true ->
  while_count (Datatypes.S fuel) cond body s
  = option_map Datatypes.S (while_count fuel cond body (body s)).
Proof. intros H; simpl; now rewrite H. Qed.

Lemma while_loop_inv {S} (P : S -> Prop) fuel (cond : S -> bool) body s s' :
  P s ->
  (forall s, cond s = true -> P s -> P (body s)) ->
  while_loop fuel cond body s = Some s' ->
  P s' /\ cond s' = false.
Proof.
  intros H0 Hstep; revert s H0.
  induction fuel as [|f IH]; intros s H0; simpl;
    destruct (cond s) eqn:E; try discriminate.
  - intros [= <-]; now split.
  - intros H; eapply IH; [|exact H]. now apply Hstep.
  - intros [= <-]; now split.
Qed.


(** ** Loops over the particles: what happens to one particle *)

Lemma for_loop_opt_succ {S} n (body : Z -> S -> option S) s :
  (0 <= n)%Z ->
  for_loop_opt (n + 1) body s = obind (for_loop_opt n body s) (body n).
Proof.
  intros Hn; unfold for_loop_opt.
  replace (Z.to_nat (n + 1)) with (Z.to_nat n + 1)%nat by lia.
  rewrite seq_app, map_app, fold_left_app; simpl.
  now rewrite Z2Nat.id.
Qed.

Section Local.

Variable same : atm_t -> atm_t -> Prop.
Hypothesis same_refl : forall a, same a a.
Hypothesis same_trans : forall a b c, same a b -> same b c -> same a c.

(** In a loop whose other iterations respect [same], the state at the end
    is the one iteration [j] produces, up to [same]. *)
Lemma for_loop_local n (body : Z -> atm_t -> atm_t) a0 j :
  (0 <= j < n)%Z ->
  (forall ip a, ip <> j -> same a (body ip a)) ->
  exists a1, same a0 a1 /\ same (body j a1) (for_loop n body a0).
Proof.
  intros Hj Hother.
  assert (Hn : (0 <= n)%Z) by lia.
  revert Hj; pattern n; apply natlike_ind; [lia | | exact Hn].
  intros m Hm IH Hj; unfold Z.succ; rewrite for_loop_succ by exact Hm.
  destruct (Z.eq_dec j m) as [->|Hne].
  - exists (for_loop m body a0); split; [|apply same_refl].
    apply for_loop_inv; [apply same_refl|].
    intros ip s Hip Hs; eapply same_trans; [exact Hs|].
    apply Hother; lia.
  - destruct IH as (a1 & H1 & H2); [lia|].
    exists a1; split; [exact H1|].
    eapply same_trans; [exact H2|]. apply Hother; lia.
Qed.

Lemma for_loop_opt_local n (body : Z -> atm_t -> option atm_t) a0 a' j :
  (0 <= j < n)%Z ->
  (forall ip a a1, ip <> j -> body ip a = Some a1 -> same a a1) ->
  for_loop_opt n body a0 = Some a' ->
  exists a1 a2, same a0 a1 /\ body j a1 = Some a2 /\ same a2 a'.
Proof.
  intros Hj Hother.
  assert (Hn : (0 <= n)%Z) by lia.
  revert a' Hj; pattern n; apply natlike_ind; [lia | | exact Hn].
  intros m Hm IH a' Hj; unfold Z.succ; rewrite for_loop_opt_succ by exact Hm.
  destruct (for_loop_opt m body a0) as [am|] eqn:Em; cbn [obind];
    [|discriminate].
  intros Eb.
  destruct (Z.eq_dec j m) as [->|Hne].
  - exists am, a'; split; [|split; [exact Eb | apply same_refl]].
    apply (for_loop_opt_inv (same a0) m body a0 am);
      [apply same_refl | | exact Em].
    intros ip s s' Hip Hs Es; eapply same_trans; [exact Hs|].
    eapply Hother; [|exact Es]; lia.
  - destruct (IH am) as (a1 & a2 & H1 & H2 & H3); [lia | reflexivity |].
    exists a1, a2; split; [exact H1|]; split; [exact H2|].
    eapply same_trans; [exact H3|]. eapply Hother; [|exact Eb]. lia.
Qed.

End Local.

(** ** Writes and the particles they leave alone *)

Lemma same_particle_refl j a : same_particle j a a.
Proof. unfold same_particle; repeat split; reflexivity. Qed.

Lemma same_particle_trans j a b c :
  same_particle j a b -> same_particle j b c -> same_particle j a c.
Proof.
  unfold same_particle.
  intros (H1 & H2 & H3 & H4 & H5 & H6 & H7 & H8)
         (K1 & K2 & K3 & K4 & K5 & K6 & K7 & K8).
  repeat split; try congruence.
Qed.

(** A write to element [ip] of a field leaves particle [j <> ip] as it is;
    a write to the cache of wind deviations leaves every particle as it
    is. *)
Ltac frame_write :=
  unfold same_particle,
    wr_time, wr_lon, wr_lat, wr_p, wr_up, wr_vp, wr_wp, wr_q, wr_iso_var;
  cbn; repeat split; intros;
  rewrite ?upd_other, ?upd2_col_other by assumption; reflexivity.

Lemma same_wr_time j ip v a : j <> ip -> same_particle j a (wr_time ip v a).
Proof. intros; frame_write. Qed.

Lemma same_wr_lon j ip v a : j <> ip -> same_particle j a (wr_lon ip v a).
Proof. intros; frame_write. Qed.

Lemma same_wr_lat j ip v a : j <> ip -> same_particle j a (wr_lat ip v a).
Proof. intros; frame_write. Qed.

Lemma same_wr_p j ip v a : j <> ip -> same_particle j a (wr_p ip v a).
Proof. intros; frame_write. Qed.

Lemma same_wr_up j ip v a : j <> ip -> same_particle j a (wr_up ip v a).
Proof. intros; frame_write. Qed.

Lemma same_wr_vp j ip v a : j <> ip -> same_particle j a (wr_vp ip v a).
Proof. intros; frame_write. Qed.

Lemma same_wr_wp j ip v a : j <> ip -> same_particle j a (wr_wp ip v a).
Proof. intros; frame_write. Qed.

Lemma same_wr_q j iq ip v a : j <> ip -> same_particle j a (wr_q iq ip v a).
Proof. intros; frame_write. Qed.

Lemma same_wr_iso_var j ip v a : same_particle j a (wr_iso_var ip v a).
Proof. frame_write. Qed.

Lemma same_set_cache_time j v a : same_particle j a (set_atm_cache_time v a).
Proof. frame_write. Qed.

Lemma same_set_cache_usig j v a : same_particle j a (set_atm_cache_usig v a).
Proof. frame_write. Qed.

Lemma same_set_cache_vsig j v a : same_particle j a (set_atm_cache_vsig v a).
Proof. frame_write. Qed.

Lemma same_set_cache_wsig j v a : same_particle j a (set_atm_cache_wsig v a).
Proof. frame_write. Qed.

(** The frame of a straight-line body: follow its statements one by one;
    a value bound by [let] is forgotten once it has been dealt with. *)
Ltac frame_go Hne :=
  lazymatch goal with
  | |- same_particle ?j ?a ?a => apply same_particle_refl
  | |- same_particle ?j ?a (if ?b then _ else _) => destruct b; frame_go Hne
  | |- same_particle ?j ?a (let x := ?e in @?f x) =>
      lazymatch type of e with
      | atm_t =>
          apply (same_particle_trans j a e);
          [ frame_go Hne
          | let y := fresh "atm" in
            change (same_particle j e (f e));
            generalize e; intro y; cbv beta; frame_go Hne ]
      | _ =>
          let y := fresh "v" in
          change (same_particle j a (f e));
          generalize e; intro y; cbv beta; frame_go Hne
      end
  | |- same_particle ?j ?a (wr_time ?ip ?v ?e) =>
      apply (same_particle_trans j a e);
      [frame_go Hne | apply same_wr_time; exact Hne]
  | |- same_particle ?j ?a (wr_lon ?ip ?v ?e) =>
      apply (same_particle_trans j a e);
      [frame_go Hne | apply same_wr_lon; exact Hne]
  | |- same_particle ?j ?a (wr_lat ?ip ?v ?e) =>
      apply (same_particle_trans j a e);
      [frame_go Hne | apply same_wr_lat; exact Hne]
  | |- same_particle ?j ?a (wr_p ?ip ?v ?e) =>
      apply (same_particle_trans j a e);
      [frame_go Hne | apply same_wr_p; exact Hne]
  | |- same_particle ?j ?a (wr_up ?ip ?v ?e) =>
      apply (same_particle_trans j a e);
      [frame_go Hne | apply same_wr_up; exact Hne]
  | |- same_particle ?j ?a (wr_vp ?ip ?v ?e) =>
      apply (same_particle_trans j a e);
      [frame_go Hne | apply same_wr_vp; exact Hne]
  | |- same_particle ?j ?a (wr_wp ?ip ?v ?e) =>
      apply (same_particle_trans j a e);
      [frame_go Hne | apply same_wr_wp; exact Hne]
  | |- same_particle ?j ?a (wr_q ?iq ?ip ?v ?e) =>
      apply (same_particle_trans j a e);
      [frame_go Hne | apply same_wr_q; exact Hne]
  | |- same_particle ?j ?a (wr_iso_var ?ip ?v ?e) =>
      apply (same_particle_trans j a e);
      [frame_go Hne | apply same_wr_iso_var]
  | |- same_particle ?j ?a (set_atm_cache_time ?v ?e) =>
      apply (same_particle_trans j a e);
      [frame_go Hne | apply same_set_cache_time]
  | |- same_particle ?j ?a (set_atm_cache_usig ?v ?e) =>
      apply (same_particle_trans j a e);
      [frame_go Hne | apply same_set_cache_usig]
  | |- same_particle ?j ?a (set_atm_cache_vsig ?v ?e) =>
      apply (same_particle_trans j a e);
      [frame_go Hne | apply same_set_cache_vsig]
  | |- same_particle ?j ?a (set_atm_cache_wsig ?v ?e) =>
      apply (same_particle_trans j a e);
      [frame_go Hne | apply same_set_cache_wsig]
  end.

(** Reading a field after writes. *)
Ltac atm_simpl :=
  unfold wr_time, wr_lon, wr_lat, wr_p, wr_up, wr_vp, wr_wp, wr_q,
    wr_iso_var;
  cbn [atm_np atm_time atm_lon atm_lat atm_p atm_q atm_up atm_vp atm_wp
       atm_iso_var atm_iso_ts atm_iso_ps atm_iso_n
       atm_cache_time atm_cache_usig atm_cache_vsig atm_cache_wsig
       set_atm_time set_atm_lon set_atm_lat set_atm_p set_atm_q set_atm_up
       set_atm_vp set_atm_wp set_atm_iso_var set_atm_iso_ts set_atm_iso_ps
       set_atm_iso_n set_atm_cache_time set_atm_cache_usig
       set_atm_cache_vsig set_atm_cache_wsig];
  rewrite ?upd_same, ?upd2_same.


Section Properties.

Context {L : Libtrac}.

(** ** Time steps of the particles *)

Lemma time_step_ip_atm ctl t ip s : fst (time_step_ip ctl t ip s) = fst s.
Proof.
  destruct s as [atm dt]; unfold time_step_ip.
  now destruct (_ && _).
Qed.

Lemma time_steps_atm ctl t s : fst (time_steps ctl t s) = fst s.
Proof.
  unfold time_steps.
  apply (for_loop_inv (fun s' => fst s' = fst s)); [reflexivity|].
  intros ip s' _ H; now rewrite time_step_ip_atm.
Qed.

Lemma time_step_ip_dt ctl t ip atm dt :
  snd (time_step_ip ctl t ip (atm, dt))
  = upd dt ip (time_step_of ctl t (atm_time atm ip)).
Proof.
  unfold time_step_ip, time_step_of.
  now destruct (_ && _).
Qed.

Lemma range_succ j m :
  (0 <= m)%Z -> j <> m ->
  ((0 <=? j) && (j <? m + 1))%Z = ((0 <=? j) && (j <? m))%Z.
Proof.
  intros Hm Hne.
  destruct (0 <=? j)%Z; simpl; [|reflexivity].
  destruct (j <? m)%Z eqn:E2, (j <? m + 1)%Z eqn:E3; try reflexivity; lia.
Qed.

Lemma range_last m : (0 <= m)%Z -> ((0 <=? m) && (m <? m + 1))%Z = true.
Proof. intros Hm; apply andb_true_iff; split; lia. Qed.

Lemma range_empty j n : (n <= 0)%Z -> ((0 <=? j) && (j <? n))%Z = false.
Proof.
  intros Hn; destruct (0 <=? j)%Z eqn:E1, (j <? n)%Z eqn:E2;
    simpl; try reflexivity; lia.
Qed.

Lemma time_steps_dt ctl t atm dt j :
  snd (time_steps ctl t (atm, dt)) j
  = if ((0 <=? j) && (j <? atm_np atm))%Z
    then time_step_of ctl t (atm_time atm j) else dt j.
Proof.
  unfold time_steps; cbn [fst].
  assert (Hfst : forall n, fst (for_loop n (time_step_ip ctl t) (atm, dt)) = atm).
  { intros n. apply (for_loop_inv (fun s' => fst s' = atm)); [reflexivity|].
    intros ip s' _ H; now rewrite time_step_ip_atm. }
  assert (H : forall n, (0 <= n)%Z ->
            snd (for_loop n (time_step_ip ctl t) (atm, dt)) j
            = if ((0 <=? j) && (j <? n))%Z
              then time_step_of ctl t (atm_time atm j) else dt j).
  { intros n Hn; pattern n; apply natlike_ind; [| |exact Hn].
    - rewrite for_loop_0 by lia. now rewrite range_empty by lia.
    - intros m Hm IH. unfold Z.succ. rewrite for_loop_succ by exact Hm.
      specialize (Hfst m).
      destruct (for_loop m (time_step_ip ctl t) (atm, dt)) as [a d].
      cbn [fst snd] in Hfst, IH; subst a.
      rewrite time_step_ip_dt.
      destruct (Z.eq_dec j m) as [->|Hne].
      + now rewrite upd_same, range_last.
      + now rewrite upd_other, range_succ, IH. }
  destruct (Z.le_gt_cases 0 (atm_np atm)) as [Hn|Hn]; [now apply H|].
  rewrite for_loop_0 by lia. now rewrite range_empty by lia.
Qed.

(** C1: at a step time [t] the loop over the particles sets the increment
    of every particle to [t] minus its time when
    [direction * (time - t_start) >= 0], [direction * (time - t_stop) <= 0]
    and [direction * (time - t) < 0], and to 0 otherwise; the ensemble is
    left as it is, and so are the elements of [dt] beyond the particles. *)
Theorem C1_time_steps (ctl : ctl_t) (t : R) (atm : atm_t) (dt : Z -> R) (ip : Z) :
  (0 <= ip < atm_np atm)%Z ->
  let dir := IZR (direction ctl) in
  let atmtime := atm_time atm ip in
  let s' := time_steps ctl t (atm, dt) in
  (dir * (atmtime - t_start ctl) >= 0
   /\ dir * (atmtime - t_stop ctl) <= 0
   /\ dir * (atmtime - t) < 0 ->
   snd s' ip = t - atmtime)
  /\ (~ (dir * (atmtime - t_start ctl) >= 0
         /\ dir * (atmtime - t_stop ctl) <= 0
         /\ dir * (atmtime - t) < 0) ->
      snd s' ip = 0)
  /\ fst s' = atm
  /\ (forall j, ~ (0 <= j < atm_np atm)%Z -> snd s' j = dt j).
Proof.
  intros Hip dir atmtime s'; subst s'.
  assert (Hin : ((0 <=? ip) && (ip <? atm_np atm))%Z = true)
    by (apply andb_true_iff; split; lia).
  repeat split.
  - intros (H1 & H2 & H3).
    rewrite time_steps_dt, Hin; unfold time_step_of.
    fold dir atmtime; rcase; simpl; try reflexivity; lra.
  - intros Hn.
    rewrite time_steps_dt, Hin; unfold time_step_of.
    fold dir atmtime; rcase; simpl; try reflexivity.
    exfalso; apply Hn; repeat split; assumption.
  - apply time_steps_atm.
  - intros j Hj; rewrite time_steps_dt.
    destruct (0 <=? j)%Z eqn:E1, (j <? atm_np atm)%Z eqn:E2;
      simpl; try reflexivity; lia.
Qed.

(** ** Tropopause-relative weight *)

Lemma tropo_thresholds pt : 0 < pt -> pt * 0.866877899 < pt / 0.866877899.
Proof. intros H; lra. Qed.

Lemma LIN_weight x0 x1 x :
  x0 <> x1 -> LIN x0 1.0 x1 0.0 x = (x - x1) / (x0 - x1).
Proof.
  intros H; unfold LIN.
  replace 1.0 with 1 by lra. replace 0.0 with 0 by lra.
  field; split; lra.
Qed.

Lemma tropo_weight_between pt p :
  0 < pt -> pt * 0.866877899 <= p <= pt / 0.866877899 ->
  tropo_weight pt p
  = (p - pt * 0.866877899) / (pt / 0.866877899 - pt * 0.866877899).
Proof.
  intros Hpt [H1 H0]; unfold tropo_weight.
  pose proof (tropo_thresholds pt Hpt) as Hlt.
  destruct (Rgtb_spec p (pt / 0.866877899)) as [Hgt|_].
  - (* p = p0 is the only way to be both above and within *)
    exfalso; lra.
  - destruct (Rltb_spec p (pt * 0.866877899)) as [Hl|_]; [exfalso; lra|].
    apply LIN_weight; lra.
Qed.

Lemma tropo_weight_range pt p : pt <> 0 -> 0 <= tropo_weight pt p <= 1.
Proof.
  intros Hpt.
  destruct (Rlt_dec 0 pt) as [Hpos|Hneg].
  - pose proof (tropo_thresholds pt Hpos) as Hlt.
    destruct (Rlt_dec (pt / 0.866877899) p) as [Hhi|Hhi].
    + unfold tropo_weight.
      destruct (Rgtb_spec p (pt / 0.866877899)); [lra | exfalso; lra].
    + destruct (Rlt_dec p (pt * 0.866877899)) as [Hlo|Hlo].
      * unfold tropo_weight.
        destruct (Rgtb_spec p (pt / 0.866877899)); [lra|].
        destruct (Rltb_spec p (pt * 0.866877899)); [lra | exfalso; lra].
      * rewrite tropo_weight_between by lra.
        set (d := pt / 0.866877899 - pt * 0.866877899).
        assert (Hd : 0 < d) by (unfold d; lra).
        split.
        -- apply Rmult_le_pos; [lra | left; now apply Rinv_0_lt_compat].
        -- apply (Rmult_le_reg_r d); [exact Hd|].
           unfold Rdiv; rewrite Rmult_assoc, Rinv_l by lra.
           unfold d; lra.
  - (* a negative [pt] puts the thresholds in the other order *)
    assert (Hlt : pt / 0.866877899 < pt * 0.866877899) by lra.
    unfold tropo_weight.
    destruct (Rgtb_spec p (pt / 0.866877899)); [lra|].
    destruct (Rltb_spec p (pt * 0.866877899)); [lra | exfalso; lra].
Qed.

(** C4 (amended): for a positive tropopause pressure [pt] the weight is 1
    at [p = pt / 0.866877899] and 0 at [p = pt * 0.866877899]; between the
    two thresholds it is the linear function
    [(p - p1) / (p0 - p1)] of the pressure, and it does not decrease when
    the pressure grows. *)
Theorem C4_tropo_weight (pt : R) :
  0 < pt ->
  let p0 := pt / 0.866877899 in
  let p1 := pt * 0.866877899 in
  tropo_weight pt p0 = 1
  /\ tropo_weight pt p1 = 0
  /\ (forall p, p1 <= p <= p0 -> tropo_weight pt p = (p - p1) / (p0 - p1))
  /\ (forall p p', p1 <= p -> p <= p' -> p' <= p0 ->
                   tropo_weight pt p <= tropo_weight pt p').
Proof.
  intros Hpt p0 p1.
  pose proof (tropo_thresholds pt Hpt) as Hlt; fold p0 p1 in Hlt.
  assert (Hlin : forall p, p1 <= p <= p0 ->
                           tropo_weight pt p = (p - p1) / (p0 - p1)).
  { intros p Hp; now apply tropo_weight_between. }
  repeat split.
  - rewrite Hlin by lra. unfold Rdiv; apply Rinv_r; lra.
  - rewrite Hlin by lra. unfold Rdiv, Rminus; rewrite Rplus_opp_r; ring.
  - exact Hlin.
  - intros p p' H1 H2 H3.
    rewrite !Hlin by lra.
    apply Rmult_le_compat_r; [|lra].
    left; apply Rinv_0_lt_compat; lra.
Qed.

(** ** Mesoscale diffusion: the argument of the square root *)

Lemma meso_radicand_factor ctl dt :
  dt_met ctl <> 0 ->
  meso_radicand ctl dt
  = 4 * (Rabs dt / dt_met ctl) * (1 - Rabs dt / dt_met ctl).
Proof. intros H; unfold meso_radicand, meso_r; field; exact H. Qed.

(** C9: for a particle the module moves ([dt <> 0]) and a meteorological
    interval [dt_met <> 0], the argument [1 - r * r] of the square root,
    with [r = 1 - 2 * |dt| / dt_met], is not negative exactly when
    [|dt| <= dt_met]; under that condition [r] lies in [-1, 1] and
    [r2 = sqrt(1 - r * r)] satisfies [r * r + r2 * r2 = 1]. *)
Theorem C9_meso_radicand (ctl : ctl_t) (dt : R) :
  dt <> 0 -> dt_met ctl <> 0 ->
  (0 <= meso_radicand ctl dt <-> Rabs dt <= dt_met ctl)
  /\ (Rabs dt <= dt_met ctl ->
      - 1 <= meso_r ctl dt <= 1
      /\ meso_r ctl dt * meso_r ctl dt
         + sqrt (meso_radicand ctl dt) * sqrt (meso_radicand ctl dt) = 1).
Proof.
  intros Hdt Hmet.
  assert (Ha : 0 < Rabs dt) by now apply Rabs_pos_lt.
  assert (Hiff : 0 <= meso_radicand ctl dt <-> Rabs dt <= dt_met ctl).
  { rewrite meso_radicand_factor by exact Hmet.
    destruct (Rlt_dec 0 (dt_met ctl)) as [Hpos|Hneg].
    - assert (Hq : 0 < Rabs dt / dt_met ctl)
        by (apply Rmult_lt_0_compat; [exact Ha | now apply Rinv_0_lt_compat]).
      split.
      + intros H.
        assert (Hle : Rabs dt / dt_met ctl <= 1) by nra.
        apply (Rmult_le_compat_r (dt_met ctl)) in Hle; [|lra].
        unfold Rdiv in Hle; rewrite Rmult_assoc, Rinv_l in Hle by lra; lra.
      + intros H.
        assert (Hle : Rabs dt / dt_met ctl <= 1).
        { apply (Rmult_le_reg_r (dt_met ctl)); [exact Hpos|].
          unfold Rdiv; rewrite Rmult_assoc, Rinv_l by lra; lra. }
        nra.
    - assert (Hlt : dt_met ctl < 0) by lra.
      assert (Hq : Rabs dt / dt_met ctl < 0).
      { assert (Hi : / dt_met ctl < 0) by now apply Rinv_lt_0_compat.
        unfold Rdiv; nra. }
      split; intros H; [exfalso; nra | exfalso; lra]. }
  split; [exact Hiff|].
  intros Hle.
  assert (Hrad : 0 <= meso_radicand ctl dt) by now apply Hiff.
  split.
  - unfold meso_radicand in Hrad; nra.
  - rewrite sqrt_sqrt by exact Hrad. unfold meso_radicand; ring.
Qed.

(** ** Particles a module does not move *)

Lemma advection_ip_other met0 met1 dt ip j a :
  j <> ip -> same_particle j a (advection_ip met0 met1 dt ip a).
Proof. intros Hne; unfold advection_ip; frame_go Hne. Qed.

Lemma decay_ip_other ctl dt ip j a :
  j <> ip -> same_particle j a (decay_ip ctl dt ip a).
Proof. intros Hne; unfold decay_ip; frame_go Hne. Qed.

Lemma diffusion_turb_ip_other ctl dt rs ip j a :
  j <> ip -> same_particle j a (diffusion_turb_ip ctl dt rs ip a).
Proof. intros Hne; unfold diffusion_turb_ip; frame_go Hne. Qed.

Lemma meso_cache_same met0 met1 ix iy iz j a :
  same_particle j a (meso_cache met0 met1 ix iy iz a).
Proof.
  assert (Hne : True) by exact I.
  unfold meso_cache; frame_go Hne.
Qed.

Lemma diffusion_meso_ip_other ctl met0 met1 dt rs ip j a :
  j <> ip -> same_particle j a (diffusion_meso_ip ctl met0 met1 dt rs ip a).
Proof.
  intros Hne; unfold diffusion_meso_ip.
  destruct (Rneqb (dt ip) 0); [|apply same_particle_refl].
  cbv zeta.
  set (ix := locate_reg _ _ _); set (iy := locate_reg _ _ _);
    set (iz := locate_irr _ _ _).
  apply (same_particle_trans j a (meso_cache met0 met1 ix iy iz a));
    [apply meso_cache_same|].
  generalize (meso_cache met0 met1 ix iy iz a); intros a1.
  generalize (sqrt (meso_radicand ctl (dt ip))); intros r2.
  frame_go Hne.
Qed.

Lemma sedi_ip_other ctl met0 met1 dt ip j a :
  j <> ip -> same_particle j a (sedi_ip ctl met0 met1 dt ip a).
Proof. intros Hne; unfold sedi_ip; frame_go Hne. Qed.

Lemma isosurf_ip_other ctl met0 met1 ip j a :
  j <> ip -> same_particle j a (isosurf_ip ctl met0 met1 ip a).
Proof. intros Hne; unfold isosurf_ip; frame_go Hne. Qed.

(** ** Position: the loops end and the coordinates are in range *)

Lemma FMOD_360 x : - 360 < FMOD x 360 < 360.
Proof.
  unfold FMOD, int_cast.
  assert (Hx : x = x / 360 * 360) by (field).
  destruct (Rleb_spec 0 (x / 360)) as [Hq|Hq].
  - pose proof (Zfloor_bound (x / 360)) as [B1 B2]. lra.
  - pose proof (Zceil_bound (x / 360)) as [B1 B2]. lra.
Qed.

Lemma lat_cond_false ip a :
  - 90 <= atm_lat a ip <= 90 -> lat_cond ip a = false.
Proof.
  intros H; unfold lat_cond.
  destruct (Rltb_spec (atm_lat a ip) (- 90)); [lra|].
  destruct (Rgtb_spec (atm_lat a ip) 90); [lra|reflexivity].
Qed.

Lemma lat_cond_true ip a :
  atm_lat a ip < - 90 \/ 90 < atm_lat a ip -> lat_cond ip a = true.
Proof.
  intros H; unfold lat_cond.
  destruct (Rltb_spec (atm_lat a ip) (- 90)); [reflexivity|].
  destruct (Rgtb_spec (atm_lat a ip) 90); [reflexivity|lra].
Qed.

(** One run of the body of the latitude loop. *)
Lemma lat_body_north ip a :
  90 < atm_lat a ip <= 270 ->
  atm_lat (lat_body ip a) ip = 180 - atm_lat a ip
  /\ atm_lon (lat_body ip a) ip = atm_lon a ip + 180.
Proof.
  intros H; unfold lat_body.
  destruct (Rgtb_spec (atm_lat a ip) 90); [|lra].
  cbv zeta; atm_simpl.
  destruct (Rltb_spec (180 - atm_lat a ip) (- 90)); [lra|].
  atm_simpl; split; reflexivity.
Qed.

Lemma lat_body_north_twice ip a :
  270 < atm_lat a ip ->
  atm_lat (lat_body ip a) ip = atm_lat a ip - 360
  /\ atm_lon (lat_body ip a) ip = atm_lon a ip + 180 + 180.
Proof.
  intros H; unfold lat_body.
  destruct (Rgtb_spec (atm_lat a ip) 90); [|lra].
  cbv zeta; atm_simpl.
  destruct (Rltb_spec (180 - atm_lat a ip) (- 90)); [|lra].
  atm_simpl; split; [lra|reflexivity].
Qed.

Lemma lat_body_south ip a :
  atm_lat a ip < - 90 ->
  atm_lat (lat_body ip a) ip = - 180 - atm_lat a ip
  /\ atm_lon (lat_body ip a) ip = atm_lon a ip + 180.
Proof.
  intros H; unfold lat_body.
  destruct (Rgtb_spec (atm_lat a ip) 90); [lra|].
  destruct (Rltb_spec (atm_lat a ip) (- 90)); [|lra].
  cbv zeta; atm_simpl; split; reflexivity.
Qed.

Lemma reflected_lon lat lon lat' lon' :
  reflected lat lon lat' lon' -> lon <= lon' <= lon + 360.
Proof. unfold reflected; intros H; lra. Qed.

(** The latitude loop ends within two iterations when it starts between
    -360 and 360. *)
Lemma lat_loop_ends ip a fuel :
  (2 <= fuel)%nat ->
  - 360 < atm_lat a ip < 360 ->
  exists a' k,
    while_loop fuel (lat_cond ip) (lat_body ip) a = Some a'
    /\ while_count fuel (lat_cond ip) (lat_body ip) a = Some k
    /\ (k <= 2)%nat
    /\ - 90 <= atm_lat a' ip <= 90
    /\ reflected (atm_lat a ip) (atm_lon a ip) (atm_lat a' ip) (atm_lon a' ip).
Proof.
  intros Hfuel Hlat; unfold reflected.
  destruct fuel as [|[|f]]; try lia.
  destruct (Rle_dec (atm_lat a ip) 90) as [Hle|Hgt].
  - destruct (Rle_dec (- 90) (atm_lat a ip)) as [Hge|Hlt].
    + (* already within the range *)
      exists a, 0%nat.
      rewrite while_loop_false, while_count_false by (apply lat_cond_false; lra).
      repeat split; try lra; try lia; tauto.
    + (* south of -90 *)
      destruct (lat_body_south ip a) as [El Eo]; [lra|].
      rewrite while_loop_true, while_count_true by (apply lat_cond_true; lra).
      destruct (Rle_dec (- 180 - atm_lat a ip) 90) as [H1|H1].
      * exists (lat_body ip a), 1%nat.
        rewrite while_loop_false, while_count_false
          by (apply lat_cond_false; rewrite El; lra).
        rewrite El, Eo; repeat split; try lra; simpl; try lia;
        (right; left; split; lra) || (right; right; left; split; lra)
        || (right; right; right; left; split; lra).
      * (* the reflection overshoots the north pole *)
        destruct (lat_body_north ip (lat_body ip a)) as [El2 Eo2];
          [rewrite El; lra|].
        rewrite while_loop_true, while_count_true
          by (apply lat_cond_true; rewrite El; lra).
        exists (lat_body ip (lat_body ip a)), 2%nat.
        rewrite while_loop_false, while_count_false
          by (apply lat_cond_false; rewrite El2, El; lra).
        rewrite El2, Eo2, El, Eo; repeat split; try lra; simpl; try lia;
          right; right; right; right; split; lra.
  - (* north of 90 *)
    rewrite while_loop_true, while_count_true by (apply lat_cond_true; lra).
    exists (lat_body ip a), 1%nat.
    destruct (Rle_dec (atm_lat a ip) 270) as [H1|H1].
    + destruct (lat_body_north ip a) as [El Eo]; [lra|].
      rewrite while_loop_false, while_count_false
        by (apply lat_cond_false; rewrite El; lra).
      rewrite El, Eo; repeat split; try lra; simpl; try lia;
        (right; left; split; lra) || (right; right; left; split; lra)
        || (right; right; right; left; split; lra).
    + destruct (lat_body_north_twice ip a) as [El Eo]; [lra|].
      rewrite while_loop_false, while_count_false
        by (apply lat_cond_false; rewrite El; lra).
      rewrite El, Eo; repeat split; try lra; simpl; try lia;
        (right; left; split; lra) || (right; right; left; split; lra)
        || (right; right; right; left; split; lra).
Qed.

(** The two longitude loops. *)
Lemma lon_up_ends ip a fuel :
  (1 <= fuel)%nat ->
  - 360 < atm_lon a ip < 720 ->
  exists a',
    while_loop fuel (fun a => Rltb (atm_lon a ip) (- 180))
      (fun a => wr_lon ip (atm_lon a ip + 360) a) a = Some a'
    /\ - 180 <= atm_lon a' ip < 720.
Proof.
  intros Hfuel Hlon.
  destruct fuel as [|f]; try lia.
  destruct (Rlt_dec (atm_lon a ip) (- 180)) as [Hlt|Hge].
  - rewrite while_loop_true by (destruct (Rltb_spec (atm_lon a ip) (- 180)); [reflexivity|lra]).
    exists (wr_lon ip (atm_lon a ip + 360) a).
    rewrite while_loop_false.
    + atm_simpl; split; [reflexivity|lra].
    + atm_simpl.
      destruct (Rltb_spec (atm_lon a ip + 360) (- 180)); [lra|reflexivity].
  - exists a; rewrite while_loop_false.
    + split; [reflexivity|lra].
    + destruct (Rltb_spec (atm_lon a ip) (- 180)); [lra|reflexivity].
Qed.

Lemma lon_down_ends ip a fuel :
  (2 <= fuel)%nat ->
  - 180 <= atm_lon a ip < 720 ->
  exists a',
    while_loop fuel (fun a => Rgeb (atm_lon a ip) 180)
      (fun a => wr_lon ip (atm_lon a ip - 360) a) a = Some a'
    /\ - 180 <= atm_lon a' ip < 180.
Proof.
  intros Hfuel Hlon.
  destruct fuel as [|[|f]]; try lia.
  destruct (Rlt_dec (atm_lon a ip) 180) as [Hlt|Hge].
  - exists a; rewrite while_loop_false.
    + split; [reflexivity|lra].
    + destruct (Rgeb_spec (atm_lon a ip) 180); [lra|reflexivity].
  - rewrite while_loop_true
      by (destruct (Rgeb_spec (atm_lon a ip) 180); [reflexivity|lra]).
    destruct (Rlt_dec (atm_lon a ip - 360) 180) as [H1|H1].
    + exists (wr_lon ip (atm_lon a ip - 360) a).
      rewrite while_loop_false.
      * atm_simpl; split; [reflexivity|lra].
      * atm_simpl.
        destruct (Rgeb_spec (atm_lon a ip - 360) 180); [lra|reflexivity].
    + rewrite while_loop_true
        by (atm_simpl;
            destruct (Rgeb_spec (atm_lon a ip - 360) 180); [reflexivity|lra]).
      exists (wr_lon ip (atm_lon (wr_lon ip (atm_lon a ip - 360) a) ip - 360)
                (wr_lon ip (atm_lon a ip - 360) a)).
      rewrite while_loop_false.
      * atm_simpl; split; [reflexivity|lra].
      * atm_simpl.
        destruct (Rgeb_spec (atm_lon a ip - 360 - 360) 180); [lra|reflexivity].
Qed.

Lemma lon_loop_keeps_lat ip fuel cond v a a' :
  while_loop fuel cond (fun a => wr_lon ip (v a) a) a = Some a' ->
  atm_lat a' ip = atm_lat a ip.
Proof.
  intros H.
  apply (while_loop_inv (fun x => atm_lat x ip = atm_lat a ip)) in H;
    [tauto | reflexivity |].
  intros s _ Hs; atm_simpl; exact Hs.
Qed.

Lemma position_modulo_range ip a :
  - 360 < atm_lon (position_modulo ip a) ip < 360
  /\ - 360 < atm_lat (position_modulo ip a) ip < 360.
Proof.
  unfold position_modulo; cbv zeta; atm_simpl; split; apply FMOD_360.
Qed.

(** Modulo and the three loops: they end, with the coordinates in range. *)
Lemma position_lonlat_ends ip a fuel :
  (2 <= fuel)%nat ->
  exists a',
    position_lonlat fuel ip a = Some a'
    /\ - 180 <= atm_lon a' ip < 180
    /\ - 90 <= atm_lat a' ip <= 90.
Proof.
  intros Hfuel; unfold position_lonlat; cbv zeta.
  destruct (position_modulo_range ip a) as [Hlon1 Hlat1].
  set (a1 := position_modulo ip a) in *.
  destruct (lat_loop_ends ip a1 fuel Hfuel Hlat1)
    as (a2 & k & E2 & _ & _ & Hlat2 & Hlon2).
  rewrite E2; cbn [obind].
  destruct (lon_up_ends ip a2 fuel) as (a3 & E3 & Hlon3);
    [lia | apply reflected_lon in Hlon2; lra |].
  rewrite E3; cbn [obind].
  destruct (lon_down_ends ip a3 fuel Hfuel Hlon3) as (a4 & E4 & Hlon4).
  exists a4; split; [exact E4|]; split; [exact Hlon4|].
  apply lon_loop_keeps_lat in E3, E4.
  rewrite E4, E3; exact Hlat2.
Qed.

Lemma position_pressure_lonlat met0 met1 ip a :
  atm_lon (position_pressure met0 met1 ip a) ip = atm_lon a ip
  /\ atm_lat (position_pressure met0 met1 ip a) ip = atm_lat a ip.
Proof.
  unfold position_pressure.
  repeat match goal with
         | |- context [if ?b then _ else _] => destruct b
         end; cbv zeta; atm_simpl; split; reflexivity.
Qed.

Lemma position_ip_skip fuel met0 met1 dt ip a :
  dt ip = 0 -> position_ip fuel met0 met1 dt ip a = Some a.
Proof. intros H; unfold position_ip; now rewrite H, Rneqb_refl. Qed.

Lemma position_ip_ends fuel met0 met1 dt ip a :
  (2 <= fuel)%nat ->
  exists a',
    position_ip fuel met0 met1 dt ip a = Some a'
    /\ (dt ip <> 0 ->
        - 180 <= atm_lon a' ip < 180 /\ - 90 <= atm_lat a' ip <= 90).
Proof.
  intros Hfuel; unfold position_ip.
  destruct (Rneqb_spec (dt ip) 0) as [Hne|He].
  - destruct (position_lonlat_ends ip a fuel Hfuel) as (a1 & E & Hlon & Hlat).
    rewrite E; cbn [obind].
    eexists; split; [reflexivity|]; intros _.
    destruct (position_pressure_lonlat met0 met1 ip a1) as [-> ->].
    now split.
  - exists a; split; [reflexivity|]; intros Hne; contradiction.
Qed.

(** The position body at [ip] leaves another particle as it is. *)
Lemma lat_body_other ip j a : j <> ip -> same_particle j a (lat_body ip a).
Proof. intros Hne; unfold lat_body; frame_go Hne. Qed.

Lemma position_pressure_other met0 met1 ip j a :
  j <> ip -> same_particle j a (position_pressure met0 met1 ip a).
Proof. intros Hne; unfold position_pressure; frame_go Hne. Qed.

Lemma while_loop_same j fuel cond body a a' :
  (forall a, same_particle j a (body a)) ->
  while_loop fuel cond body a = Some a' -> same_particle j a a'.
Proof.
  intros Hb H.
  apply (while_loop_inv (same_particle j a)) in H;
    [tauto | apply same_particle_refl |].
  intros s _ Hs; eapply same_particle_trans; [exact Hs | apply Hb].
Qed.

Lemma position_lonlat_other fuel ip j a a' :
  j <> ip -> position_lonlat fuel ip a = Some a' -> same_particle j a a'.
Proof.
  intros Hne; unfold position_lonlat; cbv zeta.
  assert (H1 : same_particle j a (position_modulo ip a))
    by (unfold position_modulo; frame_go Hne).
  set (a1 := position_modulo ip a) in *.
  destruct (while_loop fuel (lat_cond ip) (lat_body ip) a1) as [a2|] eqn:E2;
    cbn [obind]; [|discriminate].
  destruct (while_loop fuel _ _ a2) as [a3|] eqn:E3; cbn [obind];
    [|discriminate].
  intros E4.
  apply (while_loop_same j) in E2; [|intros x; now apply lat_body_other].
  apply (while_loop_same j) in E3; [|intros x; now apply same_wr_lon].
  apply (while_loop_same j) in E4; [|intros x; now apply same_wr_lon].
  eauto using same_particle_trans.
Qed.

Lemma position_ip_other fuel met0 met1 dt ip j a a' :
  j <> ip -> position_ip fuel met0 met1 dt ip a = Some a' ->
  same_particle j a a'.
Proof.
  intros Hne; unfold position_ip.
  destruct (Rneqb (dt ip) 0); [|intros [= <-]; apply same_particle_refl].
  destruct (position_lonlat fuel ip a) as [a1|] eqn:E; cbn [obind];
    [|discriminate].
  intros [= <-].
  eapply same_particle_trans;
    [eapply position_lonlat_other; eassumption
    | now apply position_pressure_other].
Qed.


(** ** The modules on the whole ensemble *)

(** A module whose body skips particle [j] leaves it as it is. *)
Lemma module_frame (body : Z -> atm_t -> atm_t) n atm j :
  (forall ip a, ip <> j -> same_particle j a (body ip a)) ->
  (forall a, body j a = a) ->
  same_particle j atm (for_loop n body atm).
Proof.
  intros Hother Hskip.
  apply for_loop_inv; [apply same_particle_refl|].
  intros ip s _ Hs.
  destruct (Z.eq_dec ip j) as [->|Hne].
  - now rewrite Hskip.
  - eapply same_particle_trans; [exact Hs | now apply Hother].
Qed.

Lemma module_position_ends fuel met0 met1 atm dt :
  (2 <= fuel)%nat ->
  exists atm', module_position fuel met0 met1 atm dt = Some atm'.
Proof.
  intros Hfuel; unfold module_position.
  destruct (for_loop_opt_total (fun _ => True) (atm_np atm)
              (position_ip fuel met0 met1 dt) atm I) as (a' & E & _).
  - intros ip s _ _.
    destruct (position_ip_ends fuel met0 met1 dt ip s Hfuel) as (s' & Es & _).
    now exists s'.
  - now exists a'.
Qed.

(** C2: a particle whose time increment is 0 in a step keeps its time,
    longitude, latitude, pressure, quantities and fluctuation components
    through advection, turbulent diffusion, mesoscale diffusion,
    sedimentation, decay and the position check (which ends when its
    loops may run twice). *)
Theorem C2_zero_dt_frame (fuel : nat) (ctl : ctl_t) (met0 met1 : met_t)
  (atm : atm_t) (dt rs : Z -> R) (j : Z) :
  (2 <= fuel)%nat ->
  dt j = 0 ->
  same_particle j atm (module_advection met0 met1 atm dt)
  /\ same_particle j atm (module_diffusion_turb ctl atm dt rs)
  /\ same_particle j atm (module_diffusion_meso ctl met0 met1 atm dt rs)
  /\ same_particle j atm (module_sedi ctl met0 met1 atm dt)
  /\ same_particle j atm (module_decay ctl atm dt)
  /\ exists atm', module_position fuel met0 met1 atm dt = Some atm'
                  /\ same_particle j atm atm'.
Proof.
  intros Hfuel Hdt.
  assert (Hadv : same_particle j atm (module_advection met0 met1 atm dt)).
  { apply module_frame.
    - intros ip a Hne; apply advection_ip_other; auto.
    - intros a; unfold advection_ip; now rewrite Hdt, Rneqb_refl. }
  assert (Hturb : same_particle j atm (module_diffusion_turb ctl atm dt rs)).
  { apply module_frame.
    - intros ip a Hne; apply diffusion_turb_ip_other; auto.
    - intros a; unfold diffusion_turb_ip; now rewrite Hdt, Rneqb_refl. }
  assert (Hmeso : same_particle j atm
                    (module_diffusion_meso ctl met0 met1 atm dt rs)).
  { apply module_frame.
    - intros ip a Hne; apply diffusion_meso_ip_other; auto.
    - intros a; unfold diffusion_meso_ip; now rewrite Hdt, Rneqb_refl. }
  assert (Hsedi : same_particle j atm (module_sedi ctl met0 met1 atm dt)).
  { apply module_frame.
    - intros ip a Hne; apply sedi_ip_other; auto.
    - intros a; unfold sedi_ip; now rewrite Hdt, Rneqb_refl. }
  assert (Hdecay : same_particle j atm (module_decay ctl atm dt)).
  { apply module_frame.
    - intros ip a Hne; apply decay_ip_other; auto.
    - intros a; unfold decay_ip; now rewrite Hdt, Rneqb_refl. }
  refine (conj Hadv (conj Hturb (conj Hmeso (conj Hsedi (conj Hdecay _))))).
  destruct (module_position_ends fuel met0 met1 atm dt Hfuel) as (atm' & E).
  exists atm'; split; [exact E|].
  unfold module_position in E.
  apply (for_loop_opt_inv (same_particle j atm)) in E;
    [exact E | apply same_particle_refl |].
  intros ip s s' _ Hs Es.
  destruct (Z.eq_dec ip j) as [->|Hne].
  - rewrite position_ip_skip in Es by exact Hdt. now injection Es as <-.
  - eapply same_particle_trans; [exact Hs|].
    eapply position_ip_other; [|exact Es]; auto.
Qed.

(** C3 (amended): after the position check every particle that is moved
    in the step ([dt <> 0]) has [-180 <= lon < 180] and [-90 <= lat <= 90],
    whatever its longitude and latitude were; the check ends when its
    loops may run twice. *)
Theorem C3_position_range (fuel : nat) (met0 met1 : met_t) (atm : atm_t)
  (dt : Z -> R) (ip : Z) :
  (2 <= fuel)%nat ->
  (0 <= ip < atm_np atm)%Z ->
  dt ip <> 0 ->
  exists atm',
    module_position fuel met0 met1 atm dt = Some atm'
    /\ - 180 <= atm_lon atm' ip < 180
    /\ - 90 <= atm_lat atm' ip <= 90.
Proof.
  intros Hfuel Hip Hdt.
  destruct (module_position_ends fuel met0 met1 atm dt Hfuel) as (atm' & E).
  exists atm'; split; [exact E|].
  unfold module_position in E.
  apply (for_loop_opt_local (same_particle ip)) with (j := ip) in E;
    [ | apply same_particle_refl | apply same_particle_trans | exact Hip | ].
  - destruct E as (a1 & a2 & _ & E2 & H2).
    destruct (position_ip_ends fuel met0 met1 dt ip a1 Hfuel) as (a2' & E2' & Hb).
    rewrite E2 in E2'; injection E2' as <-.
    destruct (Hb Hdt) as [Hlon Hlat].
    destruct H2 as (_ & -> & -> & _). now split.
  - intros i a a1 Hne Ei. eapply position_ip_other; [|exact Ei]; auto.
Qed.

(** C10: after the modulo the latitude lies strictly between -360 and 360,
    and from there the latitude loop ends after at most two iterations
    with the latitude in [-90, 90]; the particle has then been reflected
    at most twice, each reflection mapping the latitude to [180 - lat] or
    to [-180 - lat] and adding 180 to the longitude. *)
Theorem C10_latitude_loop_ends (fuel : nat) (ip : Z) (atm : atm_t) :
  let atm1 := position_modulo ip atm in
  - 360 < atm_lat atm1 ip < 360
  /\ exists atm2 k,
       while_loop (2 + fuel) (lat_cond ip) (lat_body ip) atm1 = Some atm2
       /\ while_count (2 + fuel) (lat_cond ip) (lat_body ip) atm1 = Some k
       /\ (k <= 2)%nat
       /\ - 90 <= atm_lat atm2 ip <= 90
       /\ reflected (atm_lat atm1 ip) (atm_lon atm1 ip)
                    (atm_lat atm2 ip) (atm_lon atm2 ip).
Proof.
  intros atm1.
  destruct (position_modulo_range ip atm) as [_ Hlat].
  split; [exact Hlat|].
  apply lat_loop_ends; [lia | exact Hlat].
Qed.

(** ** Decay *)

Lemma exp_le_1 x : x <= 0 -> 0 < exp x <= 1.
Proof.
  intros Hx; split; [apply exp_pos|].
  destruct Hx as [Hlt| ->]; [|rewrite exp_0; lra].
  left; rewrite <- exp_0; now apply exp_increasing.
Qed.

Lemma decay_tdec_pos ctl atm ip :
  0 < tdec_trop ctl -> 0 < tdec_strat ctl ->
  clim_tropo (atm_time atm ip) (atm_lat atm ip) <> 0 ->
  0 < decay_tdec ctl atm ip.
Proof.
  intros Ht Hs Hpt; unfold decay_tdec; cbv zeta.
  pose proof (tropo_weight_range _ (atm_p atm ip) Hpt) as Hw.
  nra.
Qed.

Lemma decay_tdec_same ctl a a' ip :
  same_particle ip a a' -> decay_tdec ctl a' ip = decay_tdec ctl a ip.
Proof.
  intros (Ht & _ & Hlat & Hp & _); unfold decay_tdec.
  now rewrite Ht, Hlat, Hp.
Qed.

(** The mass of a particle after [module_decay]. *)
Lemma module_decay_mass ctl atm dt ip :
  (0 <= ip < atm_np atm)%Z ->
  atm_q (module_decay ctl atm dt) (qnt_m ctl) ip
  = if Rneqb (dt ip) 0
    then atm_q atm (qnt_m ctl) ip * exp (- dt ip / decay_tdec ctl atm ip)
    else atm_q atm (qnt_m ctl) ip.
Proof.
  intros Hip; unfold module_decay.
  destruct (for_loop_local (same_particle ip) (same_particle_refl ip)
              (same_particle_trans ip) (atm_np atm) (decay_ip ctl dt) atm ip Hip)
    as (a1 & H1 & H2).
  { intros i a Hne; apply decay_ip_other; auto. }
  destruct H2 as (_ & _ & _ & _ & Hq & _); rewrite Hq.
  unfold decay_ip.
  destruct (Rneqb (dt ip) 0).
  - cbv zeta; atm_simpl.
    rewrite (decay_tdec_same ctl atm a1 ip H1).
    destruct H1 as (_ & _ & _ & _ & Hq1 & _); now rewrite Hq1.
  - destruct H1 as (_ & _ & _ & _ & Hq1 & _); now rewrite Hq1.
Qed.

(** C7 (amended): for a particle with [dt >= 0] and positive lifetimes
    (at a tropopause pressure other than 0, where the weight is defined),
    [module_decay] does not increase the magnitude of the mass:
    [|mass_after| <= |mass_before|]; a mass that is not negative does not
    increase and stays not negative. *)
Theorem C7_decay_not_increasing (ctl : ctl_t) (atm : atm_t) (dt : Z -> R)
  (ip : Z) :
  (0 <= ip < atm_np atm)%Z ->
  0 <= dt ip ->
  0 < tdec_trop ctl -> 0 < tdec_strat ctl ->
  clim_tropo (atm_time atm ip) (atm_lat atm ip) <> 0 ->
  let mass_before := atm_q atm (qnt_m ctl) ip in
  let mass_after := atm_q (module_decay ctl atm dt) (qnt_m ctl) ip in
  Rabs mass_after <= Rabs mass_before
  /\ (0 <= mass_before -> 0 <= mass_after <= mass_before).
Proof.
  intros Hip Hdt Ht Hs Hpt mass_before mass_after.
  unfold mass_after; rewrite module_decay_mass by exact Hip.
  fold mass_before.
  destruct (Rneqb (dt ip) 0); [|split; [lra | intros; lra]].
  pose proof (decay_tdec_pos ctl atm ip Ht Hs Hpt) as Htd.
  assert (Hx : - dt ip / decay_tdec ctl atm ip <= 0).
  { unfold Rdiv.
    assert (Hi : 0 < / decay_tdec ctl atm ip) by now apply Rinv_0_lt_compat.
    nra. }
  destruct (exp_le_1 _ Hx) as [He0 He1].
  set (e := exp _) in *.
  split.
  - rewrite Rabs_mult, (Rabs_pos_eq e) by lra.
    pose proof (Rabs_pos mass_before). nra.
  - intros Hm; nra.
Qed.

(** ** Isosurface *)

Lemma same_iso_refl j a : same_iso j a a.
Proof. unfold same_iso; repeat split; reflexivity. Qed.

Lemma same_iso_trans j a b c :
  same_iso j a b -> same_iso j b c -> same_iso j a c.
Proof.
  unfold same_iso.
  intros (H1 & H2 & H3 & H4 & H5) (K1 & K2 & K3 & K4 & K5).
  repeat split; congruence.
Qed.

Lemma same_state_refl j a : same_state j a a.
Proof. split; [apply same_particle_refl | apply same_iso_refl]. Qed.

Lemma same_state_trans j a b c :
  same_state j a b -> same_state j b c -> same_state j a c.
Proof.
  intros [H1 H2] [K1 K2]; split;
    [eapply same_particle_trans | eapply same_iso_trans]; eassumption.
Qed.

Lemma same_iso_wr_p j ip v a : same_iso j a (wr_p ip v a).
Proof. unfold same_iso; atm_simpl; repeat split; reflexivity. Qed.

Lemma same_iso_wr_iso_var j ip v a :
  j <> ip -> same_iso j a (wr_iso_var ip v a).
Proof.
  intros Hne; unfold same_iso; atm_simpl.
  rewrite upd_other by exact Hne; repeat split; reflexivity.
Qed.

Lemma isosurf_ip_state ctl met0 met1 ip j a :
  j <> ip -> same_state j a (isosurf_ip ctl met0 met1 ip a).
Proof.
  intros Hne; split; [now apply isosurf_ip_other|].
  unfold isosurf_ip.
  repeat match goal with
         | |- context [if ?b then _ else _] => destruct b
         end; cbv zeta; try apply same_iso_wr_p; apply same_iso_refl.
Qed.

(** The pressure [module_isosurf] gives a particle is the one its body
    computes from the state before the module. *)
Lemma isosurf_ip_p_same ctl met0 met1 ip a a' :
  same_state ip a a' ->
  atm_p (isosurf_ip ctl met0 met1 ip a') ip
  = atm_p (isosurf_ip ctl met0 met1 ip a) ip.
Proof.
  intros ((Ht & Hlon & Hlat & Hp & _) & (Hv & Hts & Hps & Hn & _)).
  unfold isosurf_ip, balloon_pressure.
  rewrite Ht, Hlon, Hlat, Hp, Hv, Hts, Hps, Hn.
  repeat match goal with
         | |- context [if (?x =? ?y)%Z then _ else _] => destruct (x =? y)%Z
         end; cbv zeta; atm_simpl; try reflexivity.
  exact Hp.
Qed.

Lemma module_isosurf_p ctl met0 met1 atm ip :
  (0 <= ip < atm_np atm)%Z ->
  atm_p (module_isosurf ctl met0 met1 atm) ip
  = atm_p (isosurf_ip ctl met0 met1 ip atm) ip.
Proof.
  intros Hip; unfold module_isosurf.
  destruct (for_loop_local (same_state ip) (same_state_refl ip)
              (same_state_trans ip) (atm_np atm) (isosurf_ip ctl met0 met1)
              atm ip Hip) as (a1 & H1 & H2).
  { intros i a Hne; apply isosurf_ip_state; auto. }
  destruct H2 as ((_ & _ & _ & Hp & _) & _); rewrite Hp.
  now apply isosurf_ip_p_same.
Qed.

(** A loop that saves a value [g] of each particle in [iso_var]. *)
Lemma save_iso_var (g : atm_t -> Z -> R) atm ip :
  (0 <= ip < atm_np atm)%Z ->
  (forall a a', same_particle ip a a' -> g a' ip = g a ip) ->
  let atm1 :=
    for_loop (atm_np atm) (fun ip a => wr_iso_var ip (g a ip) a) atm in
  same_particle ip atm atm1
  /\ atm_iso_var atm1 ip = g atm ip
  /\ atm_np atm1 = atm_np atm.
Proof.
  intros Hip Hg atm1.
  destruct (for_loop_local (same_state ip) (same_state_refl ip)
              (same_state_trans ip) (atm_np atm)
              (fun ip a => wr_iso_var ip (g a ip) a) atm ip Hip)
    as (a1 & [H1 H1i] & [H2 H2i]).
  { intros i a Hne; split;
      [apply same_wr_iso_var | apply same_iso_wr_iso_var; auto]. }
  fold atm1 in H2, H2i.
  split; [|split].
  - eapply same_particle_trans; [exact H1|].
    eapply same_particle_trans; [apply same_wr_iso_var | exact H2].
  - destruct H2i as (Hv & _); rewrite Hv; atm_simpl. now apply Hg.
  - destruct H2i as (_ & _ & _ & _ & Hnp), H1i as (_ & _ & _ & _ & Hnp1).
    rewrite Hnp; atm_simpl; exact Hnp1.
Qed.

(** The formula of mode 3 and its inverse. *)
Lemma THETA_inverse p t :
  0 < p -> 0 < t -> 1000 * pow_d (THETA p t / t) (- 1 / 0.286) = p.
Proof.
  intros Hp Ht; unfold THETA, pow_d.
  replace (t * Rpower (1000 / p) 0.286 / t) with (Rpower (1000 / p) 0.286)
    by (field; lra).
  rewrite Rpower_mult.
  replace (0.286 * (- 1 / 0.286)) with (- (1)) by lra.
  assert (Hq : 0 < 1000 / p) by (apply Rdiv_lt_0_compat; lra).
  rewrite Rpower_Ropp, Rpower_1 by exact Hq.
  field; lra.
Qed.

(** Reading the balloon file leaves the particles as they are. *)
Lemma read_balloon_particles lines : forall atm atm1,
  read_balloon lines atm = Ok atm1 ->
  atm_np atm1 = atm_np atm
  /\ atm_time atm1 = atm_time atm
  /\ atm_p atm1 = atm_p atm.
Proof.
  induction lines as [|l lines IH]; intros atm atm1; simpl.
  - intros [= <-]; repeat split; reflexivity.
  - destruct l as [|t|t p].
    + apply IH.
    + intros H; apply IH in H; exact H.
    + destruct (_ >? NP)%Z; [discriminate|].
      intros H; apply IH in H; exact H.
Qed.

Lemma isosurf_init_particles ctl met0 met1 lines atm atm1 :
  isosurf ctl = 4%Z ->
  module_isosurf_init ctl met0 met1 (Some lines) atm = Ok atm1 ->
  atm_np atm1 = atm_np atm
  /\ atm_time atm1 = atm_time atm
  /\ atm_p atm1 = atm_p atm
  /\ (1 <= atm_iso_n atm1)%Z.
Proof.
  intros Hm; unfold module_isosurf_init; rewrite Hm; cbn [Z.eqb Pos.eqb].
  destruct (read_balloon lines atm) as [a|msg] eqn:E; [|discriminate].
  destruct (atm_iso_n a <? 1)%Z eqn:En; [discriminate|].
  intros [= <-].
  apply read_balloon_particles in E as (H1 & H2 & H3).
  repeat split; try assumption; lia.
Qed.

(** C5: for the isosurface modes 1 to 3 the initialisation succeeds and
    saves the target of the mode for every particle; one enforcement on the
    state it leaves, with the same meteorological fields, sets the pressure
    to the value derived from the saved target.  In mode 1 that is the
    pressure saved at initialisation; in modes 2 and 3 it is again the
    initial pressure when the temperature (and, in mode 3, the pressure) is
    positive.  In mode 4, once the series is read, the enforcement sets the
    pressure to the pressure of the series at the time of the particle. *)
Theorem C5_isosurf_roundtrip (ctl : ctl_t) (met0 met1 : met_t)
  (file : option (list scan_line)) (atm : atm_t) (ip : Z) :
  (0 <= ip < atm_np atm)%Z ->
  (1 <= isosurf ctl <= 4)%Z ->
  ((isosurf ctl <= 3)%Z ->
   exists atm1, module_isosurf_init ctl met0 met1 file atm = Ok atm1)
  /\ forall atm1,
       module_isosurf_init ctl met0 met1 file atm = Ok atm1 ->
       let atm2 := module_isosurf ctl met0 met1 atm1 in
       let t := mv_t (intpol_met_time met0 met1 (atm_time atm ip)
                        (atm_p atm ip) (atm_lon atm ip) (atm_lat atm ip)) in
       (isosurf ctl = 1%Z ->
        atm_iso_var atm1 ip = atm_p atm ip
        /\ atm_p atm2 ip = atm_iso_var atm1 ip
        /\ atm_p atm2 ip = atm_p atm ip)
       /\ (isosurf ctl = 2%Z ->
           atm_iso_var atm1 ip = atm_p atm ip / t
           /\ atm_p atm2 ip = atm_iso_var atm1 ip * t
           /\ (t <> 0 -> atm_p atm2 ip = atm_p atm ip))
       /\ (isosurf ctl = 3%Z ->
           atm_iso_var atm1 ip = THETA (atm_p atm ip) t
           /\ atm_p atm2 ip
              = 1000 * pow_d (atm_iso_var atm1 ip / t) (- 1 / 0.286)
           /\ (0 < t -> 0 < atm_p atm ip -> atm_p atm2 ip = atm_p atm ip))
       /\ (isosurf ctl = 4%Z ->
           atm_p atm2 ip = balloon_pressure atm1 (atm_time atm ip)).
Proof.
  intros Hip Hmode.
  set (temp := fun (a : atm_t) (i : Z) =>
                 mv_t (intpol_met_time met0 met1 (atm_time a i) (atm_p a i)
                         (atm_lon a i) (atm_lat a i))).
  assert (Htemp : forall a a', same_particle ip a a' -> temp a' ip = temp a ip).
  { intros a a' (Ht & Hlon & Hlat & Hp & _); unfold temp.
    now rewrite Ht, Hlon, Hlat, Hp. }
  assert (Hcases : isosurf ctl = 1%Z \/ isosurf ctl = 2%Z
                   \/ isosurf ctl = 3%Z \/ isosurf ctl = 4%Z) by lia.
  destruct Hcases as [Hm|[Hm|[Hm|Hm]]].
  - (* mode 1: pressure *)
    destruct (save_iso_var (fun a i => atm_p a i) atm ip Hip)
      as (Hsame & Hvar & Hnp).
    { intros a a' (_ & _ & _ & Hp & _); exact Hp. }
    set (a1 := for_loop _ _ atm) in *.
    assert (Hinit : module_isosurf_init ctl met0 met1 file atm = Ok a1)
      by (unfold module_isosurf_init; rewrite Hm; reflexivity).
    split; [intros _; now exists a1|].
    intros atm1 E; rewrite Hinit in E; injection E as <-; clearbody a1.
    cbv zeta; rewrite module_isosurf_p by (rewrite Hnp; exact Hip).
    unfold isosurf_ip; rewrite Hm; cbn [Z.eqb Pos.eqb]; atm_simpl.
    split; [|split; [|split]]; intros; try lia.
    split; [exact Hvar | split; [reflexivity | exact Hvar]].
  - (* mode 2: density *)
    destruct (save_iso_var (fun a i => atm_p a i / temp a i) atm ip Hip)
      as (Hsame & Hvar & Hnp).
    { intros a a' Hs; rewrite (Htemp a a' Hs).
      destruct Hs as (_ & _ & _ & Hp & _); now rewrite Hp. }
    set (a1 := for_loop _ _ atm) in *.
    assert (Hinit : module_isosurf_init ctl met0 met1 file atm = Ok a1)
      by (unfold module_isosurf_init; rewrite Hm; reflexivity).
    split; [intros _; now exists a1|].
    intros atm1 E; rewrite Hinit in E; injection E as <-; clearbody a1.
    cbv zeta; rewrite module_isosurf_p by (rewrite Hnp; exact Hip).
    unfold isosurf_ip; rewrite Hm; cbn [Z.eqb Pos.eqb]; cbv zeta; atm_simpl.
    fold (temp a1 ip); fold (temp atm ip).
    rewrite (Htemp atm a1 Hsame).
    split; [|split; [|split]]; intros; try lia.
    split; [exact Hvar | split; [reflexivity|]].
    intros Ht; rewrite Hvar; field; exact Ht.
  - (* mode 3: potential temperature *)
    destruct (save_iso_var (fun a i => THETA (atm_p a i) (temp a i)) atm ip Hip)
      as (Hsame & Hvar & Hnp).
    { intros a a' Hs; rewrite (Htemp a a' Hs).
      destruct Hs as (_ & _ & _ & Hp & _); now rewrite Hp. }
    set (a1 := for_loop _ _ atm) in *.
    assert (Hinit : module_isosurf_init ctl met0 met1 file atm = Ok a1)
      by (unfold module_isosurf_init; rewrite Hm; reflexivity).
    split; [intros _; now exists a1|].
    intros atm1 E; rewrite Hinit in E; injection E as <-; clearbody a1.
    cbv zeta; rewrite module_isosurf_p by (rewrite Hnp; exact Hip).
    unfold isosurf_ip; rewrite Hm; cbn [Z.eqb Pos.eqb]; cbv zeta; atm_simpl.
    fold (temp a1 ip); fold (temp atm ip).
    rewrite (Htemp atm a1 Hsame).
    split; [|split; [|split]]; intros; try lia.
    split; [exact Hvar | split; [reflexivity|]].
    intros Ht Hp; rewrite Hvar; now apply THETA_inverse.
  - (* mode 4: balloon series *)
    split; [intros; lia|].
    intros atm1 E.
    destruct file as [lines|];
      [|unfold module_isosurf_init in E; rewrite Hm in E; discriminate].
    apply isosurf_init_particles in E as (Hnp & Htime & _); [|exact Hm].
    cbv zeta; rewrite module_isosurf_p by (rewrite Hnp; exact Hip).
    unfold isosurf_ip; rewrite Hm; cbn [Z.eqb Pos.eqb]; atm_simpl.
    rewrite Htime.
    split; [|split; [|split]]; intros; try lia.
    reflexivity.
Qed.

(** ** Balloon series (mode 4) *)

Lemma locate_scan_some xx x count : forall i k,
  locate_scan xx x i count = Some k ->
  (i <= k < i + Z.of_nat count)%Z
  /\ brackets (xx k) (xx (k + 1)%Z) x = true.
Proof.
  induction count as [|c IH]; intros i k; simpl; [discriminate|].
  destruct (brackets (xx i) (xx (i + 1)%Z) x) eqn:E.
  - intros [= <-]; split; [lia | exact E].
  - intros H; apply IH in H as [H1 H2]; split; [lia | exact H2].
Qed.

Lemma locate_scan_none xx x count : forall i k,
  locate_scan xx x i count = None ->
  (i <= k < i + Z.of_nat count)%Z ->
  brackets (xx k) (xx (k + 1)%Z) x = false.
Proof.
  induction count as [|c IH]; intros i k; simpl; [lia|].
  destruct (brackets (xx i) (xx (i + 1)%Z) x) eqn:E; [discriminate|].
  intros H Hk.
  destruct (Z.eq_dec k i) as [->|Hne]; [exact E|].
  apply (IH (i + 1)%Z); [exact H | lia].
Qed.

(** On an axis the value lies within, two neighbours bracket it. *)
Lemma bracket_exists xx x count : forall i,
  xx i <= x < xx (i + Z.of_nat count)%Z ->
  exists k, (i <= k < i + Z.of_nat count)%Z /\ xx k <= x < xx (k + 1)%Z.
Proof.
  induction count as [|c IH]; intros i Hx.
  - rewrite Z.add_0_r in Hx; lra.
  - destruct (Rlt_dec x (xx (i + 1)%Z)) as [Hlt|Hge].
    + exists i; split; [lia | lra].
    + destruct (IH (i + 1)%Z) as (k & Hk & Hb).
      * replace (i + 1 + Z.of_nat c)%Z with (i + Z.of_nat (S c))%Z by lia. lra.
      * exists k; split; [lia | exact Hb].
Qed.

Lemma brackets_increasing a b x :
  a < b -> brackets a b x = true -> a <= x < b.
Proof.
  intros Hab; unfold brackets.
  destruct (Rleb_spec a x), (Rltb_spec x b), (Rltb_spec b x), (Rleb_spec x a);
    simpl; intros H; try discriminate; lra.
Qed.

Lemma brackets_true a b x : a <= x < b -> brackets a b x = true.
Proof.
  intros H; unfold brackets.
  destruct (Rleb_spec a x), (Rltb_spec x b); simpl; try reflexivity; lra.
Qed.

(** On an increasing axis [locate_irr] returns the lower index of the
    interval the value lies in. *)
Lemma locate_irr_brackets xx n x :
  (2 <= n)%Z ->
  (forall i, (0 <= i < n - 1)%Z -> xx i < xx (i + 1)%Z) ->
  xx 0%Z <= x < xx (n - 1)%Z ->
  let idx := locate_irr xx n x in
  (0 <= idx < n - 1)%Z /\ xx idx <= x < xx (idx + 1)%Z.
Proof.
  intros Hn Hinc Hx idx; unfold idx, locate_irr.
  assert (Hc : Z.of_nat (Z.to_nat (n - 1)) = (n - 1)%Z) by lia.
  destruct (locate_scan xx x 0 (Z.to_nat (n - 1))) as [k|] eqn:E.
  - apply locate_scan_some in E as [Hk Hb]; rewrite Hc in Hk.
    split; [lia|]. apply brackets_increasing; [apply Hinc; lia | exact Hb].
  - exfalso.
    destruct (bracket_exists xx x (Z.to_nat (n - 1)) 0%Z) as (k & Hk & Hb).
    + rewrite Hc; exact Hx.
    + apply (locate_scan_none _ _ _ _ k) in E; [|exact Hk].
      rewrite brackets_true in E by exact Hb; discriminate.
Qed.

Lemma increasing_steps (ts : Z -> R) n :
  (forall i j, (0 <= i < j)%Z -> (j < n)%Z -> ts i < ts j) ->
  forall i, (0 <= i < n - 1)%Z -> ts i < ts (i + 1)%Z.
Proof. intros H i Hi; apply H; lia. Qed.

(** C6: in mode 4, with a series of at least one sample whose times
    increase, the enforcement sets the pressure of a particle to the
    pressure of the first sample when its time is at or before the first
    sample time, to the pressure of the last sample when its time is at or
    after the last sample time, and otherwise to the linear interpolation
    between the two samples that bracket its time; at the mid time of a
    series of two samples that is the mean of the two pressures. *)
Theorem C6_balloon_series (ctl : ctl_t) (met0 met1 : met_t) (atm : atm_t)
  (ip : Z) :
  isosurf ctl = 4%Z ->
  (0 <= ip < atm_np atm)%Z ->
  (1 <= atm_iso_n atm)%Z ->
  (forall i j, (0 <= i < j)%Z -> (j < atm_iso_n atm)%Z ->
               atm_iso_ts atm i < atm_iso_ts atm j) ->
  let n := atm_iso_n atm in
  let ts := atm_iso_ts atm in
  let ps := atm_iso_ps atm in
  let t := atm_time atm ip in
  let p' := atm_p (module_isosurf ctl met0 met1 atm) ip in
  (t <= ts 0%Z -> p' = ps 0%Z)
  /\ (t >= ts (n - 1)%Z -> p' = ps (n - 1)%Z)
  /\ (ts 0%Z < t < ts (n - 1)%Z ->
      exists idx, (0 <= idx < n - 1)%Z
                  /\ ts idx <= t < ts (idx + 1)%Z
                  /\ p' = LIN (ts idx) (ps idx) (ts (idx + 1)%Z)
                              (ps (idx + 1)%Z) t)
  /\ (n = 2%Z -> t = (ts 0%Z + ts 1%Z) / 2 -> p' = (ps 0%Z + ps 1%Z) / 2).
Proof.
  intros Hmode Hip Hn Hinc n ts ps t p'.
  assert (Hp : p' = balloon_pressure atm t).
  { unfold p'; rewrite module_isosurf_p by exact Hip.
    unfold isosurf_ip; rewrite Hmode; cbn [Z.eqb Pos.eqb]; atm_simpl.
    reflexivity. }
  assert (Hfirst : t <= ts 0%Z -> p' = ps 0%Z).
  { intros Ht; rewrite Hp; unfold balloon_pressure; fold ts ps.
    destruct (Rleb_spec t (ts 0%Z)); [reflexivity | contradiction]. }
  assert (Hmid : ts 0%Z < t < ts (n - 1)%Z ->
                 let idx := locate_irr ts n t in
                 (0 <= idx < n - 1)%Z
                 /\ ts idx <= t < ts (idx + 1)%Z
                 /\ p' = LIN (ts idx) (ps idx) (ts (idx + 1)%Z)
                             (ps (idx + 1)%Z) t).
  { intros Ht idx.
    assert (Hn2 : (2 <= n)%Z).
    { destruct (Z.eq_dec n 1) as [E|E]; [|unfold n in *; lia].
      rewrite E in Ht; simpl in Ht; lra. }
    destruct (locate_irr_brackets ts n t Hn2) as [Hi Hb];
      [now apply increasing_steps | lra |].
    fold idx in Hi, Hb.
    split; [exact Hi|]; split; [exact Hb|].
    rewrite Hp; unfold balloon_pressure; fold ts ps n.
    destruct (Rleb_spec t (ts 0%Z)); [lra|].
    destruct (Rgeb_spec t (ts (n - 1)%Z)); [lra|].
    reflexivity. }
  split; [exact Hfirst|]; split; [|split].
  - intros Ht.
    destruct (Rle_dec t (ts 0%Z)) as [Hle|Hgt].
    + (* at or before the first sample too: the series has one sample *)
      rewrite (Hfirst Hle).
      destruct (Z.eq_dec n 1) as [E|E]; [now rewrite E|].
      exfalso.
      assert (ts 0%Z < ts (n - 1)%Z) by (apply Hinc; unfold n in *; lia).
      lra.
    + rewrite Hp; unfold balloon_pressure; fold ts ps n.
      destruct (Rleb_spec t (ts 0%Z)); [lra|].
      destruct (Rgeb_spec t (ts (n - 1)%Z)); [reflexivity | contradiction].
  - intros Ht; exists (locate_irr ts n t); now apply Hmid.
  - intros En Et.
    assert (H01 : ts 0%Z < ts 1%Z) by (apply Hinc; unfold n in *; lia).
    destruct Hmid as (Hi & _ & Hl).
    { rewrite En; simpl; lra. }
    assert (E0 : locate_irr ts n t = 0%Z) by lia.
    rewrite E0 in Hl; simpl in Hl; rewrite Hl, Et; unfold LIN.
    field; lra.
Qed.

(** ** Diagnostics: the reads of T_STS *)

Lemma q_read_some atm iq ip v :
  q_read atm iq ip = Some v -> (0 <= iq < NQ)%Z /\ (0 <= ip < NP)%Z.
Proof.
  unfold q_read, q_in_bounds.
  destruct (0 <=? iq)%Z eqn:E1, (iq <? NQ)%Z eqn:E2, (0 <=? ip)%Z eqn:E3,
    (ip <? NP)%Z eqn:E4; simpl; try discriminate.
  intros _; lia.
Qed.

Lemma q_in_bounds_true iq ip :
  (0 <= iq < NQ)%Z -> (0 <= ip < NP)%Z -> q_in_bounds iq ip = true.
Proof.
  intros H1 H2; unfold q_in_bounds.
  repeat (apply andb_true_iff; split); lia.
Qed.

Lemma q_read_sentinel atm ip : q_read atm (- 1)%Z ip = None.
Proof. reflexivity. Qed.

Lemma meteo_tsts_some ctl ip atm atm' :
  (qnt_tsts ctl >= 0)%Z ->
  meteo_tsts ctl ip atm = Some atm' ->
  (0 <= qnt_tice ctl < NQ)%Z /\ (0 <= qnt_tnat ctl < NQ)%Z.
Proof.
  intros Hreq; unfold meteo_tsts.
  replace (qnt_tsts ctl >=? 0)%Z with true by (symmetry; lia).
  destruct (q_read atm (qnt_tice ctl) ip) as [a|] eqn:E1; cbn [obind];
    [|discriminate].
  destruct (q_read atm (qnt_tnat ctl) ip) as [b|] eqn:E2; cbn [obind];
    [|discriminate].
  intros _.
  apply q_read_some in E1, E2; tauto.
Qed.

Lemma meteo_tsts_sentinel ctl ip atm :
  (qnt_tsts ctl >= 0)%Z ->
  qnt_tice ctl = (- 1)%Z \/ qnt_tnat ctl = (- 1)%Z ->
  meteo_tsts ctl ip atm = None.
Proof.
  intros Hreq Hs.
  destruct (meteo_tsts ctl ip atm) as [a|] eqn:E; [|reflexivity].
  apply meteo_tsts_some in E; [lia | exact Hreq].
Qed.

Lemma obind_none {A B} (o : option A) (f : A -> option B) :
  (forall a, f a = None) -> obind o f = None.
Proof. intros H; destruct o; simpl; auto. Qed.

Lemma meteo_ip_sentinel ctl met0 met1 ip atm :
  (qnt_tsts ctl >= 0)%Z ->
  qnt_tice ctl = (- 1)%Z \/ qnt_tnat ctl = (- 1)%Z ->
  meteo_ip ctl met0 met1 ip atm = None.
Proof.
  intros Hreq Hs; unfold meteo_ip; cbv zeta.
  repeat (apply obind_none; intros ?).
  now apply meteo_tsts_sentinel.
Qed.

Lemma fold_none {S} (body : Z -> S -> option S) l :
  fold_left (fun o ip => match o with Some s => body ip s | None => None end)
            l None = None.
Proof. induction l; simpl; auto. Qed.

Lemma for_loop_opt_first_none {S} n (body : Z -> S -> option S) s :
  (0 < n)%Z -> body 0%Z s = None -> for_loop_opt n body s = None.
Proof.
  intros Hn Hb; unfold for_loop_opt.
  destruct (Z.to_nat n) as [|k] eqn:E; [lia|].
  simpl; rewrite Hb; apply fold_none.
Qed.

(** C8: when T_STS is requested ([qnt_tsts >= 0]) the diagnostics read the
    quantity rows [qnt_tice] and [qnt_tnat] of the particle whether or not
    these were requested.  The reads are inside the quantity array only if
    both indices are at least 0; when one of them is the index -1 of a
    quantity that was not requested, the read is outside the array, for the
    first particle already.  With all three indices inside the array T_STS
    is the mean of the two values. *)
Theorem C8_tsts_reads (ctl : ctl_t) (met0 met1 : met_t) (atm : atm_t)
  (ip : Z) :
  (qnt_tsts ctl >= 0)%Z ->
  (forall atm', meteo_tsts ctl ip atm = Some atm' ->
                (qnt_tice ctl >= 0)%Z /\ (qnt_tnat ctl >= 0)%Z)
  /\ (qnt_tice ctl = (- 1)%Z \/ qnt_tnat ctl = (- 1)%Z ->
      (q_read atm (qnt_tice ctl) ip = None
       \/ q_read atm (qnt_tnat ctl) ip = None)
      /\ meteo_tsts ctl ip atm = None
      /\ meteo_ip ctl met0 met1 ip atm = None
      /\ ((0 < atm_np atm)%Z -> module_meteo ctl met0 met1 atm = None))
  /\ ((0 <= ip < NP)%Z -> (qnt_tsts ctl < NQ)%Z ->
      (0 <= qnt_tice ctl < NQ)%Z -> (0 <= qnt_tnat ctl < NQ)%Z ->
      meteo_tsts ctl ip atm
      = Some (wr_q (qnt_tsts ctl) ip
                (0.5 * (atm_q atm (qnt_tice ctl) ip
                        + atm_q atm (qnt_tnat ctl) ip)) atm)).
Proof.
  intros Hreq; split; [|split].
  - intros atm' E.
    apply meteo_tsts_some in E; [lia | exact Hreq].
  - intros Hs; split; [|split; [|split]].
    + destruct Hs as [-> | ->]; [left | right]; apply q_read_sentinel.
    + now apply meteo_tsts_sentinel.
    + now apply meteo_ip_sentinel.
    + intros Hnp; unfold module_meteo.
      apply for_loop_opt_first_none; [exact Hnp|].
      now apply meteo_ip_sentinel.
  - intros Hip Hq Hice Hnat; unfold meteo_tsts, q_read, q_write.
    replace (qnt_tsts ctl >=? 0)%Z with true by (symmetry; lia).
    rewrite !q_in_bounds_true by (try assumption; lia).
    reflexivity.
Qed.

(** ** What the modules write *)

Lemma keeps_refl f a : keeps f a a.
Proof. destruct f; simpl; repeat split; reflexivity. Qed.

Lemma keeps_trans f a b c : keeps f a b -> keeps f b c -> keeps f a c.
Proof.
  destruct f; simpl; intros H K; try congruence.
  - destruct H as (H1 & H2 & H3 & H4), K as (K1 & K2 & K3 & K4).
    repeat split; congruence.
  - destruct H as (H1 & H2 & H3 & H4), K as (K1 & K2 & K3 & K4).
    repeat split; congruence.
Qed.

(** A write keeps every field but the one it writes. *)
Ltac keeps_write :=
  unfold keeps, wr_time, wr_lon, wr_lat, wr_p, wr_up, wr_vp, wr_wp, wr_q,
    wr_iso_var;
  cbn [atm_np atm_time atm_lon atm_lat atm_p atm_q atm_up atm_vp atm_wp
       atm_iso_var atm_iso_ts atm_iso_ps atm_iso_n
       atm_cache_time atm_cache_usig atm_cache_vsig atm_cache_wsig
       set_atm_time set_atm_lon set_atm_lat set_atm_p set_atm_q set_atm_up
       set_atm_vp set_atm_wp set_atm_iso_var set_atm_iso_ts set_atm_iso_ps
       set_atm_iso_n set_atm_cache_time set_atm_cache_usig
       set_atm_cache_vsig set_atm_cache_wsig];
  repeat split; reflexivity.

(** Follow a straight-line body statement by statement, for a given
    field. *)
Ltac keeps_go :=
  lazymatch goal with
  | |- keeps ?f ?a ?a => apply keeps_refl
  | |- keeps ?f ?a (if ?b then _ else _) => destruct b; keeps_go
  | |- keeps ?f ?a (let x := ?e in @?g x) =>
      lazymatch type of e with
      | atm_t =>
          apply (keeps_trans f a e);
          [ keeps_go
          | let y := fresh "atm" in
            change (keeps f e (g e));
            generalize e; intro y; cbv beta; keeps_go ]
      | _ =>
          let y := fresh "v" in
          change (keeps f a (g e));
          generalize e; intro y; cbv beta; keeps_go
      end
  | |- keeps ?f ?a (?w ?e) =>
      apply (keeps_trans f a e); [keeps_go | solve [keeps_write]]
  end.

Lemma for_loop_keeps f n (body : Z -> atm_t -> atm_t) atm :
  (forall ip a, keeps f a (body ip a)) -> keeps f atm (for_loop n body atm).
Proof.
  intros Hb; apply for_loop_inv; [apply keeps_refl|].
  intros ip s _ Hs; eapply keeps_trans; [exact Hs | apply Hb].
Qed.

Lemma for_loop_opt_keeps f n (body : Z -> atm_t -> option atm_t) atm atm' :
  (forall ip a a', body ip a = Some a' -> keeps f a a') ->
  for_loop_opt n body atm = Some atm' -> keeps f atm atm'.
Proof.
  intros Hb; apply for_loop_opt_inv; [apply keeps_refl|].
  intros ip s s' _ Hs Es; eapply keeps_trans; [exact Hs | eapply Hb; exact Es].
Qed.

Lemma while_loop_keeps f fuel cond body a a' :
  (forall a, keeps f a (body a)) ->
  while_loop fuel cond body a = Some a' -> keeps f a a'.
Proof.
  intros Hb H.
  apply (while_loop_inv (keeps f a)) in H; [tauto | apply keeps_refl |].
  intros s _ Hs; eapply keeps_trans; [exact Hs | apply Hb].
Qed.

Lemma advection_ip_keeps f met0 met1 dt ip a :
  f <> F_time -> f <> F_lon -> f <> F_lat -> f <> F_p ->
  keeps f a (advection_ip met0 met1 dt ip a).
Proof.
  intros; destruct f; try congruence; unfold advection_ip; keeps_go.
Qed.

Lemma diffusion_turb_ip_keeps f ctl dt rs ip a :
  f <> F_lon -> f <> F_lat -> f <> F_p ->
  keeps f a (diffusion_turb_ip ctl dt rs ip a).
Proof.
  intros; destruct f; try congruence; unfold diffusion_turb_ip; keeps_go.
Qed.

Lemma meso_cache_keeps f met0 met1 ix iy iz a :
  f <> F_cache -> keeps f a (meso_cache met0 met1 ix iy iz a).
Proof.
  intros; destruct f; try congruence; unfold meso_cache; keeps_go.
Qed.

Lemma diffusion_meso_ip_keeps f ctl met0 met1 dt rs ip a :
  f = F_np \/ f = F_time \/ f = F_q \/ f = F_iso ->
  keeps f a (diffusion_meso_ip ctl met0 met1 dt rs ip a).
Proof.
  intros Hf; unfold diffusion_meso_ip.
  destruct (Rneqb (dt ip) 0); [|apply keeps_refl].
  cbv zeta.
  set (ix := locate_reg _ _ _); set (iy := locate_reg _ _ _);
    set (iz := locate_irr _ _ _).
  apply (keeps_trans f a (meso_cache met0 met1 ix iy iz a)).
  { apply meso_cache_keeps; destruct Hf as [->|[->|[->| ->]]]; discriminate. }
  generalize (meso_cache met0 met1 ix iy iz a); intros a1.
  generalize (sqrt (meso_radicand ctl (dt ip))); intros r2.
  destruct Hf as [->|[->|[->| ->]]]; keeps_go.
Qed.

Lemma sedi_ip_keeps f ctl met0 met1 dt ip a :
  f <> F_p -> keeps f a (sedi_ip ctl met0 met1 dt ip a).
Proof. intros; destruct f; try congruence; unfold sedi_ip; keeps_go. Qed.

Lemma isosurf_ip_keeps f ctl met0 met1 ip a :
  f <> F_p -> keeps f a (isosurf_ip ctl met0 met1 ip a).
Proof. intros; destruct f; try congruence; unfold isosurf_ip; keeps_go. Qed.

Lemma decay_ip_keeps f ctl dt ip a :
  f <> F_q -> keeps f a (decay_ip ctl dt ip a).
Proof. intros; destruct f; try congruence; unfold decay_ip; keeps_go. Qed.

Lemma position_ip_keeps f fuel met0 met1 dt ip a a' :
  f <> F_lon -> f <> F_lat -> f <> F_p ->
  position_ip fuel met0 met1 dt ip a = Some a' -> keeps f a a'.
Proof.
  intros H1 H2 H3; unfold position_ip.
  destruct (Rneqb (dt ip) 0); [|intros [= <-]; apply keeps_refl].
  unfold position_lonlat; cbv zeta.
  assert (K1 : keeps f a (position_modulo ip a))
    by (destruct f; try congruence; unfold position_modulo; keeps_go).
  set (a1 := position_modulo ip a) in *.
  destruct (while_loop fuel (lat_cond ip) (lat_body ip) a1) as [a2|] eqn:E2;
    cbn [obind]; [|discriminate].
  destruct (while_loop fuel _ _ a2) as [a3|] eqn:E3; cbn [obind];
    [|discriminate].
  destruct (while_loop fuel _ _ a3) as [a4|] eqn:E4; cbn [obind];
    [|discriminate].
  intros [= <-].
  apply (while_loop_keeps f) in E2;
    [|intros x; destruct f; try congruence; unfold lat_body; keeps_go].
  apply (while_loop_keeps f) in E3;
    [|intros x; destruct f; try congruence; keeps_write].
  apply (while_loop_keeps f) in E4;
    [|intros x; destruct f; try congruence; keeps_write].
  assert (K5 : keeps f a4 (position_pressure met0 met1 ip a4))
    by (destruct f; try congruence; unfold position_pressure; keeps_go).
  eauto using keeps_trans.
Qed.

Lemma q_write_keeps f iq ip v a a' :
  f <> F_q -> q_write iq ip v a = Some a' -> keeps f a a'.
Proof.
  intros Hf; unfold q_write.
  destruct (q_in_bounds iq ip); [|discriminate].
  intros [= <-]; destruct f; try congruence; keeps_write.
Qed.

Lemma set_qnt_keeps f qnt ip v a a' :
  f <> F_q -> set_qnt qnt ip v a = Some a' -> keeps f a a'.
Proof.
  intros Hf; unfold set_qnt.
  destruct (qnt >=? 0)%Z; [now apply q_write_keeps|].
  intros [= <-]; apply keeps_refl.
Qed.

Lemma obind_keeps f (o : option atm_t) (k : atm_t -> option atm_t) a a' :
  (forall a1, o = Some a1 -> keeps f a a1) ->
  (forall a1 a2, k a1 = Some a2 -> keeps f a1 a2) ->
  obind o k = Some a' -> keeps f a a'.
Proof.
  intros Ho Hk; destruct o as [a1|]; cbn [obind]; [|discriminate].
  intros E; eapply keeps_trans; [apply Ho; reflexivity | eapply Hk; exact E].
Qed.

Lemma meteo_tnat_keeps f ctl h2o ip a a' :
  f <> F_q -> meteo_tnat ctl h2o ip a = Some a' -> keeps f a a'.
Proof.
  intros Hf; unfold meteo_tnat.
  destruct (qnt_tnat ctl >=? 0)%Z; [|intros [= <-]; apply keeps_refl].
  cbv zeta; apply obind_keeps.
  - intros a1; destruct (Rgtb _ 0); [now apply q_write_keeps|].
    intros [= <-]; apply keeps_refl.
  - intros a1 a2; destruct (Rgtb _ 0); [now apply q_write_keeps|].
    intros [= <-]; apply keeps_refl.
Qed.

Lemma meteo_tsts_keeps f ctl ip a a' :
  f <> F_q -> meteo_tsts ctl ip a = Some a' -> keeps f a a'.
Proof.
  intros Hf; unfold meteo_tsts.
  destruct (qnt_tsts ctl >=? 0)%Z; [|intros [= <-]; apply keeps_refl].
  destruct (q_read a (qnt_tice ctl) ip); cbn [obind]; [|discriminate].
  destruct (q_read a (qnt_tnat ctl) ip); cbn [obind]; [|discriminate].
  now apply q_write_keeps.
Qed.

Lemma meteo_ip_keeps f ctl met0 met1 ip a a' :
  f <> F_q -> meteo_ip ctl met0 met1 ip a = Some a' -> keeps f a a'.
Proof.
  intros Hf; unfold meteo_ip; cbv zeta.
  generalize (intpol_met_time met0 met1 (atm_time a ip) (atm_p a ip)
                (atm_lon a ip) (atm_lat a ip)); intros m.
  generalize (atm_p a ip); intros p0.
  revert a a'.
  do 15 (intros a a'; apply obind_keeps;
         [intros a1; now apply set_qnt_keeps | clear a a']).
  intros a a'; apply obind_keeps.
  - intros a1; now apply meteo_tnat_keeps.
  - intros a1 a2; now apply meteo_tsts_keeps.
Qed.

(** The modules on the whole ensemble. *)
Lemma module_advection_keeps f met0 met1 atm dt :
  f <> F_time -> f <> F_lon -> f <> F_lat -> f <> F_p ->
  keeps f atm (module_advection met0 met1 atm dt).
Proof.
  intros; apply for_loop_keeps; intros; now apply advection_ip_keeps.
Qed.

Lemma module_diffusion_turb_keeps f ctl atm dt rs :
  f <> F_lon -> f <> F_lat -> f <> F_p ->
  keeps f atm (module_diffusion_turb ctl atm dt rs).
Proof.
  intros; apply for_loop_keeps; intros; now apply diffusion_turb_ip_keeps.
Qed.

Lemma module_diffusion_meso_keeps f ctl met0 met1 atm dt rs :
  f = F_np \/ f = F_time \/ f = F_q \/ f = F_iso ->
  keeps f atm (module_diffusion_meso ctl met0 met1 atm dt rs).
Proof.
  intros; apply for_loop_keeps; intros; now apply diffusion_meso_ip_keeps.
Qed.

Lemma module_sedi_keeps f ctl met0 met1 atm dt :
  f <> F_p -> keeps f atm (module_sedi ctl met0 met1 atm dt).
Proof. intros; apply for_loop_keeps; intros; now apply sedi_ip_keeps. Qed.

Lemma module_isosurf_keeps f ctl met0 met1 atm :
  f <> F_p -> keeps f atm (module_isosurf ctl met0 met1 atm).
Proof. intros; apply for_loop_keeps; intros; now apply isosurf_ip_keeps. Qed.

Lemma module_decay_keeps f ctl atm dt :
  f <> F_q -> keeps f atm (module_decay ctl atm dt).
Proof. intros; apply for_loop_keeps; intros; now apply decay_ip_keeps. Qed.

Lemma module_position_keeps f fuel met0 met1 atm dt atm' :
  f <> F_lon -> f <> F_lat -> f <> F_p ->
  module_position fuel met0 met1 atm dt = Some atm' -> keeps f atm atm'.
Proof.
  intros H1 H2 H3; apply for_loop_opt_keeps.
  intros ip a a'; now apply position_ip_keeps.
Qed.

Lemma module_meteo_keeps f ctl met0 met1 atm atm' :
  f <> F_q -> module_meteo ctl met0 met1 atm = Some atm' -> keeps f atm atm'.
Proof.
  intros Hf; apply for_loop_opt_keeps.
  intros ip a a'; now apply meteo_ip_keeps.
Qed.

(** ** One time step: the times of the particles *)

Lemma Rneqb_false_eq x y : Rneqb x y = false -> x = y.
Proof.
  unfold Rneqb; destruct (Reqb_spec x y); [auto | discriminate].
Qed.

Lemma module_advection_time met0 met1 atm dt ip :
  (0 <= ip < atm_np atm)%Z ->
  atm_time (module_advection met0 met1 atm dt) ip = atm_time atm ip + dt ip.
Proof.
  intros Hip; unfold module_advection.
  destruct (for_loop_local (same_particle ip) (same_particle_refl ip)
              (same_particle_trans ip) (atm_np atm)
              (advection_ip met0 met1 dt) atm ip Hip) as (a1 & H1 & H2).
  { intros i a Hne; apply advection_ip_other; auto. }
  destruct H2 as (Ht & _); rewrite Ht.
  destruct H1 as (Ht1 & _); rewrite <- Ht1.
  unfold advection_ip.
  destruct (Rneqb (dt ip) 0) eqn:E.
  - cbv zeta; atm_simpl; reflexivity.
  - apply Rneqb_false_eq in E; rewrite E; lra.
Qed.

(** The if-then-else around a module of [main] keeps what the module
    keeps. *)
Lemma guarded_keeps f (b : bool) a a' :
  keeps f a a' -> keeps f a (if b then a' else a).
Proof. destruct b; [auto | intros _; apply keeps_refl]. Qed.

Lemma timestep_time pfuel ctl met0 met1 t rs_turb rs_meso atm dt atm' dt' :
  timestep pfuel ctl met0 met1 t rs_turb rs_meso (atm, dt) = Some (atm', dt') ->
  atm_np atm' = atm_np atm
  /\ dt' = snd (time_steps ctl t (atm, dt))
  /\ forall ip, (0 <= ip < atm_np atm)%Z ->
                atm_time atm' ip
                = atm_time atm ip + time_step_of ctl t (atm_time atm ip).
Proof.
  unfold timestep.
  pose proof (time_steps_atm ctl t (atm, dt)) as Hfst.
  pose proof (time_steps_dt ctl t atm dt) as Hsnd.
  destruct (time_steps ctl t (atm, dt)) as [a0 d0].
  cbn [fst snd] in Hfst, Hsnd; subst a0.
  destruct (module_position pfuel met0 met1 atm d0) as [a1|] eqn:E1;
    cbn [obind]; [|discriminate].
  cbv zeta.
  set (a2 := module_advection met0 met1 a1 d0).
  match goal with
  | |- context [if ?b then module_diffusion_turb ctl a2 d0 rs_turb else a2] =>
      set (a3 := if b then module_diffusion_turb ctl a2 d0 rs_turb else a2)
  end.
  match goal with
  | |- context [if ?b then module_diffusion_meso ctl met0 met1 a3 d0 rs_meso
                else a3] =>
      set (a4 := if b then module_diffusion_meso ctl met0 met1 a3 d0 rs_meso
                 else a3)
  end.
  match goal with
  | |- context [if ?b then module_sedi ctl met0 met1 a4 d0 else a4] =>
      set (a5 := if b then module_sedi ctl met0 met1 a4 d0 else a4)
  end.
  match goal with
  | |- context [if ?b then module_isosurf ctl met0 met1 a5 else a5] =>
      set (a6 := if b then module_isosurf ctl met0 met1 a5 else a5)
  end.
  destruct (module_position pfuel met0 met1 a6 d0) as [a7|] eqn:E7;
    cbn [obind]; [|discriminate].
  match goal with
  | |- context [if ?b then module_meteo ctl met0 met1 a7 else Some a7] =>
      destruct (if b then module_meteo ctl met0 met1 a7 else Some a7)
        as [a8|] eqn:E8
  end; cbn [obind]; [|discriminate].
  intros [= <- <-].
  (* every module but advection keeps the times and the number of
     particles *)
  assert (K : forall f, f = F_np \/ f = F_time ->
                        keeps f atm a1 /\ keeps f a2 a8
                        /\ keeps f a8 (if Rgtb (tdec_trop ctl) 0
                                          && Rgtb (tdec_strat ctl) 0
                                          && (qnt_m ctl >=? 0)%Z
                                       then module_decay ctl a8 d0 else a8)).
  { intros f Hf.
    assert (Hq : f <> F_q /\ f <> F_lon /\ f <> F_lat /\ f <> F_p)
      by (destruct Hf as [-> | ->]; repeat split; discriminate).
    destruct Hq as (Hq & Hlon & Hlat & Hp).
    split; [eapply module_position_keeps; eassumption|].
    split.
    - apply (keeps_trans f a2 a3);
        [apply guarded_keeps; now apply module_diffusion_turb_keeps|].
      apply (keeps_trans f a3 a4);
        [apply guarded_keeps; apply module_diffusion_meso_keeps; tauto|].
      apply (keeps_trans f a4 a5);
        [apply guarded_keeps; now apply module_sedi_keeps|].
      apply (keeps_trans f a5 a6);
        [apply guarded_keeps; now apply module_isosurf_keeps|].
      apply (keeps_trans f a6 a7);
        [eapply module_position_keeps; eassumption|].
      destruct (Rgtb (met_dt_out ctl) 0 && _) in E8.
      + eapply module_meteo_keeps; eassumption.
      + injection E8 as <-; apply keeps_refl.
    - apply guarded_keeps; now apply module_decay_keeps. }
  destruct (K F_np (or_introl eq_refl)) as (N1 & N2 & N3).
  destruct (K F_time (or_intror eq_refl)) as (T1 & T2 & T3).
  cbn [keeps] in N1, N2, N3, T1, T2, T3.
  assert (Nadv : atm_np a2 = atm_np a1)
    by (apply (module_advection_keeps F_np); discriminate).
  split; [congruence|]; split.
  - (* the time steps the modules use are those of the first loop *)
    reflexivity.
  - intros ip Hip.
    rewrite T3, T2. unfold a2.
    rewrite module_advection_time by (rewrite N1; exact Hip).
    rewrite T1, Hsnd.
    replace ((0 <=? ip) && (ip <? atm_np atm))%Z with true; [reflexivity|].
    symmetry; apply andb_true_iff; split; lia.
Qed.

(** ** Diagnostics: when they go through *)

Lemma q_write_ok iq ip v a :
  (0 <= iq < NQ)%Z -> (0 <= ip < NP)%Z ->
  q_write iq ip v a = Some (wr_q iq ip v a).
Proof. intros H1 H2; unfold q_write; now rewrite q_in_bounds_true. Qed.

Lemma set_qnt_ok qnt ip v a :
  (qnt < NQ)%Z -> (0 <= ip < NP)%Z -> exists a', set_qnt qnt ip v a = Some a'.
Proof.
  intros H1 H2; unfold set_qnt.
  destruct (qnt >=? 0)%Z eqn:E; [|now exists a].
  rewrite q_write_ok by lia; eauto.
Qed.

Lemma meteo_tnat_ok ctl h2o ip a :
  (qnt_tnat ctl < NQ)%Z -> (0 <= ip < NP)%Z ->
  exists a', meteo_tnat ctl h2o ip a = Some a'.
Proof.
  intros H1 H2; unfold meteo_tnat.
  destruct (qnt_tnat ctl >=? 0)%Z eqn:E; [|now exists a].
  cbv zeta.
  destruct (Rgtb _ 0); [rewrite q_write_ok by lia|]; cbn [obind];
    (destruct (Rgtb _ 0); [rewrite q_write_ok by lia|]); eauto.
Qed.

Lemma meteo_tsts_ok ctl ip a :
  (qnt_tsts ctl < NQ)%Z -> (qnt_tice ctl < NQ)%Z -> (qnt_tnat ctl < NQ)%Z ->
  ((qnt_tsts ctl >= 0)%Z -> (qnt_tice ctl >= 0)%Z /\ (qnt_tnat ctl >= 0)%Z) ->
  (0 <= ip < NP)%Z ->
  exists a', meteo_tsts ctl ip a = Some a'.
Proof.
  intros H1 H2 H3 H4 H5; unfold meteo_tsts.
  destruct (qnt_tsts ctl >=? 0)%Z eqn:E; [|now exists a].
  destruct H4 as [Hi Hn]; [lia|].
  unfold q_read; rewrite !q_in_bounds_true by lia; cbn [obind].
  rewrite q_write_ok by lia; eauto.
Qed.

Lemma obind_ok {A B} (o : option A) (k : A -> option B) :
  (exists a, o = Some a) -> (forall a, exists b, k a = Some b) ->
  exists b, obind o k = Some b.
Proof. intros (a & ->) Hk; cbn [obind]; apply Hk. Qed.

Lemma meteo_ip_ok ctl met0 met1 ip a :
  meteo_rows_ok ctl -> (0 <= ip < NP)%Z ->
  exists a', meteo_ip ctl met0 met1 ip a = Some a'.
Proof.
  intros [Hrows Hsts] Hip; unfold meteo_ip; cbv zeta.
  unfold meteo_rows in Hrows.
  repeat match goal with
         | H : Forall _ (_ :: _) |- _ =>
             let Hq := fresh "Hq" in
             apply Forall_cons_iff in H as [Hq H]
         end.
  generalize (intpol_met_time met0 met1 (atm_time a ip) (atm_p a ip)
                (atm_lon a ip) (atm_lat a ip)); intros m.
  revert a.
  do 15 (intros a; apply obind_ok; [now apply set_qnt_ok | clear a]).
  intros a; apply obind_ok; [now apply meteo_tnat_ok|].
  intros a1; now apply meteo_tsts_ok.
Qed.

Lemma module_meteo_ok ctl met0 met1 atm :
  meteo_rows_ok ctl -> (atm_np atm <= NP)%Z ->
  exists atm', module_meteo ctl met0 met1 atm = Some atm'.
Proof.
  intros Hok Hnp; unfold module_meteo.
  destruct (for_loop_opt_total (fun _ => True) (atm_np atm)
              (meteo_ip ctl met0 met1) atm I) as (a' & E & _).
  - intros ip s Hip _.
    destruct (meteo_ip_ok ctl met0 met1 ip s Hok) as (s' & Es); [lia|].
    now exists s'.
  - now exists a'.
Qed.

(** ** The loop over the time steps *)

Lemma timestep_ok pfuel ctl met0 met1 t rs_turb rs_meso atm dt :
  (2 <= pfuel)%nat -> meteo_rows_ok ctl -> (atm_np atm <= NP)%Z ->
  exists s', timestep pfuel ctl met0 met1 t rs_turb rs_meso (atm, dt) = Some s'.
Proof.
  intros Hfuel Hrows Hnp; unfold timestep.
  pose proof (time_steps_atm ctl t (atm, dt)) as Hfst.
  destruct (time_steps ctl t (atm, dt)) as [a0 d0].
  cbn [fst] in Hfst; subst a0.
  destruct (module_position_ends pfuel met0 met1 atm d0 Hfuel) as (a1 & E1).
  rewrite E1; cbn [obind]; cbv zeta.
  assert (N1 : atm_np a1 = atm_np atm)
    by (apply (module_position_keeps F_np) in E1; [exact E1 | | |];
        discriminate).
  set (a2 := module_advection met0 met1 a1 d0).
  assert (N2 : atm_np a2 = atm_np a1)
    by (apply (module_advection_keeps F_np); discriminate).
  match goal with
  | |- context [if ?b then module_diffusion_turb ctl a2 d0 rs_turb else a2] =>
      set (a3 := if b then module_diffusion_turb ctl a2 d0 rs_turb else a2);
      assert (N3 : keeps F_np a2 a3)
        by (apply guarded_keeps, module_diffusion_turb_keeps; discriminate)
  end.
  match goal with
  | |- context [if ?b then module_diffusion_meso ctl met0 met1 a3 d0 rs_meso
                else a3] =>
      set (a4 := if b then module_diffusion_meso ctl met0 met1 a3 d0 rs_meso
                 else a3);
      assert (N4 : keeps F_np a3 a4)
        by (apply guarded_keeps, module_diffusion_meso_keeps; tauto)
  end.
  match goal with
  | |- context [if ?b then module_sedi ctl met0 met1 a4 d0 else a4] =>
      set (a5 := if b then module_sedi ctl met0 met1 a4 d0 else a4);
      assert (N5 : keeps F_np a4 a5)
        by (apply guarded_keeps, module_sedi_keeps; discriminate)
  end.
  match goal with
  | |- context [if ?b then module_isosurf ctl met0 met1 a5 else a5] =>
      set (a6 := if b then module_isosurf ctl met0 met1 a5 else a5);
      assert (N6 : keeps F_np a5 a6)
        by (apply guarded_keeps, module_isosurf_keeps; discriminate)
  end.
  destruct (module_position_ends pfuel met0 met1 a6 d0 Hfuel) as (a7 & E7).
  rewrite E7; cbn [obind].
  assert (N7 : atm_np a7 = atm_np a6)
    by (apply (module_position_keeps F_np) in E7; [exact E7 | | |];
        discriminate).
  cbn [keeps] in N3, N4, N5, N6.
  destruct (module_meteo_ok ctl met0 met1 a7 Hrows) as (a8 & E8); [lia|].
  destruct (Rgtb (met_dt_out ctl) 0 && _); [rewrite E8|]; cbn [obind]; eauto.
Qed.

Section Steps.

Variable ctl : ctl_t.
Hypothesis Hdir : direction ctl = 1%Z \/ direction ctl = (- 1)%Z.
Hypothesis Hmod : 0 < dt_mod ctl.

(** A time seen in the direction of the run. *)
Local Abbreviation D x := (IZR (direction ctl) * x) (only parsing).

Lemma D_inj x y : D x = D y -> x = y.
Proof. destruct Hdir as [-> | ->]; intros H; lra. Qed.

Lemma D_minus x y : IZR (direction ctl) * (x - y) = D x - D y.
Proof. ring. Qed.

Lemma D_step x : D (x + IZR (direction ctl) * dt_mod ctl) = D x + dt_mod ctl.
Proof. destruct Hdir as [-> | ->]; lra. Qed.

Lemma time_step_moves t c :
  in_window ctl c -> D c < D t -> c + time_step_of ctl t c = t.
Proof.
  intros [H1 H2] H3; unfold time_step_of; rewrite !D_minus.
  destruct (Rgeb_spec (D c - D (t_start ctl)) 0); [|lra].
  destruct (Rleb_spec (D c - D (t_stop ctl)) 0); [|lra].
  destruct (Rltb_spec (D c - D t) 0); [|lra].
  simpl; lra.
Qed.

Lemma time_step_stays t c :
  ~ in_window ctl c \/ D t <= D c -> c + time_step_of ctl t c = c.
Proof.
  intros H; unfold time_step_of, in_window in *; rewrite !D_minus.
  destruct (Rgeb_spec (D c - D (t_start ctl)) 0);
    destruct (Rleb_spec (D c - D (t_stop ctl)) 0);
    destruct (Rltb_spec (D c - D t) 0); simpl; lra.
Qed.

Variable get_met : R -> met_t * met_t -> met_t * met_t.
Variable rs_of : R -> (Z -> R) * (Z -> R).
Variable pfuel : nat.

(** The loop, from any value [t] of the loop variable: particles outside
    the window are never moved in time, and if the loop runs at all its
    last step is at [t_stop] and leaves every particle of the window at
    [t_stop]. *)
Lemma main_loop_times fuel : forall t mets atm dt atm' dt' times,
  main_loop get_met rs_of fuel pfuel ctl t mets (atm, dt)
  = Some (atm', dt', times) ->
  atm_np atm' = atm_np atm
  /\ (D t - D (t_stop ctl) < dt_mod ctl -> last times (t_stop ctl) = t_stop ctl
                                           /\ times <> [])
  /\ (~ D t - D (t_stop ctl) < dt_mod ctl -> times = [])
  /\ (forall x, In x times ->
                Rmin (D t) (D (t_stop ctl)) <= D x <= D (t_stop ctl))
  /\ forall ip, (0 <= ip < atm_np atm)%Z ->
       (~ in_window ctl (atm_time atm ip) -> atm_time atm' ip = atm_time atm ip)
       /\ (in_window ctl (atm_time atm ip) ->
           D t - D (t_stop ctl) < dt_mod ctl ->
           atm_time atm' ip = t_stop ctl)
       /\ (~ D t - D (t_stop ctl) < dt_mod ctl ->
           atm_time atm' ip = atm_time atm ip).
Proof.
  induction fuel as [|f IH]; intros t mets atm dt atm' dt' times; simpl;
    rewrite D_minus.
  - destruct (Rltb_spec (D t - D (t_stop ctl)) (dt_mod ctl)) as [Hc|Hc];
      [discriminate|].
    intros [= <- <- <-].
    repeat split; try reflexivity; try contradiction; simpl; tauto.
  - destruct (Rltb_spec (D t - D (t_stop ctl)) (dt_mod ctl)) as [Hc|Hc].
    2:{ intros [= <- <- <-].
        repeat split; try reflexivity; try contradiction; simpl; tauto. }
    set (t' := if Rgtb (D t - D (t_stop ctl)) 0 then t_stop ctl else t).
    assert (Ht' : D t' = Rmin (D t) (D (t_stop ctl))).
    { unfold t', Rmin.
      destruct (Rgtb_spec (D t - D (t_stop ctl)) 0),
        (Rle_dec (D t) (D (t_stop ctl))); try reflexivity; lra. }
    set (mets' := if Rneqb t' (t_start ctl) then get_met t' mets else mets).
    destruct (timestep pfuel ctl (fst mets') (snd mets') t' (fst (rs_of t'))
                (snd (rs_of t')) (atm, dt)) as [[a1 d1]|] eqn:E1;
      cbn [obind]; [|discriminate].
    destruct (main_loop get_met rs_of f pfuel ctl
                (t' + IZR (direction ctl) * dt_mod ctl) mets' (a1, d1))
      as [[[a2 d2] times2]|] eqn:E2; cbn [obind]; [|discriminate].
    cbn [fst snd]; intros [= <- <- <-].
    apply timestep_time in E1 as (N1 & _ & T1).
    apply IH in E2 as (N2 & L2 & Z2 & I2 & T2).
    rewrite D_step in L2, Z2, I2, T2.
    assert (Hmin : Rmin (D t) (D (t_stop ctl)) <= D (t_stop ctl))
      by apply Rmin_r.
    split; [congruence|]; split; [|split; [intros; contradiction|split]].
    + intros _; split; [|discriminate].
      destruct (Rlt_dec (D t' + dt_mod ctl - D (t_stop ctl)) (dt_mod ctl))
        as [Hn|Hn].
      * destruct (L2 Hn) as [Hl Hne].
        destruct times2 as [|y l]; [contradiction | exact Hl].
      * (* no further step: this one was at [t_stop] *)
        assert (E : times2 = []) by (apply Z2; exact Hn).
        rewrite E; simpl. apply D_inj; lra.
    + intros x [<-|Hx]; [lra|].
      destruct (I2 x Hx) as [Ha Hb]; split; [|exact Hb].
      revert Ha Ht'; unfold Rmin.
      destruct (Rle_dec (D t' + dt_mod ctl) (D (t_stop ctl))),
        (Rle_dec (D t) (D (t_stop ctl))); intros; lra.
    + intros ip Hip.
      specialize (T1 ip Hip).
      destruct (T2 ip) as (Tout & Tin & Tno); [rewrite N1; exact Hip|].
      split; [|split; [|intros; contradiction]].
      * intros Hout.
        assert (E1 : atm_time a1 ip = atm_time atm ip)
          by (rewrite T1; apply time_step_stays; now left).
        rewrite Tout; [exact E1 | now rewrite E1].
      * intros Hin _.
        assert (Hin1 : in_window ctl (atm_time a1 ip)
                       /\ (D (t_stop ctl) <= D t' ->
                           atm_time a1 ip = t_stop ctl)).
        { destruct (Rlt_dec (D (atm_time atm ip)) (D t')) as [Hlt|Hge].
          - rewrite T1, time_step_moves by assumption.
            split; [|intros; apply D_inj; lra].
            unfold in_window in *; lra.
          - rewrite T1, time_step_stays by (right; lra).
            split; [exact Hin|].
            intros; apply D_inj; unfold in_window in Hin; lra. }
        destruct Hin1 as [Hw1 Hs1].
        destruct (Rlt_dec (D t' + dt_mod ctl - D (t_stop ctl)) (dt_mod ctl))
          as [Hn|Hn].
        -- now apply Tin.
        -- rewrite Tno by exact Hn. apply Hs1; lra.
Qed.

(** The loop ends: [fuel] steps are enough when
    [fuel - 1 >= (t_stop - t) / dt_mod] in the direction of the run. *)
Lemma main_loop_ends fuel : forall t mets atm dt,
  (2 <= pfuel)%nat -> meteo_rows_ok ctl -> (atm_np atm <= NP)%Z ->
  D (t_stop ctl) - D t <= (INR fuel - 1) * dt_mod ctl ->
  exists r, main_loop get_met rs_of fuel pfuel ctl t mets (atm, dt) = Some r.
Proof.
  induction fuel as [|f IH]; intros t mets atm dt Hp Hrows Hnp Hb;
    cbn [main_loop]; rewrite D_minus.
  - simpl in Hb.
    destruct (Rltb_spec (D t - D (t_stop ctl)) (dt_mod ctl)); [lra | eauto].
  - destruct (Rltb_spec (D t - D (t_stop ctl)) (dt_mod ctl)) as [Hc|Hc];
      [|eauto].
    set (t' := if Rgtb (D t - D (t_stop ctl)) 0 then t_stop ctl else t).
    assert (Ht' : D (t_stop ctl) - D t' <= INR f * dt_mod ctl).
    { rewrite S_INR in Hb. unfold t'.
      destruct (Rgtb_spec (D t - D (t_stop ctl)) 0); [|lra].
      pose proof (pos_INR f); nra. }
    cbv zeta.
    set (mets' := if Rneqb t' (t_start ctl) then get_met t' mets else mets).
    destruct (timestep_ok pfuel ctl (fst mets') (snd mets') t'
                (fst (rs_of t')) (snd (rs_of t')) atm dt Hp Hrows Hnp)
      as ([a1 d1] & E1).
    rewrite E1; cbn [obind].
    apply timestep_time in E1 as (N1 & _).
    destruct (IH (t' + IZR (direction ctl) * dt_mod ctl) mets' a1 d1 Hp Hrows)
      as (r & Er); [lia | rewrite D_step; lra |].
    rewrite Er; cbn [obind]; eauto.
Qed.

Lemma enough_fuel (x : R) : exists n : nat, forall m, (n <= m)%nat -> x <= INR m.
Proof.
  exists (Z.to_nat (up x)); intros m Hm.
  destruct (archimed x) as [Hup _].
  destruct (Z.le_gt_cases 0 (up x)) as [Hz|Hz].
  - apply le_INR in Hm.
    rewrite INR_IZR_INZ, Z2Nat.id in Hm by exact Hz. lra.
  - assert (IZR (up x) <= 0) by (apply IZR_le; lia).
    pose proof (pos_INR m); lra.
Qed.



End Steps.

(** ** Start and stop time of the run *)

Lemma gsl_stats_min_spec data n :
  (0 < n)%Z ->
  (forall i, (0 <= i < n)%Z -> gsl_stats_min data n <= data i)
  /\ exists i, (0 <= i < n)%Z /\ gsl_stats_min data n = data i.
Proof.
  intros Hn; unfold gsl_stats_min.
  assert (H : forall k, (0 <= k)%Z ->
            let m := for_loop k (fun i m => if Rltb (data i) m then data i
                                            else m) (data 0%Z) in
            m <= data 0%Z
            /\ (forall i, (0 <= i < k)%Z -> m <= data i)
            /\ (m = data 0%Z \/ exists i, (0 <= i < k)%Z /\ m = data i)).
  { intros k Hk; pattern k; apply natlike_ind; [| |exact Hk].
    - rewrite for_loop_0 by lia; cbv zeta.
      split; [lra|]; split; [intros; lia | now left].
    - intros x Hx (I0 & I1 & I2); unfold Z.succ.
      rewrite for_loop_succ by exact Hx; cbv zeta.
      set (m := for_loop x _ (data 0%Z)) in *.
      destruct (Rltb_spec (data x) m) as [Hlt|Hge].
      + split; [lra|]; split.
        * intros i Hi. destruct (Z.eq_dec i x) as [->|Hne]; [lra|].
          assert (m <= data i) by (apply I1; lia); lra.
        * right; exists x; split; [lia | reflexivity].
      + split; [exact I0|]; split.
        * intros i Hi. destruct (Z.eq_dec i x) as [->|Hne]; [lra|].
          apply I1; lia.
        * destruct I2 as [E|(i & Hi & E)]; [now left|].
          right; exists i; split; [lia | exact E]. }
  destruct (H n) as (I0 & I1 & I2); [lia|].
  split; [exact I1|].
  destruct I2 as [E|I2]; [|exact I2].
  exists 0%Z; split; [lia | exact E].
Qed.

Lemma gsl_stats_max_spec data n :
  (0 < n)%Z ->
  (forall i, (0 <= i < n)%Z -> data i <= gsl_stats_max data n)
  /\ exists i, (0 <= i < n)%Z /\ gsl_stats_max data n = data i.
Proof.
  intros Hn; unfold gsl_stats_max.
  assert (H : forall k, (0 <= k)%Z ->
            let m := for_loop k (fun i m => if Rgtb (data i) m then data i
                                            else m) (data 0%Z) in
            data 0%Z <= m
            /\ (forall i, (0 <= i < k)%Z -> data i <= m)
            /\ (m = data 0%Z \/ exists i, (0 <= i < k)%Z /\ m = data i)).
  { intros k Hk; pattern k; apply natlike_ind; [| |exact Hk].
    - rewrite for_loop_0 by lia; cbv zeta.
      split; [lra|]; split; [intros; lia | now left].
    - intros x Hx (I0 & I1 & I2); unfold Z.succ.
      rewrite for_loop_succ by exact Hx; cbv zeta.
      set (m := for_loop x _ (data 0%Z)) in *.
      destruct (Rgtb_spec (data x) m) as [Hlt|Hge].
      + split; [lra|]; split.
        * intros i Hi. destruct (Z.eq_dec i x) as [->|Hne]; [lra|].
          assert (data i <= m) by (apply I1; lia); lra.
        * right; exists x; split; [lia | reflexivity].
      + split; [exact I0|]; split.
        * intros i Hi. destruct (Z.eq_dec i x) as [->|Hne]; [lra|].
          apply I1; lia.
        * destruct I2 as [E|(i & Hi & E)]; [now left|].
          right; exists i; split; [lia | exact E]. }
  destruct (H n) as (I0 & I1 & I2); [lia|].
  split; [exact I1|].
  destruct I2 as [E|I2]; [|exact I2].
  exists 0%Z; split; [lia | exact E].
Qed.

Lemma floor_d_bounds x y :
  0 < y -> x - y < floor_d (x / y) * y <= x.
Proof.
  intros Hy; unfold floor_d.
  pose proof (Zfloor_bound (x / y)) as [B1 B2].
  assert (Hx : x = x / y * y) by (field; lra).
  split; nra.
Qed.

Lemma ceil_d_bounds x y :
  0 < y -> x <= ceil_d (x / y) * y < x + y.
Proof.
  intros Hy; unfold ceil_d.
  pose proof (Zceil_bound (x / y)) as [B1 B2].
  assert (Hx : x = x / y * y) by (field; lra).
  split; nra.
Qed.

Lemma set_t_stop_same c : set_t_stop (t_stop c) c = c.
Proof. destruct c; reflexivity. Qed.


Lemma isosurf_init_keeps_particles ctl met0 met1 file atm :
  isosurf ctl <> 4%Z ->
  exists atm1,
    module_isosurf_init ctl met0 met1 file atm = Ok atm1
    /\ atm_time atm1 = atm_time atm
    /\ atm_np atm1 = atm_np atm.
Proof.
  intros Hm; unfold module_isosurf_init.
  assert (K : forall (g : atm_t -> Z -> R) f, f = F_time \/ f = F_np ->
            keeps f atm (for_loop (atm_np atm)
                           (fun ip a => wr_iso_var ip (g a ip) a) atm)).
  { intros g f Hf; apply for_loop_keeps; intros ip a.
    destruct Hf as [-> | ->]; keeps_write. }
  destruct (isosurf ctl =? 1)%Z.
  { eexists; split; [reflexivity|]; split;
      [apply (K (fun a i => atm_p a i) F_time) | apply (K _ F_np)]; tauto. }
  destruct (isosurf ctl =? 2)%Z.
  { eexists; split; [reflexivity|]; split;
      [apply (K (fun a i => atm_p a i / mv_t (intpol_met_time met0 met1
                   (atm_time a i) (atm_p a i) (atm_lon a i) (atm_lat a i)))
                F_time)
      | apply (K (fun a i => atm_p a i / mv_t (intpol_met_time met0 met1
                   (atm_time a i) (atm_p a i) (atm_lon a i) (atm_lat a i)))
                F_np)]; tauto. }
  destruct (isosurf ctl =? 3)%Z.
  { eexists; split; [reflexivity|]; split;
      [apply (K (fun a i => THETA (atm_p a i) (mv_t (intpol_met_time met0 met1
                   (atm_time a i) (atm_p a i) (atm_lon a i) (atm_lat a i))))
                F_time)
      | apply (K (fun a i => THETA (atm_p a i) (mv_t (intpol_met_time met0 met1
                   (atm_time a i) (atm_p a i) (atm_lon a i) (atm_lat a i))))
                F_np)]; tauto. }
  destruct (Z.eqb_spec (isosurf ctl) 4); [contradiction|].
  now exists atm.
Qed.

(** The start and stop time when no stop time is configured. *)
Lemma init_times_default_stop (ctl : ctl_t) (atm : atm_t) :
  direction ctl = 1%Z \/ direction ctl = (- 1)%Z ->
  0 < dt_mod ctl ->
  (0 < atm_np atm)%Z ->
  t_stop ctl > 1e99 ->
  gsl_stats_min (atm_time atm) (atm_np atm)
  < gsl_stats_max (atm_time atm) (atm_np atm) ->
  let stop :=
    if (direction ctl =? 1)%Z then gsl_stats_max (atm_time atm) (atm_np atm)
    else gsl_stats_min (atm_time atm) (atm_np atm) in
  exists ts,
    init_times ctl atm = Ok (set_t_start ts (set_t_stop stop ctl))
    /\ IZR (direction ctl) * ts < IZR (direction ctl) * stop
    /\ forall ip, (0 <= ip < atm_np atm)%Z ->
                  IZR (direction ctl) * ts
                  <= IZR (direction ctl) * atm_time atm ip
                  <= IZR (direction ctl) * stop.
Proof.
  intros Hdir Hmod Hnp Hstop Hspread stop.
  destruct (gsl_stats_min_spec (atm_time atm) (atm_np atm) Hnp) as [Hmin _].
  destruct (gsl_stats_max_spec (atm_time atm) (atm_np atm) Hnp) as [Hmax _].
  unfold init_times, stop.
  set (lo := gsl_stats_min (atm_time atm) (atm_np atm)) in *.
  set (hi := gsl_stats_max (atm_time atm) (atm_np atm)) in *.
  destruct Hdir as [Hd|Hd]; rewrite Hd; cbn [Z.eqb Pos.eqb]; cbv zeta;
    cbn [t_stop set_t_start];
    (destruct (Rgtb_spec (t_stop ctl) 1e99) as [_|Hn]; [|contradiction]);
    cbn [direction t_stop t_start dt_mod set_t_start set_t_stop];
    rewrite Hd; cbn [Z.eqb Pos.eqb].
  - destruct (Rleb_spec (1 * (hi - lo)) 0); [lra|].
    destruct (floor_d_bounds lo (dt_mod ctl) Hmod) as [F1 F2].
    eexists; split; [reflexivity|]; split; [lra|].
    intros ip Hip; specialize (Hmin ip Hip); specialize (Hmax ip Hip); lra.
  - destruct (Rleb_spec (-1 * (lo - hi)) 0); [lra|].
    destruct (ceil_d_bounds hi (dt_mod ctl) Hmod) as [F1 F2].
    eexists; split; [reflexivity|]; split; [lra|].
    intros ip Hip; specialize (Hmin ip Hip); specialize (Hmax ip Hip); lra.
Qed.


(** ** Position: particles in range, the point on the sphere, the pressure *)

Lemma int_cast_small q : - 1 < q < 1 -> int_cast q = 0%Z.
Proof.
  intros Hq; unfold int_cast.
  destruct (Rleb_spec 0 q).
  - apply Zfloor_eq; simpl; lra.
  - apply Zceil_eq; simpl; lra.
Qed.

Lemma FMOD_small x : - 360 < x < 360 -> FMOD x 360 = x.
Proof.
  intros Hx; unfold FMOD.
  rewrite int_cast_small by lra. simpl; lra.
Qed.

(** [FMOD] takes a multiple of 360 away. *)
Lemma FMOD_shift x : exists k : Z, FMOD x 360 = x + IZR k * 360.
Proof.
  unfold FMOD; exists (- int_cast (x / 360))%Z.
  rewrite opp_IZR; ring.
Qed.

Lemma position_lonlat_keeps f fuel ip a a' :
  f <> F_lon -> f <> F_lat ->
  position_lonlat fuel ip a = Some a' -> keeps f a a'.
Proof.
  intros H1 H2; unfold position_lonlat; cbv zeta.
  assert (K1 : keeps f a (position_modulo ip a))
    by (destruct f; try congruence; unfold position_modulo; keeps_go).
  set (a1 := position_modulo ip a) in *.
  destruct (while_loop fuel (lat_cond ip) (lat_body ip) a1) as [a2|] eqn:E2;
    cbn [obind]; [|discriminate].
  destruct (while_loop fuel _ _ a2) as [a3|] eqn:E3; cbn [obind];
    [|discriminate].
  intros E4.
  apply (while_loop_keeps f) in E2;
    [|intros x; destruct f; try congruence; unfold lat_body; keeps_go].
  apply (while_loop_keeps f) in E3;
    [|intros x; destruct f; try congruence; keeps_write].
  apply (while_loop_keeps f) in E4;
    [|intros x; destruct f; try congruence; keeps_write].
  eauto using keeps_trans.
Qed.

(** A particle in range goes through the modulo and the three loops as it
    is. *)
Lemma position_lonlat_in_range fuel ip a :
  - 180 <= atm_lon a ip < 180 -> - 90 <= atm_lat a ip <= 90 ->
  exists a', position_lonlat fuel ip a = Some a'
             /\ atm_lon a' ip = atm_lon a ip /\ atm_lat a' ip = atm_lat a ip.
Proof.
  intros Hlon Hlat; unfold position_lonlat; cbv zeta.
  set (a1 := position_modulo ip a).
  assert (E1 : atm_lon a1 ip = atm_lon a ip /\ atm_lat a1 ip = atm_lat a ip).
  { unfold a1, position_modulo; cbv zeta; atm_simpl.
    rewrite !FMOD_small by lra; now split. }
  destruct E1 as [Eo El].
  rewrite while_loop_false by (apply lat_cond_false; rewrite El; lra).
  cbn [obind].
  rewrite while_loop_false
    by (rewrite Eo; destruct (Rltb_spec (atm_lon a ip) (- 180));
        [lra | reflexivity]).
  cbn [obind].
  rewrite while_loop_false
    by (rewrite Eo; destruct (Rgeb_spec (atm_lon a ip) 180);
        [lra | reflexivity]).
  exists a1; now repeat split.
Qed.

(** What [module_position] does to one particle. *)
Lemma module_position_particle fuel met0 met1 atm dt ip atm' :
  (0 <= ip < atm_np atm)%Z ->
  module_position fuel met0 met1 atm dt = Some atm' ->
  exists a1 a2,
    same_particle ip atm a1
    /\ position_ip fuel met0 met1 dt ip a1 = Some a2
    /\ same_particle ip a2 atm'.
Proof.
  intros Hip E; unfold module_position in E.
  apply (for_loop_opt_local (same_particle ip)) with (j := ip) in E;
    [exact E | apply same_particle_refl | apply same_particle_trans
    | exact Hip | ].
  intros i a a1 Hne Ei. eapply position_ip_other; [|exact Ei]; auto.
Qed.

(** X5: a particle whose longitude is in [-180, 180) and whose latitude is
    in [-90, 90] keeps both through [module_position], whether it is moved
    in the step or not; so a second position check, as [main] makes at the
    end of a step, leaves the coordinates the first one produced. *)
Theorem X5_position_keeps_in_range (fuel : nat) (met0 met1 : met_t)
  (atm : atm_t) (dt : Z -> R) (ip : Z) :
  (2 <= fuel)%nat ->
  (0 <= ip < atm_np atm)%Z ->
  exists atm1,
    module_position fuel met0 met1 atm dt = Some atm1
    /\ (- 180 <= atm_lon atm ip < 180 -> - 90 <= atm_lat atm ip <= 90 ->
        atm_lon atm1 ip = atm_lon atm ip /\ atm_lat atm1 ip = atm_lat atm ip)
    /\ exists atm2,
         module_position fuel met0 met1 atm1 dt = Some atm2
         /\ atm_lon atm2 ip = atm_lon atm1 ip
         /\ atm_lat atm2 ip = atm_lat atm1 ip.
Proof.
  intros Hfuel Hip.
  assert (Hkeep : forall a a', (0 <= ip < atm_np a)%Z ->
            module_position fuel met0 met1 a dt = Some a' ->
            - 180 <= atm_lon a ip < 180 -> - 90 <= atm_lat a ip <= 90 ->
            atm_lon a' ip = atm_lon a ip /\ atm_lat a' ip = atm_lat a ip).
  { intros a a' Hi E Hlon Hlat.
    destruct (module_position_particle fuel met0 met1 a dt ip a' Hi E)
      as (a1 & a2 & (_ & Ho1 & Hl1 & _) & E2 & (_ & Ho2 & Hl2 & _)).
    rewrite Ho2, Hl2, <- Ho1, <- Hl1.
    unfold position_ip in E2.
    destruct (Rneqb (dt ip) 0); [|injection E2 as <-; now split].
    destruct (position_lonlat_in_range fuel ip a1) as (al & El & Eo & Ea);
      [rewrite Ho1; exact Hlon | rewrite Hl1; exact Hlat |].
    rewrite El in E2; cbn [obind] in E2; injection E2 as <-.
    destruct (position_pressure_lonlat met0 met1 ip al) as [-> ->].
    now split. }
  destruct (module_position_ends fuel met0 met1 atm dt Hfuel) as (atm1 & E1).
  exists atm1; split; [exact E1|]; split; [now apply Hkeep|].
  destruct (module_position_ends fuel met0 met1 atm1 dt Hfuel) as (atm2 & E2).
  exists atm2; split; [exact E2|].
  assert (N1 : atm_np atm1 = atm_np atm)
    by (apply (module_position_keeps F_np) in E1; [exact E1 | | |];
        discriminate).
  destruct (Rneqb (dt ip) 0) eqn:Edt.
  - (* moved: the first check has put the particle in range *)
    assert (Hne : dt ip <> 0) by (destruct (Rneqb_spec (dt ip) 0); congruence).
    destruct (module_position_particle fuel met0 met1 atm dt ip atm1 Hip E1)
      as (a1 & a2 & _ & Ea & (_ & Ho2 & Hl2 & _)).
    destruct (position_ip_ends fuel met0 met1 dt ip a1 Hfuel) as (a2' & Ea' & Hb).
    rewrite Ea in Ea'; injection Ea' as <-.
    destruct (Hb Hne) as [Hlon Hlat].
    apply Hkeep; [rewrite N1; exact Hip | exact E2 | |]; congruence.
  - (* not moved: the check skips the particle *)
    apply Rneqb_false_eq in Edt.
    destruct (module_position_particle fuel met0 met1 atm1 dt ip atm2) as
      (a1 & a2 & (_ & Ho1 & Hl1 & _) & Ea & (_ & Ho2 & Hl2 & _));
      [rewrite N1; exact Hip | exact E2 |].
    rewrite position_ip_skip in Ea by exact Edt; injection Ea as <-.
    split; congruence.
Qed.

Lemma sin_period_Z x (k : Z) : sin (x + 2 * IZR k * PI) = sin x.
Proof.
  destruct (Z.le_gt_cases 0 k) as [Hk|Hk].
  - rewrite <- (Z2Nat.id k Hk), <- INR_IZR_INZ. apply sin_period.
  - replace k with (- Z.of_nat (Z.to_nat (- k)))%Z by lia.
    rewrite opp_IZR, <- INR_IZR_INZ.
    rewrite <- (sin_period (x + 2 * - INR (Z.to_nat (- k)) * PI)
                           (Z.to_nat (- k))).
    f_equal; ring.
Qed.

Lemma cos_period_Z x (k : Z) : cos (x + 2 * IZR k * PI) = cos x.
Proof.
  destruct (Z.le_gt_cases 0 k) as [Hk|Hk].
  - rewrite <- (Z2Nat.id k Hk), <- INR_IZR_INZ. apply cos_period.
  - replace k with (- Z.of_nat (Z.to_nat (- k)))%Z by lia.
    rewrite opp_IZR, <- INR_IZR_INZ.
    rewrite <- (cos_period (x + 2 * - INR (Z.to_nat (- k)) * PI)
                           (Z.to_nat (- k))).
    f_equal; ring.
Qed.

Lemma rad_shift x (k : Z) : rad (x + IZR k * 360) = rad x + 2 * IZR k * PI.
Proof. unfold rad; field. Qed.

Lemma rad_half_turn x : rad (x + 180) = rad x + PI.
Proof. unfold rad; field. Qed.

Lemma rad_north x : rad (180 - x) = PI - rad x.
Proof. unfold rad; field. Qed.

Lemma rad_south x : rad (- 180 - x) = - (rad x + PI).
Proof. unfold rad; field. Qed.

Lemma same_point_refl lon lat : same_point lon lat lon lat.
Proof. unfold same_point; repeat split; reflexivity. Qed.

Lemma same_point_trans lon lat lon1 lat1 lon2 lat2 :
  same_point lon lat lon1 lat1 -> same_point lon1 lat1 lon2 lat2 ->
  same_point lon lat lon2 lat2.
Proof.
  unfold same_point; intros (H1 & H2 & H3) (K1 & K2 & K3).
  repeat split; congruence.
Qed.

Lemma same_point_lon_turn lon lat (k : Z) :
  same_point lon lat (lon + IZR k * 360) lat.
Proof.
  unfold same_point; rewrite rad_shift, sin_period_Z, cos_period_Z.
  repeat split; reflexivity.
Qed.

Lemma same_point_lat_turn lon lat (k : Z) :
  same_point lon lat lon (lat + IZR k * 360).
Proof.
  unfold same_point; rewrite rad_shift, sin_period_Z, cos_period_Z.
  repeat split; reflexivity.
Qed.

(** A reflection at the north pole, and one at the south pole. *)
Lemma same_point_north lon lat : same_point lon lat (lon + 180) (180 - lat).
Proof.
  unfold same_point; rewrite rad_half_turn, rad_north.
  rewrite neg_cos, neg_sin, sin_PI_x.
  replace (PI - rad lat) with (- rad lat + PI) by ring.
  rewrite neg_cos, cos_neg.
  repeat split; ring.
Qed.

Lemma same_point_south lon lat : same_point lon lat (lon + 180) (- 180 - lat).
Proof.
  unfold same_point; rewrite rad_half_turn, rad_south.
  rewrite cos_neg, sin_neg, !neg_cos, !neg_sin.
  repeat split; ring.
Qed.

Lemma lat_body_point ip a :
  same_point (atm_lon a ip) (atm_lat a ip)
             (atm_lon (lat_body ip a) ip) (atm_lat (lat_body ip a) ip).
Proof.
  unfold lat_body.
  destruct (Rgtb (atm_lat a ip) 90); cbv zeta; atm_simpl.
  - destruct (Rltb (180 - atm_lat a ip) (- 90)); atm_simpl.
    + eapply same_point_trans; [apply same_point_north|].
      apply same_point_south.
    + apply same_point_north.
  - destruct (Rltb (atm_lat a ip) (- 90)); atm_simpl.
    + apply same_point_south.
    + apply same_point_refl.
Qed.

Lemma position_lonlat_point fuel ip a a' :
  position_lonlat fuel ip a = Some a' ->
  same_point (atm_lon a ip) (atm_lat a ip) (atm_lon a' ip) (atm_lat a' ip).
Proof.
  unfold position_lonlat; cbv zeta.
  assert (P1 : same_point (atm_lon a ip) (atm_lat a ip)
                 (atm_lon (position_modulo ip a) ip)
                 (atm_lat (position_modulo ip a) ip)).
  { unfold position_modulo; cbv zeta; atm_simpl.
    destruct (FMOD_shift (atm_lon a ip)) as (k1 & ->).
    destruct (FMOD_shift (atm_lat a ip)) as (k2 & ->).
    eapply same_point_trans;
      [apply (same_point_lon_turn _ _ k1) | apply same_point_lat_turn]. }
  set (a1 := position_modulo ip a) in *.
  destruct (while_loop fuel (lat_cond ip) (lat_body ip) a1) as [a2|] eqn:E2;
    cbn [obind]; [|discriminate].
  destruct (while_loop fuel _ _ a2) as [a3|] eqn:E3; cbn [obind];
    [|discriminate].
  intros E4.
  assert (Hloop : forall cond body x y,
            (forall s, same_point (atm_lon s ip) (atm_lat s ip)
                         (atm_lon (body s) ip) (atm_lat (body s) ip)) ->
            while_loop fuel cond body x = Some y ->
            same_point (atm_lon x ip) (atm_lat x ip)
                       (atm_lon y ip) (atm_lat y ip)).
  { intros cond body x y Hb H.
    apply (while_loop_inv
             (fun s => same_point (atm_lon x ip) (atm_lat x ip)
                                  (atm_lon s ip) (atm_lat s ip))) in H;
      [tauto | apply same_point_refl |].
    intros s _ Hs; eapply same_point_trans; [exact Hs | apply Hb]. }
  apply Hloop in E2; [|apply lat_body_point].
  apply Hloop in E3;
    [|intros s; atm_simpl;
      replace (atm_lon s ip + 360) with (atm_lon s ip + IZR 1 * 360) by lra;
      apply same_point_lon_turn].
  apply Hloop in E4;
    [|intros s; atm_simpl;
      replace (atm_lon s ip - 360) with (atm_lon s ip + IZR (- 1) * 360) by lra;
      apply same_point_lon_turn].
  eauto using same_point_trans.
Qed.

(** X6: [module_position] does not move a particle on the sphere: the
    modulo, the reflections at the poles and the wrap of the longitude
    leave the three Cartesian coordinates of the point at (lon, lat) as
    they are, for every particle, moved in the step or not. *)
Theorem X6_position_same_point (fuel : nat) (met0 met1 : met_t)
  (atm : atm_t) (dt : Z -> R) (ip : Z) :
  (2 <= fuel)%nat ->
  (0 <= ip < atm_np atm)%Z ->
  exists atm',
    module_position fuel met0 met1 atm dt = Some atm'
    /\ same_point (atm_lon atm ip) (atm_lat atm ip)
                  (atm_lon atm' ip) (atm_lat atm' ip).
Proof.
  intros Hfuel Hip.
  destruct (module_position_ends fuel met0 met1 atm dt Hfuel) as (atm' & E).
  exists atm'; split; [exact E|].
  destruct (module_position_particle fuel met0 met1 atm dt ip atm' Hip E)
    as (a1 & a2 & (_ & Ho1 & Hl1 & _) & E2 & (_ & Ho2 & Hl2 & _)).
  rewrite Ho2, Hl2, <- Ho1, <- Hl1.
  unfold position_ip in E2.
  destruct (Rneqb (dt ip) 0);
    [|injection E2 as <-; apply same_point_refl].
  destruct (position_lonlat fuel ip a1) as [al|] eqn:El; cbn [obind] in E2;
    [|discriminate].
  injection E2 as <-.
  destruct (position_pressure_lonlat met0 met1 ip al) as [-> ->].
  eapply position_lonlat_point; exact El.
Qed.

(** X7: the pressure after [module_position], for a particle that is moved
    in the step.  A pressure below that of the last level of the first
    snapshot is set to it; otherwise a pressure of at most 300 is kept, and
    a pressure above 300 is limited by the surface pressure, which is
    interpolated at the corrected longitude and latitude (and the pressure
    of the particle before the check). *)
Theorem X7_position_pressure (fuel : nat) (met0 met1 : met_t) (atm : atm_t)
  (dt : Z -> R) (ip : Z) :
  (2 <= fuel)%nat ->
  (0 <= ip < atm_np atm)%Z ->
  dt ip <> 0 ->
  exists atm',
    module_position fuel met0 met1 atm dt = Some atm'
    /\ let ptop := met_p met0 (met_np met0 - 1)%Z in
       let p := atm_p atm ip in
       let ps := mv_ps (intpol_met_time met0 met1 (atm_time atm ip) p
                          (atm_lon atm' ip) (atm_lat atm' ip)) in
       (p < ptop -> atm_p atm' ip = ptop)
       /\ (ptop <= p <= 300 -> atm_p atm' ip = p)
       /\ (ptop <= p -> 300 < p -> atm_p atm' ip = Rmin p ps).
Proof.
  intros Hfuel Hip Hdt.
  destruct (module_position_ends fuel met0 met1 atm dt Hfuel) as (atm' & E).
  exists atm'; split; [exact E|].
  destruct (module_position_particle fuel met0 met1 atm dt ip atm' Hip E)
    as (a1 & a2 & (Ht1 & _ & _ & Hp1 & _) & E2 & (_ & Ho2 & Hl2 & Hp2 & _)).
  unfold position_ip in E2.
  destruct (Rneqb_spec (dt ip) 0) as [_|Hn]; [|contradiction].
  destruct (position_lonlat fuel ip a1) as [al|] eqn:El; cbn [obind] in E2;
    [|discriminate].
  injection E2 as <-.
  assert (Kt : atm_time al = atm_time a1)
    by (apply (position_lonlat_keeps F_time) in El; [exact El | |];
        discriminate).
  assert (Kp : atm_p al = atm_p a1)
    by (apply (position_lonlat_keeps F_p) in El; [exact El | |];
        discriminate).
  destruct (position_pressure_lonlat met0 met1 ip al) as [Eo Ea].
  cbv zeta; rewrite Hp2, Ho2, Hl2, Eo, Ea, <- Ht1, <- Hp1.
  unfold position_pressure; rewrite Kt, Kp.
  set (ptop := met_p met0 (met_np met0 - 1)%Z).
  set (ps := mv_ps _).
  destruct (Rltb_spec (atm_p a1 ip) ptop) as [Hlt|Hge].
  { atm_simpl; repeat split; intros; try lra. }
  destruct (Rgtb_spec (atm_p a1 ip) 300) as [H300|H300].
  - cbv zeta; fold ps.
    destruct (Rgtb_spec (atm_p a1 ip) ps) as [Hps|Hps]; atm_simpl;
      rewrite ?Kp; repeat split; intros; try lra;
      unfold Rmin; destruct (Rle_dec (atm_p a1 ip) ps); lra.
  - rewrite Kp; repeat split; intros; lra.
Qed.

(** ** Mesoscale diffusion: the cache *)

Lemma upd3_same {A} (a : Z -> Z -> Z -> A) i j k v : upd3 a i j k v i j k = v.
Proof. unfold upd3; now rewrite upd_same, upd2_same. Qed.

Lemma upd3_other {A} (a : Z -> Z -> Z -> A) i j k v x y z :
  (x, y, z) <> (i, j, k) -> upd3 a i j k v x y z = a x y z.
Proof.
  intros H; unfold upd3, upd2, upd.
  destruct (Z.eqb_spec x i) as [->|]; [|reflexivity].
  destruct (Z.eqb_spec y j) as [->|]; [|reflexivity].
  destruct (Z.eqb_spec z k) as [->|]; [|reflexivity].
  contradiction.
Qed.

Lemma cell_eq_dec (c c' : Z * Z * Z) : {c = c'} + {c <> c'}.
Proof. repeat decide equality. Qed.

(** The update of the cache at a cell: the cell is stamped, the cache stays
    valid, and the stamped entries keep their stamp. *)
Lemma meso_cache_valid met0 met1 ix iy iz a :
  cache_valid met0 met1 a ->
  let a' := meso_cache met0 met1 ix iy iz a in
  cache_valid met0 met1 a'
  /\ atm_cache_time a' ix iy iz = met_time met0
  /\ (forall x y z, atm_cache_time a x y z = met_time met0 ->
                    atm_cache_time a' x y z = met_time met0).
Proof.
  intros Hv a'; unfold a', meso_cache.
  destruct (Rneqb (atm_cache_time a ix iy iz) (met_time met0)) eqn:E.
  - cbv zeta.
    cbn [atm_cache_time atm_cache_usig atm_cache_vsig atm_cache_wsig
         set_atm_cache_time set_atm_cache_usig set_atm_cache_vsig
         set_atm_cache_wsig].
    split; [|split].
    + intros x y z.
      cbn [atm_cache_time atm_cache_usig atm_cache_vsig atm_cache_wsig
           set_atm_cache_time set_atm_cache_usig set_atm_cache_vsig
           set_atm_cache_wsig].
      destruct (cell_eq_dec (x, y, z) (ix, iy, iz)) as [Ec|Ec].
      * injection Ec as -> -> ->. rewrite !upd3_same. now repeat split.
      * rewrite !upd3_other by exact Ec. apply Hv.
    + apply upd3_same.
    + intros x y z Hs.
      destruct (cell_eq_dec (x, y, z) (ix, iy, iz)) as [Ec|Ec].
      * injection Ec as -> -> ->. apply upd3_same.
      * now rewrite upd3_other by exact Ec.
  - apply Rneqb_false_eq in E.
    split; [exact Hv|]; split; [exact E | auto].
Qed.

Lemma cache_valid_keeps met0 met1 a b :
  keeps F_cache a b -> cache_valid met0 met1 a -> cache_valid met0 met1 b.
Proof.
  intros (Ht & Hu & Hv & Hw) Hval x y z; rewrite Ht, Hu, Hv, Hw; apply Hval.
Qed.

(** The body of the module after the update of the cache leaves the cache
    as it is. *)
Lemma diffusion_meso_ip_cache ctl met0 met1 dt rs ip a :
  dt ip <> 0 ->
  keeps F_cache
    (meso_cache met0 met1
       (locate_reg (met_lon met0) (met_nx met0) (atm_lon a ip))
       (locate_reg (met_lat met0) (met_ny met0) (atm_lat a ip))
       (locate_irr (met_p met0) (met_np met0) (atm_p a ip)) a)
    (diffusion_meso_ip ctl met0 met1 dt rs ip a).
Proof.
  intros Hdt; unfold diffusion_meso_ip.
  destruct (Rneqb_spec (dt ip) 0) as [_|Hn]; [|contradiction].
  cbv zeta.
  set (ix := locate_reg _ _ _); set (iy := locate_reg _ _ _);
    set (iz := locate_irr _ _ _).
  generalize (meso_cache met0 met1 ix iy iz a); intros a1.
  generalize (sqrt (meso_radicand ctl (dt ip))); intros r2.
  keeps_go.
Qed.

(** X8: the cache of wind deviations through [module_diffusion_meso].  If
    every entry that carries the time of the first snapshot holds the
    standard deviations of the 16 corner winds of its cell, this is still
    so after the module; entries that carry the time keep it; and the cell
    of every particle that is moved, located from its position before the
    module, carries the time afterwards, so that all particles of a cell
    use the same deviations. *)
Theorem X8_meso_cache_valid (ctl : ctl_t) (met0 met1 : met_t) (atm : atm_t)
  (dt rs : Z -> R) :
  cache_valid met0 met1 atm ->
  let atm' := module_diffusion_meso ctl met0 met1 atm dt rs in
  cache_valid met0 met1 atm'
  /\ (forall x y z, atm_cache_time atm x y z = met_time met0 ->
                    atm_cache_time atm' x y z = met_time met0)
  /\ forall ip, (0 <= ip < atm_np atm)%Z -> dt ip <> 0 ->
       atm_cache_time atm'
         (locate_reg (met_lon met0) (met_nx met0) (atm_lon atm ip))
         (locate_reg (met_lat met0) (met_ny met0) (atm_lat atm ip))
         (locate_irr (met_p met0) (met_np met0) (atm_p atm ip))
       = met_time met0.
Proof.
  intros Hval atm'.
  (* what one iteration does to the cache *)
  assert (Hbody : forall ip a,
            cache_valid met0 met1 a ->
            let a' := diffusion_meso_ip ctl met0 met1 dt rs ip a in
            cache_valid met0 met1 a'
            /\ (forall x y z, atm_cache_time a x y z = met_time met0 ->
                              atm_cache_time a' x y z = met_time met0)
            /\ (dt ip <> 0 ->
                atm_cache_time a'
                  (locate_reg (met_lon met0) (met_nx met0) (atm_lon a ip))
                  (locate_reg (met_lat met0) (met_ny met0) (atm_lat a ip))
                  (locate_irr (met_p met0) (met_np met0) (atm_p a ip))
                = met_time met0)).
  { intros ip a Ha a'.
    destruct (Rneqb (dt ip) 0) eqn:Edt.
    - assert (Hdt : dt ip <> 0)
        by (destruct (Rneqb_spec (dt ip) 0); congruence).
      pose proof (diffusion_meso_ip_cache ctl met0 met1 dt rs ip a Hdt) as K.
      fold a' in K.
      destruct (meso_cache_valid met0 met1
                  (locate_reg (met_lon met0) (met_nx met0) (atm_lon a ip))
                  (locate_reg (met_lat met0) (met_ny met0) (atm_lat a ip))
                  (locate_irr (met_p met0) (met_np met0) (atm_p a ip)) a Ha)
        as (V & S & M).
      split; [eapply cache_valid_keeps; eassumption|].
      destruct K as (Kt & _); rewrite Kt.
      split; [exact M | intros _; exact S].
    - assert (E : a' = a)
        by (unfold a', diffusion_meso_ip; now rewrite Edt).
      rewrite E; split; [exact Ha|]; split; [auto|].
      intros Hdt; apply Rneqb_false_eq in Edt; contradiction. }
  assert (Hinv : cache_valid met0 met1 atm'
                 /\ forall x y z, atm_cache_time atm x y z = met_time met0 ->
                                  atm_cache_time atm' x y z = met_time met0).
  { unfold atm', module_diffusion_meso.
    apply (for_loop_inv
             (fun s => cache_valid met0 met1 s
                       /\ forall x y z,
                            atm_cache_time atm x y z = met_time met0 ->
                            atm_cache_time s x y z = met_time met0)).
    - split; [exact Hval | auto].
    - intros ip s _ [Vs Ms].
      destruct (Hbody ip s Vs) as (V & M & _).
      split; [exact V | intros x y z Hx; apply M, Ms, Hx]. }
  destruct Hinv as [Hv' Hm'].
  split; [exact Hv'|]; split; [exact Hm'|].
  intros ip Hip Hdt.
  unfold atm', module_diffusion_meso.
  destruct (for_loop_local
              (fun a b => same_particle ip a b
                          /\ (cache_valid met0 met1 a -> cache_valid met0 met1 b)
                          /\ forall x y z,
                               atm_cache_time a x y z = met_time met0 ->
                               atm_cache_time b x y z = met_time met0))
    with (n := atm_np atm) (body := diffusion_meso_ip ctl met0 met1 dt rs)
         (a0 := atm) (j := ip) as (a1 & (S1 & V1 & _) & (_ & _ & M2)).
  - intros a; split; [apply same_particle_refl | auto].
  - intros a b c (H1 & H2 & H3) (K1 & K2 & K3).
    split; [eapply same_particle_trans; eassumption|]; split; auto.
  - exact Hip.
  - intros i a Hne; split; [apply diffusion_meso_ip_other; auto|].
    split.
    + intros Va; now destruct (Hbody i a Va).
    + intros x y z Hx.
      unfold diffusion_meso_ip.
      destruct (Rneqb (dt i) 0) eqn:Edt; [|exact Hx].
      assert (Hdti : dt i <> 0)
        by (destruct (Rneqb_spec (dt i) 0); congruence).
      pose proof (diffusion_meso_ip_cache ctl met0 met1 dt rs i a Hdti) as K.
      unfold diffusion_meso_ip in K; rewrite Edt in K.
      destruct K as (Kt & _); rewrite Kt.
      unfold meso_cache.
      destruct (Rneqb (atm_cache_time a _ _ _) (met_time met0)); [|exact Hx].
      cbv zeta; cbn [atm_cache_time set_atm_cache_time set_atm_cache_usig
                     set_atm_cache_vsig set_atm_cache_wsig].
      match goal with
      | |- upd3 _ ?i0 ?j0 ?k0 _ x y z = _ =>
          destruct (cell_eq_dec (x, y, z) (i0, j0, k0)) as [Ec|Ec]
      end.
      * injection Ec as -> -> ->. apply upd3_same.
      * now rewrite upd3_other by exact Ec.
  - apply M2.
    destruct (Hbody ip a1 (V1 Hval)) as (_ & _ & Hc).
    destruct S1 as (_ & Ho & Hl & Hp & _).
    rewrite <- Ho, <- Hl, <- Hp. now apply Hc.
Qed.

(** ** Modules that [main] skips *)

Lemma for_loop_id {S} n (body : Z -> S -> S) s :
  (forall ip s, body ip s = s) -> for_loop n body s = s.
Proof.
  intros Hb; apply (for_loop_inv (fun x => x = s)); [reflexivity|].
  intros ip x _ ->; apply Hb.
Qed.

(** X9: [main] calls the turbulent diffusion only if one of the four
    diffusivities is positive, and the mesoscale diffusion only if one of
    its two factors is positive.  This loses nothing: with no positive
    diffusivity (and tropopause pressures other than 0, so that the weight
    lies in [0, 1]) [module_diffusion_turb] returns the ensemble as it is,
    and with no positive factor [module_diffusion_meso] changes nothing but
    the cache of wind deviations. *)
Theorem X9_skipped_diffusion_is_idle (ctl : ctl_t) (met0 met1 : met_t)
  (atm : atm_t) (dt rs : Z -> R) :
  (forall t lat, clim_tropo t lat <> 0) ->
  (turb_dx_trop ctl <= 0 -> turb_dx_strat ctl <= 0 ->
   turb_dz_trop ctl <= 0 -> turb_dz_strat ctl <= 0 ->
   module_diffusion_turb ctl atm dt rs = atm)
  /\ (turb_mesox ctl <= 0 -> turb_mesoz ctl <= 0 ->
      forall f, f <> F_cache ->
                keeps f atm (module_diffusion_meso ctl met0 met1 atm dt rs)).
Proof.
  intros Hpt; split.
  - intros H1 H2 H3 H4; unfold module_diffusion_turb.
    apply for_loop_id; intros ip a; unfold diffusion_turb_ip.
    destruct (Rneqb (dt ip) 0); [|reflexivity].
    cbv zeta.
    pose proof (tropo_weight_range
                  (clim_tropo (atm_time a ip) (atm_lat a ip)) (atm_p a ip)
                  (Hpt _ _)) as Hw.
    set (w := tropo_weight _ _) in *.
    destruct (Rgtb_spec (w * turb_dx_trop ctl + (1 - w) * turb_dx_strat ctl) 0)
      as [Hdx|_]; [exfalso; nra|].
    destruct (Rgtb_spec (w * turb_dz_trop ctl + (1 - w) * turb_dz_strat ctl) 0)
      as [Hdz|_]; [exfalso; nra | reflexivity].
  - intros H1 H2 f Hf; unfold module_diffusion_meso.
    apply for_loop_keeps; intros ip a; unfold diffusion_meso_ip.
    destruct (Rneqb (dt ip) 0); [|apply keeps_refl].
    cbv zeta.
    destruct (Rgtb_spec (turb_mesox ctl) 0) as [Hx|_]; [exfalso; lra|].
    destruct (Rgtb_spec (turb_mesoz ctl) 0) as [Hz|_]; [exfalso; lra|].
    now apply meso_cache_keeps.
Qed.

(** ** Reading the balloon file *)

(** The loop over the lines, from a series of [atm_iso_n atm] samples:
    with room for the samples of the file they are appended in order; the
    samples that are there and everything outside the series stay. *)
Lemma read_balloon_appends lines : forall atm,
  (balloon_samples lines = [] \/
   (atm_iso_n atm + Z.of_nat (List.length (balloon_samples lines)) <= NP)%Z) ->
  exists atm',
    read_balloon lines atm = Ok atm'
    /\ atm_iso_n atm'
       = (atm_iso_n atm + Z.of_nat (List.length (balloon_samples lines)))%Z
    /\ (forall k, (k < List.length (balloon_samples lines))%nat ->
          (atm_iso_ts atm' (atm_iso_n atm + Z.of_nat k)%Z,
           atm_iso_ps atm' (atm_iso_n atm + Z.of_nat k)%Z)
          = nth k (balloon_samples lines) (0, 0))
    /\ (forall j, (j < atm_iso_n atm)%Z ->
          atm_iso_ts atm' j = atm_iso_ts atm j
          /\ atm_iso_ps atm' j = atm_iso_ps atm j)
    /\ forall f, f <> F_iso -> keeps f atm atm'.
Proof.
  induction lines as [|l lines IH]; intros atm Hroom.
  - exists atm; simpl; split; [reflexivity|]; split; [lia|].
    split; [intros; lia|]; split; [tauto | intros; apply keeps_refl].
  - destruct l as [|t|t p];
      cbn [read_balloon balloon_samples List.length] in Hroom |- *.
    + apply IH; exact Hroom.
    + (* a line with one number: the time lands in the next free slot *)
      set (atm1 := set_atm_iso_ts (upd (atm_iso_ts atm) (atm_iso_n atm) t) atm).
      destruct (IH atm1) as (atm' & E & En & Es & Eo & Ek); [exact Hroom|].
      exists atm'; split; [exact E|]; split; [exact En|]; split; [exact Es|].
      split.
      * intros j Hj; destruct (Eo j Hj) as [E1 E2]; rewrite E1, E2.
        unfold atm1; cbn [atm_iso_ts atm_iso_ps atm_iso_n set_atm_iso_ts].
        rewrite upd_other by lia; now split.
      * intros f Hf; eapply keeps_trans; [|apply Ek; exact Hf].
        destruct f; try congruence; keeps_write.
    + cbv zeta.
      set (atm1 := set_atm_iso_n _ _).
      assert (N1 : atm_iso_n atm1 = (atm_iso_n atm + 1)%Z) by reflexivity.
      cbn [List.length] in Hroom |- *.
      destruct Hroom as [Hr|Hr]; [discriminate|].
      destruct (Z.gtb_spec (atm_iso_n atm1) NP) as [Egt|Egt]; [lia|].
      destruct (IH atm1) as (atm' & E & En & Es & Eo & Ek); [right; lia|].
      exists atm'; split; [exact E|]; split; [lia|]; split; [|split].
      * intros [|k] Hk.
        -- cbn [nth]; rewrite Z.add_0_r.
           destruct (Eo (atm_iso_n atm)) as [E1 E2]; [lia|].
           rewrite E1, E2; unfold atm1.
           cbn [atm_iso_ts atm_iso_ps atm_iso_n set_atm_iso_ts set_atm_iso_ps
                set_atm_iso_n].
           now rewrite !upd_same.
        -- cbn [nth].
           replace (atm_iso_n atm + Z.of_nat (S k))%Z
             with (atm_iso_n atm1 + Z.of_nat k)%Z by lia.
           apply Es; lia.
      * intros j Hj; destruct (Eo j) as [E1 E2]; [lia|]; rewrite E1, E2.
        unfold atm1.
        cbn [atm_iso_ts atm_iso_ps atm_iso_n set_atm_iso_ts set_atm_iso_ps
             set_atm_iso_n].
        rewrite !upd_other by lia; now split.
      * intros f Hf; eapply keeps_trans; [|apply Ek; exact Hf].
        destruct f; try congruence; keeps_write.
Qed.

Lemma read_balloon_too_many lines : forall atm,
  balloon_samples lines <> [] ->
  (atm_iso_n atm + Z.of_nat (List.length (balloon_samples lines)) > NP)%Z ->
  read_balloon lines atm = Fatal "Too many data points!".
Proof.
  induction lines as [|l lines IH]; intros atm Hne Hmany.
  - contradiction.
  - destruct l as [|t|t p]; cbn [read_balloon balloon_samples] in *.
    + now apply IH.
    + apply IH; [exact Hne | exact Hmany].
    + cbv zeta.
      set (atm1 := set_atm_iso_n _ _).
      assert (N1 : atm_iso_n atm1 = (atm_iso_n atm + 1)%Z) by reflexivity.
      destruct (Z.gtb_spec (atm_iso_n atm1) NP) as [Egt|Egt]; [reflexivity|].
      cbn [List.length] in Hmany.
      apply IH; [|lia].
      intros E; rewrite E in Hmany; simpl in Hmany; lia.
Qed.

(** X10: the initialisation of isosurface mode 4, from an ensemble with no
    balloon sample yet.  A file that cannot be opened, a file without a
    line of two numbers and a file with more than [NP] such lines ([NP]
    the size of the arrays, not negative) each end the run, with the
    messages "Cannot open file!", "Could not read any data!" and "Too many
    data points!".  With fewer than [NP] such lines
    (every slot [sscanf] writes to is then inside the arrays) the series is
    the lines of two numbers in the order of the file, lines without two
    numbers being skipped, and the particles are as before. *)
Theorem X10_balloon_file (ctl : ctl_t) (met0 met1 : met_t)
  (lines : list scan_line) (atm : atm_t) :
  (0 <= NP)%Z ->
  isosurf ctl = 4%Z ->
  atm_iso_n atm = 0%Z ->
  let samples := balloon_samples lines in
  module_isosurf_init ctl met0 met1 None atm = Fatal "Cannot open file!"
  /\ (samples = [] ->
      module_isosurf_init ctl met0 met1 (Some lines) atm
      = Fatal "Could not read any data!")
  /\ ((Z.of_nat (List.length samples) > NP)%Z ->
      module_isosurf_init ctl met0 met1 (Some lines) atm
      = Fatal "Too many data points!")
  /\ (samples <> [] -> (Z.of_nat (List.length samples) < NP)%Z ->
      exists atm',
        module_isosurf_init ctl met0 met1 (Some lines) atm = Ok atm'
        /\ atm_iso_n atm' = Z.of_nat (List.length samples)
        /\ (forall k, (k < List.length samples)%nat ->
              (atm_iso_ts atm' (Z.of_nat k), atm_iso_ps atm' (Z.of_nat k))
              = nth k samples (0, 0))
        /\ forall f, f <> F_iso -> keeps f atm atm').
Proof.
  intros HNP Hm Hn samples; unfold module_isosurf_init; rewrite Hm;
    cbn [Z.eqb Pos.eqb].
  split; [reflexivity|]; split; [|split].
  - intros He.
    destruct (read_balloon_appends lines atm) as (atm' & E & En & _);
      [now left|].
    rewrite E. fold samples in En; rewrite He, Hn in En; simpl in En.
    now rewrite En.
  - intros Hmany.
    rewrite read_balloon_too_many; [reflexivity | | fold samples; lia].
    fold samples; intros E; rewrite E in Hmany; simpl in Hmany; lia.
  - intros Hne Hroom.
    destruct (read_balloon_appends lines atm) as (atm' & E & En & Es & _ & Ek);
      [right; fold samples; lia|].
    fold samples in En, Es; rewrite Hn in En, Es; simpl in En, Es.
    rewrite E.
    assert (Hpos : (0 < List.length samples)%nat)
      by (destruct samples; [contradiction | simpl; lia]).
    replace (atm_iso_n atm' <? 1)%Z with false
      by (symmetry; apply Z.ltb_ge; lia).
    exists atm'; split; [reflexivity|]; split; [exact En|]; split; [|exact Ek].
    intros k Hk; apply Es; exact Hk.
Qed.

(** ** One time step: a particle that is not moved *)

Lemma keeps_same_particle j a b :
  (forall f, f <> F_np -> f <> F_iso -> f <> F_cache -> keeps f a b) ->
  same_particle j a b.
Proof.
  intros K; unfold same_particle.
  pose proof (K F_time) as Kt; pose proof (K F_lon) as Klon;
  pose proof (K F_lat) as Klat; pose proof (K F_p) as Kp;
  pose proof (K F_q) as Kq; pose proof (K F_up) as Kup;
  pose proof (K F_vp) as Kvp; pose proof (K F_wp) as Kwp.
  cbn [keeps] in *.
  rewrite Kt, Klon, Klat, Kp, Kq, Kup, Kvp, Kwp by discriminate.
  repeat split; reflexivity.
Qed.

Lemma keeps_same_iso j a b :
  keeps F_np a b -> keeps F_iso a b -> same_iso j a b.
Proof.
  cbn [keeps]; intros Hn (Hv & Hts & Hps & Hin); unfold same_iso.
  now rewrite Hv, Hts, Hps, Hin, Hn.
Qed.

Lemma guarded_same j (b : bool) a a' :
  same_particle j a a' -> same_particle j a (if b then a' else a).
Proof. destruct b; [auto | intros _; apply same_particle_refl]. Qed.

(** The modules that test [dt] leave a particle with [dt = 0] alone. *)
Lemma module_advection_rest met0 met1 atm dt j :
  dt j = 0 -> same_particle j atm (module_advection met0 met1 atm dt).
Proof.
  intros Hdt; apply module_frame.
  - intros ip a Hne; apply advection_ip_other; auto.
  - intros a; unfold advection_ip; now rewrite Hdt, Rneqb_refl.
Qed.

Lemma module_diffusion_turb_rest ctl atm dt rs j :
  dt j = 0 -> same_particle j atm (module_diffusion_turb ctl atm dt rs).
Proof.
  intros Hdt; apply module_frame.
  - intros ip a Hne; apply diffusion_turb_ip_other; auto.
  - intros a; unfold diffusion_turb_ip; now rewrite Hdt, Rneqb_refl.
Qed.

Lemma module_diffusion_meso_rest ctl met0 met1 atm dt rs j :
  dt j = 0 ->
  same_particle j atm (module_diffusion_meso ctl met0 met1 atm dt rs).
Proof.
  intros Hdt; apply module_frame.
  - intros ip a Hne; apply diffusion_meso_ip_other; auto.
  - intros a; unfold diffusion_meso_ip; now rewrite Hdt, Rneqb_refl.
Qed.

Lemma module_sedi_rest ctl met0 met1 atm dt j :
  dt j = 0 -> same_particle j atm (module_sedi ctl met0 met1 atm dt).
Proof.
  intros Hdt; apply module_frame.
  - intros ip a Hne; apply sedi_ip_other; auto.
  - intros a; unfold sedi_ip; now rewrite Hdt, Rneqb_refl.
Qed.

Lemma module_decay_rest ctl atm dt j :
  dt j = 0 -> same_particle j atm (module_decay ctl atm dt).
Proof.
  intros Hdt; apply module_frame.
  - intros ip a Hne; apply decay_ip_other; auto.
  - intros a; unfold decay_ip; now rewrite Hdt, Rneqb_refl.
Qed.

Lemma module_position_rest fuel met0 met1 atm dt atm' j :
  dt j = 0 ->
  module_position fuel met0 met1 atm dt = Some atm' ->
  same_particle j atm atm'.
Proof.
  intros Hdt E; unfold module_position in E.
  apply (for_loop_opt_inv (same_particle j atm)) in E;
    [exact E | apply same_particle_refl |].
  intros ip s s' _ Hs Es.
  destruct (Z.eq_dec ip j) as [->|Hne].
  - rewrite position_ip_skip in Es by exact Hdt. now injection Es as <-.
  - eapply same_particle_trans; [exact Hs|].
    eapply position_ip_other; [|exact Es]; auto.
Qed.

(** X11: a particle the step does not move ([dt = 0]: it is outside the
    time window, or already at the time of the step) keeps its time,
    longitude, latitude and wind perturbations through the whole step, and
    its quantities unless the meteorological diagnostics are written.
    Its pressure is not protected: [module_isosurf] does not test [dt], so
    in an isosurface mode (1 to 4) the pressure is replaced by the one of
    the surface; only without such a mode is it kept. *)
Theorem X11_resting_particle (pfuel : nat) (ctl : ctl_t) (met0 met1 : met_t)
  (t : R) (rs_turb rs_meso : Z -> R) (atm : atm_t) (dt : Z -> R)
  (atm' : atm_t) (dt' : Z -> R) (ip : Z) :
  timestep pfuel ctl met0 met1 t rs_turb rs_meso (atm, dt) = Some (atm', dt') ->
  (0 <= ip < atm_np atm)%Z ->
  dt' ip = 0 ->
  atm_time atm' ip = atm_time atm ip
  /\ atm_lon atm' ip = atm_lon atm ip
  /\ atm_lat atm' ip = atm_lat atm ip
  /\ atm_up atm' ip = atm_up atm ip
  /\ atm_vp atm' ip = atm_vp atm ip
  /\ atm_wp atm' ip = atm_wp atm ip
  /\ atm_p atm' ip
     = (if ((isosurf ctl >=? 1) && (isosurf ctl <=? 4))%Z
        then atm_p (isosurf_ip ctl met0 met1 ip atm) ip
        else atm_p atm ip)
  /\ (met_dt_out ctl <= 0 -> forall iq, atm_q atm' iq ip = atm_q atm iq ip).
Proof.
  unfold timestep.
  pose proof (time_steps_atm ctl t (atm, dt)) as Hfst.
  destruct (time_steps ctl t (atm, dt)) as [a0 d0].
  cbn [fst] in Hfst; subst a0.
  destruct (module_position pfuel met0 met1 atm d0) as [a1|] eqn:E1;
    cbn [obind]; [|discriminate].
  cbv zeta.
  set (a2 := module_advection met0 met1 a1 d0).
  match goal with
  | |- context [if ?b then module_diffusion_turb ctl a2 d0 rs_turb else a2] =>
      set (a3 := if b then module_diffusion_turb ctl a2 d0 rs_turb else a2)
  end.
  match goal with
  | |- context [if ?b then module_diffusion_meso ctl met0 met1 a3 d0 rs_meso
                else a3] =>
      set (a4 := if b then module_diffusion_meso ctl met0 met1 a3 d0 rs_meso
                 else a3)
  end.
  match goal with
  | |- context [if ?b then module_sedi ctl met0 met1 a4 d0 else a4] =>
      set (a5 := if b then module_sedi ctl met0 met1 a4 d0 else a4)
  end.
  set (iso := ((isosurf ctl >=? 1) && (isosurf ctl <=? 4))%Z).
  set (a6 := if iso then module_isosurf ctl met0 met1 a5 else a5).
  destruct (module_position pfuel met0 met1 a6 d0) as [a7|] eqn:E7;
    cbn [obind]; [|discriminate].
  match goal with
  | |- context [if ?b then module_meteo ctl met0 met1 a7 else Some a7] =>
      set (diag := b);
      destruct (if diag then module_meteo ctl met0 met1 a7 else Some a7)
        as [a8|] eqn:E8
  end; cbn [obind]; [|discriminate].
  match goal with
  | |- context [if ?b then module_decay ctl a8 d0 else a8] =>
      set (a9 := if b then module_decay ctl a8 d0 else a8)
  end.
  intros [= <- <-] Hip Hdt.
  (* up to the sedimentation the particle is left alone *)
  assert (S5 : same_particle ip atm a5).
  { apply (same_particle_trans ip atm a1);
      [eapply module_position_rest; eassumption|].
    apply (same_particle_trans ip a1 a2);
      [now apply module_advection_rest|].
    apply (same_particle_trans ip a2 a3);
      [now apply guarded_same, module_diffusion_turb_rest|].
    apply (same_particle_trans ip a3 a4);
      [now apply guarded_same, module_diffusion_meso_rest|].
    now apply guarded_same, module_sedi_rest. }
  assert (K5 : forall f, f = F_np \/ f = F_iso -> keeps f atm a5).
  { intros f Hf.
    assert (Hq : f <> F_q /\ f <> F_lon /\ f <> F_lat /\ f <> F_p
                 /\ f <> F_time /\ f <> F_up /\ f <> F_vp /\ f <> F_wp
                 /\ f <> F_cache)
      by (destruct Hf as [-> | ->]; repeat split; discriminate).
    destruct Hq as (Hq & Hlon & Hlat & Hp & Ht & Hup & Hvp & Hwp & Hc).
    apply (keeps_trans f atm a1);
      [eapply module_position_keeps; eassumption|].
    apply (keeps_trans f a1 a2); [now apply module_advection_keeps|].
    apply (keeps_trans f a2 a3);
      [apply guarded_keeps; now apply module_diffusion_turb_keeps|].
    apply (keeps_trans f a3 a4);
      [apply guarded_keeps; apply module_diffusion_meso_keeps; tauto|].
    apply guarded_keeps; now apply module_sedi_keeps. }
  assert (N5 : atm_np a5 = atm_np atm) by (apply (K5 F_np); now left).
  (* the isosurface writes the pressure, and only the pressure *)
  assert (K6 : forall f, f <> F_p -> keeps f a5 a6)
    by (intros f Hf; apply guarded_keeps; now apply module_isosurf_keeps).
  assert (P6 : atm_p a6 ip
               = if iso then atm_p (isosurf_ip ctl met0 met1 ip atm) ip
                 else atm_p atm ip).
  { unfold a6; destruct iso.
    - rewrite module_isosurf_p by (rewrite N5; exact Hip).
      apply isosurf_ip_p_same; split; [exact S5|].
      apply keeps_same_iso; apply K5; tauto.
    - apply S5. }
  (* the second position check, the diagnostics and the decay *)
  assert (S7 : same_particle ip a6 a7)
    by (eapply module_position_rest; eassumption).
  assert (K8 : forall f, f <> F_q -> keeps f a7 a8).
  { intros f Hf; destruct diag.
    - eapply module_meteo_keeps; eassumption.
    - injection E8 as <-; apply keeps_refl. }
  assert (S9 : same_particle ip a8 a9)
    by (apply guarded_same; now apply module_decay_rest).
  destruct S5 as (T5 & Lo5 & La5 & _ & Q5 & U5 & V5 & W5).
  destruct S7 as (T7 & Lo7 & La7 & P7 & Q7 & U7 & V7 & W7).
  destruct S9 as (T9 & Lo9 & La9 & P9 & Q9 & U9 & V9 & W9).
  pose proof (K6 F_time) as T6; pose proof (K6 F_lon) as Lo6;
  pose proof (K6 F_lat) as La6; pose proof (K6 F_up) as U6;
  pose proof (K6 F_vp) as V6; pose proof (K6 F_wp) as W6;
  pose proof (K6 F_q) as Q6.
  pose proof (K8 F_time) as T8; pose proof (K8 F_lon) as Lo8;
  pose proof (K8 F_lat) as La8; pose proof (K8 F_up) as U8;
  pose proof (K8 F_vp) as V8; pose proof (K8 F_wp) as W8;
  pose proof (K8 F_p) as P8.
  cbn [keeps] in T6, Lo6, La6, U6, V6, W6, Q6, T8, Lo8, La8, U8, V8, W8, P8.
  repeat split.
  - rewrite T9, T8, T7, T6, T5 by discriminate; reflexivity.
  - rewrite Lo9, Lo8, Lo7, Lo6, Lo5 by discriminate; reflexivity.
  - rewrite La9, La8, La7, La6, La5 by discriminate; reflexivity.
  - rewrite U9, U8, U7, U6, U5 by discriminate; reflexivity.
  - rewrite V9, V8, V7, V6, V5 by discriminate; reflexivity.
  - rewrite W9, W8, W7, W6, W5 by discriminate; reflexivity.
  - rewrite P9, P8, P7 by discriminate; exact P6.
  - intros Hout iq.
    assert (Ed : diag = false).
    { unfold diag; destruct (Rgtb_spec (met_dt_out ctl) 0); [lra|].
      reflexivity. }
    rewrite Ed in E8; injection E8 as <-.
    rewrite Q9, Q7, Q6, Q5 by discriminate; reflexivity.
Qed.

(** ** Decay over two steps *)

Lemma Rneqb_cases x :
  (x <> 0 /\ Rneqb x 0 = true) \/ (x = 0 /\ Rneqb x 0 = false).
Proof.
  destruct (Rneqb x 0) eqn:E; [left | right]; split; try reflexivity.
  - destruct (Rneqb_spec x 0); [assumption | discriminate].
  - now apply Rneqb_false_eq.
Qed.

(** The decay leaves the lifetime of a particle as it is. *)
Lemma module_decay_tdec ctl atm dt ip :
  decay_tdec ctl (module_decay ctl atm dt) ip = decay_tdec ctl atm ip.
Proof.
  pose proof (module_decay_keeps F_time ctl atm dt) as Kt.
  pose proof (module_decay_keeps F_lat ctl atm dt) as Klat.
  pose proof (module_decay_keeps F_p ctl atm dt) as Kp.
  cbn [keeps] in Kt, Klat, Kp; unfold decay_tdec.
  rewrite Kt, Klat, Kp by discriminate; reflexivity.
Qed.

(** X12: with positive lifetimes and a tropopause pressure other than 0,
    the decay over a step [dt1] followed by the decay over a step [dt2]
    gives a particle the mass of one decay over [dt1 + dt2] (the position of
    the particle, which sets the lifetime, being left alone in between);
    so a decay over [- dt] undoes the decay over [dt]. *)
Theorem X12_decay_composes (ctl : ctl_t) (atm : atm_t) (dt1 dt2 : Z -> R)
  (ip : Z) :
  (0 <= ip < atm_np atm)%Z ->
  0 < tdec_trop ctl -> 0 < tdec_strat ctl ->
  clim_tropo (atm_time atm ip) (atm_lat atm ip) <> 0 ->
  atm_q (module_decay ctl (module_decay ctl atm dt1) dt2) (qnt_m ctl) ip
  = atm_q (module_decay ctl atm (fun i => dt1 i + dt2 i)) (qnt_m ctl) ip
  /\ atm_q (module_decay ctl (module_decay ctl atm dt1) (fun i => - dt1 i))
       (qnt_m ctl) ip
     = atm_q atm (qnt_m ctl) ip.
Proof.
  intros Hip Ht Hs Hpt.
  pose proof (decay_tdec_pos ctl atm ip Ht Hs Hpt) as Hpos.
  assert (Hnp : atm_np (module_decay ctl atm dt1) = atm_np atm)
    by (apply (module_decay_keeps F_np); discriminate).
  pose proof (module_decay_tdec ctl atm dt1 ip) as Htd.
  assert (Hcomp : forall d2 : Z -> R,
    atm_q (module_decay ctl (module_decay ctl atm dt1) d2) (qnt_m ctl) ip
    = atm_q (module_decay ctl atm (fun i => dt1 i + d2 i)) (qnt_m ctl) ip).
  { intros d2.
    rewrite !module_decay_mass by (rewrite ?Hnp; exact Hip).
    rewrite Htd.
    set (m := atm_q atm (qnt_m ctl) ip); set (td := decay_tdec ctl atm ip).
    assert (Hexp : exp (- dt1 ip / td) * exp (- d2 ip / td)
                   = exp (- (dt1 ip + d2 ip) / td)).
    { rewrite <- exp_plus; f_equal; field; unfold td; lra. }
    destruct (Rneqb_cases (dt1 ip)) as [[H1 ->]|[H1 ->]],
             (Rneqb_cases (d2 ip)) as [[H2 ->]|[H2 ->]],
             (Rneqb_cases (dt1 ip + d2 ip)) as [[H3 ->]|[H3 ->]];
      try (exfalso; lra).
    - rewrite Rmult_assoc, Hexp; reflexivity.
    - rewrite Rmult_assoc, Hexp.
      replace (dt1 ip + d2 ip) with 0 by lra.
      replace (- 0 / td) with 0 by (unfold Rdiv; ring).
      rewrite exp_0; ring.
    - replace (dt1 ip + d2 ip) with (dt1 ip) by lra; reflexivity.
    - replace (dt1 ip + d2 ip) with (d2 ip) by lra; reflexivity.
    - reflexivity. }
  split; [apply Hcomp|].
  rewrite Hcomp, module_decay_mass by exact Hip.
  destruct (Rneqb_cases (dt1 ip + - dt1 ip)) as [[H ->]|[H ->]];
    [lra | reflexivity].
Qed.

(** ** What a time step never writes *)

Lemma upd2_row_other {A} (a : Z -> Z -> A) i j v r c :
  r <> i -> upd2 a i j v r c = a r c.
Proof. intros H; unfold upd2; now rewrite upd_other. Qed.

Section MeteoWrites.

(** The writes of the diagnostics of particle [ip] are writes to the rows
    [meteo_rows]; a relation every such write respects holds across the
    body of [module_meteo]. *)
Variable rel : atm_t -> atm_t -> Prop.
Hypothesis rel_refl : forall a, rel a a.
Hypothesis rel_trans : forall a b c, rel a b -> rel b c -> rel a c.
Variable ctl : ctl_t.
Variable ip : Z.
Hypothesis rel_write :
  forall iq v a, In iq (meteo_rows ctl) -> rel a (wr_q iq ip v a).

Lemma q_write_rel iq v a a' :
  In iq (meteo_rows ctl) -> q_write iq ip v a = Some a' -> rel a a'.
Proof.
  intros Hin; unfold q_write.
  destruct (q_in_bounds iq ip); [|discriminate].
  intros [= <-]; now apply rel_write.
Qed.

Lemma set_qnt_rel qnt v a a' :
  In qnt (meteo_rows ctl) -> set_qnt qnt ip v a = Some a' -> rel a a'.
Proof.
  intros Hin; unfold set_qnt.
  destruct (qnt >=? 0)%Z; [now apply q_write_rel|].
  intros [= <-]; apply rel_refl.
Qed.

Lemma obind_rel (o : option atm_t) (k : atm_t -> option atm_t) a a' :
  (forall a1, o = Some a1 -> rel a a1) ->
  (forall a1 a2, k a1 = Some a2 -> rel a1 a2) ->
  obind o k = Some a' -> rel a a'.
Proof.
  intros Ho Hk; destruct o as [a1|]; cbn [obind]; [|discriminate].
  intros E; eapply rel_trans; [apply Ho; reflexivity | eapply Hk; exact E].
Qed.

Lemma meteo_tnat_rel h2o a a' :
  meteo_tnat ctl h2o ip a = Some a' -> rel a a'.
Proof.
  assert (Hin : In (qnt_tnat ctl) (meteo_rows ctl))
    by (unfold meteo_rows; simpl; tauto).
  unfold meteo_tnat.
  destruct (qnt_tnat ctl >=? 0)%Z; [|intros [= <-]; apply rel_refl].
  cbv zeta; apply obind_rel.
  - intros a1; destruct (Rgtb _ 0); [now apply q_write_rel|].
    intros [= <-]; apply rel_refl.
  - intros a1 a2; destruct (Rgtb _ 0); [now apply q_write_rel|].
    intros [= <-]; apply rel_refl.
Qed.

Lemma meteo_tsts_rel a a' : meteo_tsts ctl ip a = Some a' -> rel a a'.
Proof.
  assert (Hin : In (qnt_tsts ctl) (meteo_rows ctl))
    by (unfold meteo_rows; simpl; tauto).
  unfold meteo_tsts.
  destruct (qnt_tsts ctl >=? 0)%Z; [|intros [= <-]; apply rel_refl].
  destruct (q_read a (qnt_tice ctl) ip); cbn [obind]; [|discriminate].
  destruct (q_read a (qnt_tnat ctl) ip); cbn [obind]; [|discriminate].
  now apply q_write_rel.
Qed.

Lemma meteo_ip_rel met0 met1 a a' :
  meteo_ip ctl met0 met1 ip a = Some a' -> rel a a'.
Proof.
  unfold meteo_ip; cbv zeta.
  generalize (intpol_met_time met0 met1 (atm_time a ip) (atm_p a ip)
                (atm_lon a ip) (atm_lat a ip)); intros m.
  revert a a'.
  do 15 (intros a a'; apply obind_rel;
         [intros a1; apply set_qnt_rel; unfold meteo_rows; simpl; tauto
         | clear a a']).
  intros a a'; apply obind_rel.
  - intros a1; apply meteo_tnat_rel.
  - intros a1 a2; apply meteo_tsts_rel.
Qed.

End MeteoWrites.

(** The diagnostics leave the rows that are not theirs, and the particles
    at other indices. *)
Lemma module_meteo_row ctl met0 met1 atm atm' iq i :
  ~ In iq (meteo_rows ctl) ->
  module_meteo ctl met0 met1 atm = Some atm' ->
  atm_q atm' iq i = atm_q atm iq i.
Proof.
  intros Hin E; unfold module_meteo in E.
  apply (for_loop_opt_inv (fun a => atm_q a iq i = atm_q atm iq i)) in E;
    [exact E | reflexivity |].
  intros ip s s' _ Hs Es; rewrite <- Hs.
  apply (meteo_ip_rel (fun a a' => atm_q a' iq i = atm_q a iq i))
    with (ctl := ctl) (ip := ip) (met0 := met0) (met1 := met1);
    [reflexivity | intros; congruence | | exact Es].
  intros iq' v a Hin'; unfold wr_q; cbn [atm_q set_atm_q].
  apply upd2_row_other; intros ->; contradiction.
Qed.

Lemma module_meteo_outside ctl met0 met1 atm atm' j :
  ~ (0 <= j < atm_np atm)%Z ->
  module_meteo ctl met0 met1 atm = Some atm' ->
  same_particle j atm atm'.
Proof.
  intros Hj E; unfold module_meteo in E.
  apply (for_loop_opt_inv (same_particle j atm)) in E;
    [exact E | apply same_particle_refl |].
  intros ip s s' Hip Hs Es.
  apply (same_particle_trans j atm s); [exact Hs|].
  apply (meteo_ip_rel (same_particle j))
    with (ctl := ctl) (ip := ip) (met0 := met0) (met1 := met1);
    [apply same_particle_refl | apply same_particle_trans | | exact Es].
  intros iq v a _; apply same_wr_q; lia.
Qed.

Lemma module_decay_row ctl atm dt iq i :
  iq <> qnt_m ctl ->
  atm_q (module_decay ctl atm dt) iq i = atm_q atm iq i.
Proof.
  intros Hne; unfold module_decay.
  apply (for_loop_inv (fun a => atm_q a iq i = atm_q atm iq i));
    [reflexivity|].
  intros ip s _ Hs; rewrite <- Hs; unfold decay_ip.
  destruct (Rneqb (dt ip) 0); [|reflexivity].
  cbv zeta; unfold wr_q; cbn [atm_q set_atm_q].
  now apply upd2_row_other.
Qed.

(** A loop over the particles leaves the indices outside the ensemble
    alone. *)
Lemma for_loop_outside (body : Z -> atm_t -> atm_t) n atm j :
  ~ (0 <= j < n)%Z ->
  (forall ip a, ip <> j -> same_particle j a (body ip a)) ->
  same_particle j atm (for_loop n body atm).
Proof.
  intros Hj Hother.
  apply for_loop_inv; [apply same_particle_refl|].
  intros ip s Hip Hs; apply (same_particle_trans j atm s); [exact Hs|].
  apply Hother; lia.
Qed.

Lemma module_position_outside fuel met0 met1 atm dt atm' j :
  ~ (0 <= j < atm_np atm)%Z ->
  module_position fuel met0 met1 atm dt = Some atm' ->
  same_particle j atm atm'.
Proof.
  intros Hj E; unfold module_position in E.
  apply (for_loop_opt_inv (same_particle j atm)) in E;
    [exact E | apply same_particle_refl |].
  intros ip s s' Hip Hs Es.
  eapply same_particle_trans; [exact Hs|].
  eapply position_ip_other; [|exact Es]; lia.
Qed.

(** X13: what a whole time step leaves alone.  The number of particles
    and the isosurface data (saved values and balloon series) are never
    written; the cache of the mesoscale diffusion is written only when that
    diffusion is switched on; a row of the quantity array is written only
    if it is the mass with the decay switched on, or one of the rows of the
    diagnostics with their output switched on; and nothing is written at an
    index outside the ensemble. *)
Theorem X13_step_footprint (pfuel : nat) (ctl : ctl_t) (met0 met1 : met_t)
  (t : R) (rs_turb rs_meso : Z -> R) (atm : atm_t) (dt : Z -> R)
  (atm' : atm_t) (dt' : Z -> R) :
  timestep pfuel ctl met0 met1 t rs_turb rs_meso (atm, dt) = Some (atm', dt') ->
  keeps F_np atm atm'
  /\ keeps F_iso atm atm'
  /\ (turb_mesox ctl <= 0 -> turb_mesoz ctl <= 0 -> keeps F_cache atm atm')
  /\ (forall iq i,
        met_dt_out ctl <= 0 \/ ~ In iq (meteo_rows ctl) ->
        iq <> qnt_m ctl \/ tdec_trop ctl <= 0 \/ tdec_strat ctl <= 0
          \/ (qnt_m ctl < 0)%Z ->
        atm_q atm' iq i = atm_q atm iq i)
  /\ forall j, ~ (0 <= j < atm_np atm)%Z -> same_particle j atm atm'.
Proof.
  unfold timestep.
  pose proof (time_steps_atm ctl t (atm, dt)) as Hfst.
  destruct (time_steps ctl t (atm, dt)) as [a0 d0].
  cbn [fst] in Hfst; subst a0.
  destruct (module_position pfuel met0 met1 atm d0) as [a1|] eqn:E1;
    cbn [obind]; [|discriminate].
  cbv zeta.
  set (a2 := module_advection met0 met1 a1 d0).
  match goal with
  | |- context [if ?b then module_diffusion_turb ctl a2 d0 rs_turb else a2] =>
      set (a3 := if b then module_diffusion_turb ctl a2 d0 rs_turb else a2)
  end.
  set (meso := Rgtb (turb_mesox ctl) 0 || Rgtb (turb_mesoz ctl) 0).
  set (a4 := if meso then module_diffusion_meso ctl met0 met1 a3 d0 rs_meso
             else a3).
  match goal with
  | |- context [if ?b then module_sedi ctl met0 met1 a4 d0 else a4] =>
      set (a5 := if b then module_sedi ctl met0 met1 a4 d0 else a4)
  end.
  match goal with
  | |- context [if ?b then module_isosurf ctl met0 met1 a5 else a5] =>
      set (a6 := if b then module_isosurf ctl met0 met1 a5 else a5)
  end.
  destruct (module_position pfuel met0 met1 a6 d0) as [a7|] eqn:E7;
    cbn [obind]; [|discriminate].
  match goal with
  | |- context [if ?b then module_meteo ctl met0 met1 a7 else Some a7] =>
      set (diag := b);
      destruct (if diag then module_meteo ctl met0 met1 a7 else Some a7)
        as [a8|] eqn:E8
  end; cbn [obind]; [|discriminate].
  set (decay := Rgtb (tdec_trop ctl) 0 && Rgtb (tdec_strat ctl) 0
                && (qnt_m ctl >=? 0)%Z).
  set (a9 := if decay then module_decay ctl a8 d0 else a8).
  intros [= <- <-].
  (* the modules that move the particles *)
  assert (K7 : forall f, f = F_np \/ f = F_iso \/ f = F_q ->
                         keeps f atm a7).
  { intros f Hf.
    assert (Hq : f <> F_lon /\ f <> F_lat /\ f <> F_p
                 /\ f <> F_time /\ f <> F_up /\ f <> F_vp /\ f <> F_wp
                 /\ f <> F_cache)
      by (destruct Hf as [-> | [-> | ->]]; repeat split; discriminate).
    destruct Hq as (Hlon & Hlat & Hp & Ht & Hup & Hvp & Hwp & Hc).
    apply (keeps_trans f atm a1);
      [eapply module_position_keeps; eassumption|].
    apply (keeps_trans f a1 a2); [now apply module_advection_keeps|].
    apply (keeps_trans f a2 a3);
      [apply guarded_keeps; now apply module_diffusion_turb_keeps|].
    apply (keeps_trans f a3 a4);
      [apply guarded_keeps; apply module_diffusion_meso_keeps; tauto|].
    apply (keeps_trans f a4 a5);
      [apply guarded_keeps; now apply module_sedi_keeps|].
    apply (keeps_trans f a5 a6);
      [apply guarded_keeps; now apply module_isosurf_keeps|].
    eapply module_position_keeps; eassumption. }
  assert (K8 : forall f, f <> F_q -> keeps f a7 a8).
  { intros f Hf; destruct diag.
    - eapply module_meteo_keeps; eassumption.
    - injection E8 as <-; apply keeps_refl. }
  assert (K9 : forall f, f <> F_q -> keeps f a8 a9)
    by (intros f Hf; apply guarded_keeps; now apply module_decay_keeps).
  assert (Kall : forall f, f = F_np \/ f = F_iso -> keeps f atm a9).
  { intros f Hf.
    assert (Hq : f <> F_q) by (destruct Hf as [-> | ->]; discriminate).
    apply (keeps_trans f atm a7); [apply K7; tauto|].
    apply (keeps_trans f a7 a8); [now apply K8 | now apply K9]. }
  split; [apply Kall; tauto|]; split; [apply Kall; tauto|]; split; [|split].
  - (* the cache *)
    intros Hx Hz.
    assert (Em : meso = false).
    { unfold meso.
      destruct (Rgtb_spec (turb_mesox ctl) 0); [lra|].
      destruct (Rgtb_spec (turb_mesoz ctl) 0); [lra | reflexivity]. }
    assert (Hc : forall f, f = F_cache -> f <> F_lon /\ f <> F_lat /\ f <> F_p
                 /\ f <> F_time /\ f <> F_up /\ f <> F_vp /\ f <> F_wp
                 /\ f <> F_q)
      by (intros f ->; repeat split; discriminate).
    destruct (Hc F_cache eq_refl) as (Hlon & Hlat & Hp & Ht & Hup & Hvp & Hwp
                                      & Hq).
    apply (keeps_trans F_cache atm a1);
      [eapply module_position_keeps; eassumption|].
    apply (keeps_trans F_cache a1 a2); [now apply module_advection_keeps|].
    apply (keeps_trans F_cache a2 a3);
      [apply guarded_keeps; now apply module_diffusion_turb_keeps|].
    apply (keeps_trans F_cache a3 a4);
      [unfold a4; rewrite Em; apply keeps_refl|].
    apply (keeps_trans F_cache a4 a5);
      [apply guarded_keeps; now apply module_sedi_keeps|].
    apply (keeps_trans F_cache a5 a6);
      [apply guarded_keeps; now apply module_isosurf_keeps|].
    apply (keeps_trans F_cache a6 a7);
      [eapply module_position_keeps; eassumption|].
    apply (keeps_trans F_cache a7 a8); [now apply K8 | now apply K9].
  - (* the quantities *)
    intros iq i Hdiag Hdecay.
    assert (Q7 : atm_q a7 = atm_q atm) by (apply (K7 F_q); tauto).
    assert (Q8 : atm_q a8 iq i = atm_q a7 iq i).
    { destruct diag eqn:Ed.
      - destruct Hdiag as [Hout|Hrow];
          [|eapply module_meteo_row; eassumption].
        unfold diag in Ed.
        destruct (Rgtb_spec (met_dt_out ctl) 0); [lra | discriminate].
      - now injection E8 as <-. }
    assert (Q9 : atm_q a9 iq i = atm_q a8 iq i).
    { unfold a9; destruct decay eqn:Ed; [|reflexivity].
      destruct Hdecay as [Hrow|Hoff]; [now apply module_decay_row|].
      unfold decay in Ed.
      apply andb_true_iff in Ed as [Ed Em].
      apply andb_true_iff in Ed as [Et Es].
      destruct (Rgtb_spec (tdec_trop ctl) 0); [|discriminate].
      destruct (Rgtb_spec (tdec_strat ctl) 0); [|discriminate].
      destruct Hoff as [Hoff|[Hoff|Hoff]]; [lra | lra | lia]. }
    now rewrite Q9, Q8, Q7.
  - (* indices outside the ensemble *)
    intros j Hj.
    pose proof (K7 F_np (or_introl eq_refl)) as N7; cbn [keeps] in N7.
    assert (N1 : atm_np a1 = atm_np atm)
      by (apply (module_position_keeps F_np) in E1; [exact E1 | | |];
          discriminate).
    assert (N2 : atm_np a2 = atm_np a1)
      by (apply (module_advection_keeps F_np); discriminate).
    assert (N3 : keeps F_np a2 a3)
      by (apply guarded_keeps, module_diffusion_turb_keeps; discriminate).
    assert (N4 : keeps F_np a3 a4)
      by (apply guarded_keeps, module_diffusion_meso_keeps; tauto).
    assert (N5 : keeps F_np a4 a5)
      by (apply guarded_keeps, module_sedi_keeps; discriminate).
    assert (N6 : keeps F_np a5 a6)
      by (apply guarded_keeps, module_isosurf_keeps; discriminate).
    assert (N8 : keeps F_np a7 a8) by (apply K8; discriminate).
    cbn [keeps] in N3, N4, N5, N6, N8.
    apply (same_particle_trans j atm a1);
      [eapply module_position_outside; eassumption|].
    apply (same_particle_trans j a1 a2).
    { apply for_loop_outside; [lia|].
      intros ip a Hne; apply advection_ip_other; auto. }
    apply (same_particle_trans j a2 a3).
    { apply guarded_same, for_loop_outside; [lia|].
      intros ip a Hne; apply diffusion_turb_ip_other; auto. }
    apply (same_particle_trans j a3 a4).
    { apply guarded_same, for_loop_outside; [lia|].
      intros ip a Hne; apply diffusion_meso_ip_other; auto. }
    apply (same_particle_trans j a4 a5).
    { apply guarded_same, for_loop_outside; [lia|].
      intros ip a Hne; apply sedi_ip_other; auto. }
    apply (same_particle_trans j a5 a6).
    { apply guarded_same, for_loop_outside; [lia|].
      intros ip a Hne; apply isosurf_ip_other; auto. }
    apply (same_particle_trans j a6 a7).
    { eapply module_position_outside; [|eassumption]; lia. }
    apply (same_particle_trans j a7 a8).
    { destruct diag.
      - eapply module_meteo_outside; [|eassumption]; lia.
      - injection E8 as <-; apply same_particle_refl. }
    apply guarded_same, for_loop_outside; [lia|].
    intros ip a Hne; apply decay_ip_other; auto.
Qed.

(** ** Diagnostics: the rows after the module *)

Lemma obind_some {A B} (o : option A) (k : A -> option B) b :
  obind o k = Some b -> exists a, o = Some a /\ k a = Some b.
Proof. destruct o as [a|]; cbn [obind]; [eauto | discriminate]. Qed.

(** The last statement of the body of [module_meteo] is the one of
    T_STS. *)
Lemma meteo_ip_last ctl met0 met1 ip a a' :
  meteo_ip ctl met0 met1 ip a = Some a' ->
  exists a1, meteo_tsts ctl ip a1 = Some a'.
Proof.
  unfold meteo_ip; cbv zeta; intros E.
  do 16 (apply obind_some in E as (? & _ & E)).
  eauto.
Qed.

Lemma meteo_tsts_mean ctl ip a a' :
  (qnt_tsts ctl >= 0)%Z ->
  qnt_tice ctl <> qnt_tsts ctl -> qnt_tnat ctl <> qnt_tsts ctl ->
  meteo_tsts ctl ip a = Some a' ->
  atm_q a' (qnt_tsts ctl) ip
  = 0.5 * (atm_q a' (qnt_tice ctl) ip + atm_q a' (qnt_tnat ctl) ip).
Proof.
  intros Hsts Hice Hnat; unfold meteo_tsts, q_read, q_write.
  replace (qnt_tsts ctl >=? 0)%Z with true by (symmetry; lia).
  destruct (q_in_bounds (qnt_tice ctl) ip); cbn [obind]; [|discriminate].
  destruct (q_in_bounds (qnt_tnat ctl) ip); cbn [obind]; [|discriminate].
  destruct (q_in_bounds (qnt_tsts ctl) ip); [|discriminate].
  intros [= <-]; unfold wr_q; cbn [atm_q set_atm_q].
  now rewrite upd2_same, !upd2_row_other by assumption.
Qed.

(** X14: when the rows of the diagnostics lie inside the quantity array
    and T_STS has a row of its own, [module_meteo] goes through and leaves
    in the T_STS row of every particle the mean of what the rows of T_ice
    and T_NAT then hold for it. *)
Theorem X14_tsts_is_mean (ctl : ctl_t) (met0 met1 : met_t) (atm : atm_t) :
  meteo_rows_ok ctl ->
  (atm_np atm <= NP)%Z ->
  (qnt_tsts ctl >= 0)%Z ->
  qnt_tice ctl <> qnt_tsts ctl -> qnt_tnat ctl <> qnt_tsts ctl ->
  exists atm',
    module_meteo ctl met0 met1 atm = Some atm'
    /\ forall ip, (0 <= ip < atm_np atm)%Z ->
         atm_q atm' (qnt_tsts ctl) ip
         = 0.5 * (atm_q atm' (qnt_tice ctl) ip
                  + atm_q atm' (qnt_tnat ctl) ip).
Proof.
  intros Hrows Hnp Hsts Hice Hnat.
  destruct (module_meteo_ok ctl met0 met1 atm Hrows Hnp) as (atm' & E).
  exists atm'; split; [exact E|].
  intros ip Hip; unfold module_meteo in E.
  destruct (for_loop_opt_local (same_particle ip) (same_particle_refl ip)
              (same_particle_trans ip) (atm_np atm) (meteo_ip ctl met0 met1)
              atm atm' ip Hip) as (a1 & a2 & _ & E2 & H2); [|exact E|].
  { intros j a b Hne Eb.
    apply (meteo_ip_rel (same_particle ip))
      with (ctl := ctl) (ip := j) (met0 := met0) (met1 := met1);
      [apply same_particle_refl | apply same_particle_trans | | exact Eb].
    intros iq v s _; apply same_wr_q; auto. }
  destruct H2 as (_ & _ & _ & _ & Hq & _); rewrite !Hq.
  apply meteo_ip_last in E2 as (a3 & E3).
  eapply meteo_tsts_mean; eassumption.
Qed.

(** ** Enforcing the isosurface twice *)

Lemma balloon_pressure_same (a b : atm_t) (t : R) :
  keeps F_iso a b -> balloon_pressure b t = balloon_pressure a t.
Proof.
  intros (Ev & Ets & Eps & En); unfold balloon_pressure.
  now rewrite Ets, Eps, En.
Qed.

(** In the modes 1 and 4 the pressure of the surface is read off the saved
    value, or off the balloon series at the time of the particle. *)
Lemma module_isosurf_fixed ctl met0 met1 atm ip :
  isosurf ctl = 1%Z \/ isosurf ctl = 4%Z ->
  (0 <= ip < atm_np atm)%Z ->
  atm_p (module_isosurf ctl met0 met1 atm) ip
  = if (isosurf ctl =? 1)%Z then atm_iso_var atm ip
    else balloon_pressure atm (atm_time atm ip).
Proof.
  intros Hm Hip; rewrite module_isosurf_p by exact Hip.
  unfold isosurf_ip.
  destruct Hm as [-> | ->]; cbn [Z.eqb Pos.eqb]; unfold wr_p;
    cbn [atm_p set_atm_p]; now rewrite upd_same.
Qed.

(** X15: in the isosurface modes 1 and 4 the pressure [module_isosurf]
    gives a particle depends only on the isosurface data and on the time of
    the particle: whatever the other modules did to its pressure and
    position before is overridden, the meteorological fields play no part,
    and enforcing the surface a second time changes nothing. *)
Theorem X15_isosurf_overrides (ctl : ctl_t) (met0 met1 met0' met1' : met_t)
  (atm atm' : atm_t) (ip : Z) :
  isosurf ctl = 1%Z \/ isosurf ctl = 4%Z ->
  (0 <= ip < atm_np atm)%Z ->
  keeps F_np atm atm' -> keeps F_time atm atm' -> keeps F_iso atm atm' ->
  atm_p (module_isosurf ctl met0' met1' atm') ip
  = atm_p (module_isosurf ctl met0 met1 atm) ip
  /\ atm_p (module_isosurf ctl met0' met1'
              (module_isosurf ctl met0 met1 atm)) ip
     = atm_p (module_isosurf ctl met0 met1 atm) ip.
Proof.
  intros Hm Hip Hn Ht Hiso.
  assert (Hdep : forall m0 m1 m0' m1' b,
            keeps F_np atm b -> keeps F_time atm b -> keeps F_iso atm b ->
            atm_p (module_isosurf ctl m0' m1' b) ip
            = atm_p (module_isosurf ctl m0 m1 atm) ip).
  { intros m0 m1 m0' m1' b Kn Kt Ki.
    pose proof (balloon_pressure_same atm b (atm_time atm ip) Ki) as Eb.
    cbn [keeps] in Kn, Kt, Ki; destruct Ki as (Kv & _).
    rewrite !module_isosurf_fixed by (rewrite ?Kn; assumption).
    now rewrite Kt, Kv, Eb. }
  split; [now apply Hdep|].
  apply Hdep; apply module_isosurf_keeps; discriminate.
Qed.

(** ** Mesoscale diffusion: the wind perturbations *)

Lemma diffusion_meso_ip_valid ctl met0 met1 dt rs ip a :
  cache_valid met0 met1 a ->
  cache_valid met0 met1 (diffusion_meso_ip ctl met0 met1 dt rs ip a).
Proof.
  intros Ha.
  destruct (Rneqb (dt ip) 0) eqn:Edt.
  - assert (Hdt : dt ip <> 0)
      by (destruct (Rneqb_spec (dt ip) 0); congruence).
    pose proof (diffusion_meso_ip_cache ctl met0 met1 dt rs ip a Hdt) as K.
    eapply cache_valid_keeps; [exact K|].
    now apply meso_cache_valid.
  - unfold diffusion_meso_ip; now rewrite Edt.
Qed.

(** What the body of the module gives a particle it moves, when the cache
    is valid. *)
Lemma diffusion_meso_ip_values ctl met0 met1 dt rs ip a :
  cache_valid met0 met1 a ->
  dt ip <> 0 ->
  let a' := diffusion_meso_ip ctl met0 met1 dt rs ip a in
  let ix := locate_reg (met_lon met0) (met_nx met0) (atm_lon a ip) in
  let iy := locate_reg (met_lat met0) (met_ny met0) (atm_lat a ip) in
  let iz := locate_irr (met_p met0) (met_np met0) (atm_p a ip) in
  let r := meso_r ctl (dt ip) in
  let r2 := sqrt (meso_radicand ctl (dt ip)) in
  (0 < turb_mesox ctl ->
   atm_up a' ip
   = r * atm_up a ip
     + r2 * rs (3 * ip)%Z * turb_mesox ctl
       * stddev (corners (met_u met0) (met_u met1) ix iy iz) 16
   /\ atm_vp a' ip
      = r * atm_vp a ip
        + r2 * rs (3 * ip + 1)%Z * turb_mesox ctl
          * stddev (corners (met_v met0) (met_v met1) ix iy iz) 16)
  /\ (0 < turb_mesoz ctl ->
      atm_wp a' ip
      = r * atm_wp a ip
        + r2 * rs (3 * ip + 2)%Z * turb_mesoz ctl
          * stddev (corners (met_w met0) (met_w met1) ix iy iz) 16
      /\ atm_p a' ip = atm_p a ip + atm_wp a' ip * dt ip).
Proof.
  intros Ha Hdt a' ix iy iz r r2; unfold a', diffusion_meso_ip.
  destruct (Rneqb_spec (dt ip) 0) as [_|Hn]; [|contradiction].
  cbv zeta; fold ix iy iz r r2.
  destruct (meso_cache_valid met0 met1 ix iy iz a Ha) as (V & S & _).
  destruct (V ix iy iz S) as (Cu & Cv & Cw).
  pose proof (meso_cache_keeps F_up met0 met1 ix iy iz a) as Kup.
  pose proof (meso_cache_keeps F_vp met0 met1 ix iy iz a) as Kvp.
  pose proof (meso_cache_keeps F_wp met0 met1 ix iy iz a) as Kwp.
  pose proof (meso_cache_keeps F_p met0 met1 ix iy iz a) as Kp.
  cbn [keeps] in Kup, Kvp, Kwp, Kp.
  specialize (Kup ltac:(discriminate)); specialize (Kvp ltac:(discriminate));
  specialize (Kwp ltac:(discriminate)); specialize (Kp ltac:(discriminate)).
  revert Cu Cv Cw Kup Kvp Kwp Kp.
  generalize (meso_cache met0 met1 ix iy iz a); intros ac.
  unfold float_cast; intros Cu Cv Cw Kup Kvp Kwp Kp.
  split.
  - intros Hx.
    destruct (Rgtb_spec (turb_mesox ctl) 0) as [_|Hn]; [|lra].
    destruct (Rgtb (turb_mesoz ctl) 0); atm_simpl;
      rewrite Cu, Cv, Kup, Kvp; split; reflexivity.
  - intros Hz.
    destruct (Rgtb_spec (turb_mesoz ctl) 0) as [_|Hn]; [|lra].
    destruct (Rgtb (turb_mesox ctl) 0); atm_simpl;
      rewrite Cw, Kwp, Kp; split; reflexivity.
Qed.

(** The damped perturbation is bounded by the old one and the fresh
    one. *)
Lemma ar1_bound r r2 x n :
  - 1 <= r <= 1 -> 0 <= r2 <= 1 ->
  Rabs (r * x + r2 * n) <= Rabs x + Rabs n.
Proof.
  intros Hr Hr2.
  eapply Rle_trans; [apply Rabs_triang|].
  rewrite !Rabs_mult.
  assert (H1 : Rabs r <= 1) by (apply Rabs_le; lra).
  assert (H2 : Rabs r2 <= 1) by (apply Rabs_le; lra).
  pose proof (Rabs_pos x); pose proof (Rabs_pos n).
  pose proof (Rabs_pos r); pose proof (Rabs_pos r2).
  nra.
Qed.

Lemma meso_r_bounds ctl dt :
  0 < dt_met ctl -> Rabs dt <= dt_met ctl ->
  - 1 <= meso_r ctl dt <= 1
  /\ 0 <= sqrt (meso_radicand ctl dt) <= 1.
Proof.
  intros Hmet Hdt.
  assert (Hq : 0 <= Rabs dt / dt_met ctl <= 1).
  { pose proof (Rabs_pos dt) as Hp. split.
    - apply Rmult_le_pos; [exact Hp | left; now apply Rinv_0_lt_compat].
    - apply (Rmult_le_reg_r (dt_met ctl)); [exact Hmet|].
      unfold Rdiv; rewrite Rmult_assoc, Rinv_l by lra; lra. }
  assert (Hr : - 1 <= meso_r ctl dt <= 1).
  { unfold meso_r.
    replace (2 * Rabs dt / dt_met ctl) with (2 * (Rabs dt / dt_met ctl))
      by (unfold Rdiv; ring).
    lra. }
  split; [exact Hr|]; split; [apply sqrt_pos|].
  rewrite <- sqrt_1; apply sqrt_le_1_alt.
  unfold meso_radicand; nra.
Qed.


(** ** What each module writes *)

(** X17: the fields each module can write, whole arrays compared.  The
    advection writes at most the times, longitudes, latitudes and
    pressures; the turbulent diffusion and the position check the
    longitudes, latitudes and pressures; the mesoscale diffusion these
    three, the wind perturbations and its cache; the sedimentation and the
    isosurface module the pressures only; the decay the mass row of the
    quantities only; the diagnostics the quantities only.  No module
    changes the number of particles or the isosurface data. *)
Theorem X17_module_write_sets (fuel : nat) (ctl : ctl_t) (met0 met1 : met_t)
  (atm : atm_t) (dt rs : Z -> R) :
  (forall f, f <> F_time -> f <> F_lon -> f <> F_lat -> f <> F_p ->
             keeps f atm (module_advection met0 met1 atm dt))
  /\ (forall f, f <> F_lon -> f <> F_lat -> f <> F_p ->
                keeps f atm (module_diffusion_turb ctl atm dt rs))
  /\ (forall f, f <> F_lon -> f <> F_lat -> f <> F_p ->
                f <> F_up -> f <> F_vp -> f <> F_wp -> f <> F_cache ->
                keeps f atm (module_diffusion_meso ctl met0 met1 atm dt rs))
  /\ (forall f, f <> F_p -> keeps f atm (module_sedi ctl met0 met1 atm dt))
  /\ (forall f, f <> F_p -> keeps f atm (module_isosurf ctl met0 met1 atm))
  /\ (forall atm', module_position fuel met0 met1 atm dt = Some atm' ->
        forall f, f <> F_lon -> f <> F_lat -> f <> F_p -> keeps f atm atm')
  /\ (forall atm', module_meteo ctl met0 met1 atm = Some atm' ->
        forall f, f <> F_q -> keeps f atm atm')
  /\ (forall f, f <> F_q -> keeps f atm (module_decay ctl atm dt))
  /\ (forall iq i, iq <> qnt_m ctl ->
        atm_q (module_decay ctl atm dt) iq i = atm_q atm iq i).
Proof.
  split; [intros; now apply module_advection_keeps|].
  split; [intros; now apply module_diffusion_turb_keeps|].
  split.
  { intros f; intros; apply module_diffusion_meso_keeps.
    destruct f; try contradiction; tauto. }
  split; [intros; now apply module_sedi_keeps|].
  split; [intros; now apply module_isosurf_keeps|].
  split; [intros; eapply module_position_keeps; eassumption|].
  split; [intros; eapply module_meteo_keeps; eassumption|].
  split; [intros; now apply module_decay_keeps|].
  intros; now apply module_decay_row.
Qed.

(** ** Decay: which lifetime applies *)

Lemma tropo_weight_troposphere pt p :
  0 < pt -> pt / 0.866877899 <= p -> tropo_weight pt p = 1.
Proof.
  intros Hpt Hp.
  pose proof (tropo_thresholds pt Hpt) as Hlt.
  destruct (Rle_lt_or_eq_dec _ _ Hp) as [Hgt|Heq].
  - unfold tropo_weight.
    destruct (Rgtb_spec p (pt / 0.866877899)); [reflexivity | exfalso; lra].
  - rewrite tropo_weight_between by lra.
    rewrite <- Heq; unfold Rdiv at 1; apply Rinv_r; lra.
Qed.

Lemma tropo_weight_stratosphere pt p :
  0 < pt -> p <= pt * 0.866877899 -> tropo_weight pt p = 0.
Proof.
  intros Hpt Hp.
  pose proof (tropo_thresholds pt Hpt) as Hlt.
  destruct (Rle_lt_or_eq_dec _ _ Hp) as [Hl|Heq].
  - unfold tropo_weight.
    destruct (Rgtb_spec p (pt / 0.866877899)); [exfalso; lra|].
    destruct (Rltb_spec p (pt * 0.866877899)); [reflexivity | exfalso; lra].
  - rewrite tropo_weight_between by lra.
    rewrite Heq; unfold Rdiv, Rminus; rewrite Rplus_opp_r; ring.
Qed.

(** X18: the lifetime [module_decay] uses for a particle it moves, with a
    positive tropopause pressure [pt] at the particle.  At pressures of at
    least [pt / 0.866877899] the mass is multiplied by
    [exp (- dt / tdec_trop)], at pressures of at most [pt * 0.866877899]
    by [exp (- dt / tdec_strat)]; everywhere the lifetime lies between the
    two configured lifetimes. *)
Theorem X18_decay_regimes (ctl : ctl_t) (atm : atm_t) (dt : Z -> R) (ip : Z) :
  (0 <= ip < atm_np atm)%Z ->
  dt ip <> 0 ->
  let pt := clim_tropo (atm_time atm ip) (atm_lat atm ip) in
  let mass := atm_q atm (qnt_m ctl) ip in
  let mass' := atm_q (module_decay ctl atm dt) (qnt_m ctl) ip in
  0 < pt ->
  (pt / 0.866877899 <= atm_p atm ip ->
   mass' = mass * exp (- dt ip / tdec_trop ctl))
  /\ (atm_p atm ip <= pt * 0.866877899 ->
      mass' = mass * exp (- dt ip / tdec_strat ctl))
  /\ mass' = mass * exp (- dt ip / decay_tdec ctl atm ip)
  /\ Rmin (tdec_trop ctl) (tdec_strat ctl) <= decay_tdec ctl atm ip
     <= Rmax (tdec_trop ctl) (tdec_strat ctl).
Proof.
  intros Hip Hdt pt mass mass' Hpt.
  assert (Hm : mass' = mass * exp (- dt ip / decay_tdec ctl atm ip)).
  { unfold mass'; rewrite module_decay_mass by exact Hip.
    destruct (Rneqb_cases (dt ip)) as [[_ ->]|[H0 _]];
      [reflexivity | contradiction]. }
  split; [|split; [|split; [exact Hm|]]].
  - intros Hp; rewrite Hm; unfold decay_tdec; cbv zeta; fold pt.
    rewrite tropo_weight_troposphere by assumption.
    do 3 f_equal; ring.
  - intros Hp; rewrite Hm; unfold decay_tdec; cbv zeta; fold pt.
    rewrite tropo_weight_stratosphere by assumption.
    do 3 f_equal; ring.
  - unfold decay_tdec; cbv zeta; fold pt.
    assert (Hne : pt <> 0) by lra.
    pose proof (tropo_weight_range pt (atm_p atm ip) Hne) as Hw.
    unfold Rmin, Rmax.
    destruct (Rle_dec (tdec_trop ctl) (tdec_strat ctl)); split; nra.
Qed.

End Properties.

(** * The engine on the small run *)

#[local] Existing Instance ex_lib.

(** C1 on the small run: at the step time 10 the particle, whose time is 0
    in the window [0, 100], gets the increment 10 - 0. *)
Lemma C1_time_steps_witness :
  (0 <= 0 < atm_np (ex_atm 1))%Z
  /\ snd (time_steps (ex_ctl 0 (- 1) (- 1) (- 1)) 10
                     (ex_atm 1, fun _ => 0)) 0%Z = 10 - 0.
Proof.
  assert (H : (0 <= 0 < atm_np (ex_atm 1))%Z) by (simpl; lia).
  split; [exact H|].
  destruct (C1_time_steps (ex_ctl 0 (- 1) (- 1) (- 1)) 10 (ex_atm 1)
              (fun _ => 0) 0%Z H) as (Hin & _).
  apply Hin; simpl; lra.
Defined.

(** C2 on the small run: with [dt = 0] advection leaves the particle as it
    is. *)
Lemma C2_zero_dt_frame_witness :
  (2 <= 2)%nat
  /\ (fun _ : Z => 0) 0%Z = 0
  /\ same_particle 0 (ex_atm 1)
       (module_advection ex_met ex_met (ex_atm 1) (fun _ => 0)).
Proof.
  assert (H1 : (2 <= 2)%nat) by lia.
  assert (H2 : (fun _ : Z => 0) 0%Z = 0) by reflexivity.
  split; [exact H1|]; split; [exact H2|].
  exact (proj1 (C2_zero_dt_frame 2 (ex_ctl 0 (- 1) (- 1) (- 1)) ex_met ex_met
                  (ex_atm 1) (fun _ => 0) (fun _ => 0) 0%Z H1 H2)).
Defined.

(** C3, as stated for every particle, fails: a particle that is not moved
    in the step ([dt = 0]) keeps its longitude 500 and latitude 100. *)
Lemma C3_unmoved_particle_out_of_range :
  module_position 2 ex_met ex_met (ex_atm 1) (fun _ => 0) = Some (ex_atm 1)
  /\ ~ (- 180 <= atm_lon (ex_atm 1) 0%Z < 180
        /\ - 90 <= atm_lat (ex_atm 1) 0%Z <= 90).
Proof.
  split.
  - unfold module_position.
    change (atm_np (ex_atm 1)) with (0 + 1)%Z.
    rewrite for_loop_opt_succ by lia.
    unfold for_loop_opt at 1; cbn [Z.to_nat seq map fold_left obind].
    now rewrite position_ip_skip.
  - simpl; lra.
Qed.

(** C3 (amended) on the small run: with [dt = 1] the particle at longitude
    500 and latitude 100 is brought into the range. *)
Lemma C3_position_range_witness :
  (2 <= 2)%nat
  /\ (0 <= 0 < atm_np (ex_atm 1))%Z
  /\ (fun _ : Z => 1) 0%Z <> 0
  /\ exists atm',
       module_position 2 ex_met ex_met (ex_atm 1) (fun _ => 1) = Some atm'
       /\ - 180 <= atm_lon atm' 0%Z < 180
       /\ - 90 <= atm_lat atm' 0%Z <= 90.
Proof.
  assert (H1 : (2 <= 2)%nat) by lia.
  assert (H2 : (0 <= 0 < atm_np (ex_atm 1))%Z) by (simpl; lia).
  assert (H3 : (fun _ : Z => 1) 0%Z <> 0) by (simpl; lra).
  split; [exact H1|]; split; [exact H2|]; split; [exact H3|].
  exact (C3_position_range 2 ex_met ex_met (ex_atm 1) (fun _ => 1) 0%Z
           H1 H2 H3).
Defined.

(** C4, as stated with the constant 0.8669, fails: at the tropopause
    pressure 100 the weight is not 1 at [100 / 0.8669] and not 0 at
    [100 * 0.8669]. *)
Lemma C4_rounded_constant_fails :
  tropo_weight 100 (100 / 0.8669) <> 1
  /\ tropo_weight 100 (100 * 0.8669) <> 0.
Proof.
  split.
  - rewrite tropo_weight_between by lra.
    intros H.
    apply (f_equal (fun x => x * (100 / 0.866877899 - 100 * 0.866877899))) in H.
    unfold Rdiv at 1 in H.
    rewrite Rmult_assoc, Rinv_l in H by lra.
    lra.
  - rewrite tropo_weight_between by lra.
    intros H.
    apply (f_equal (fun x => x * (100 / 0.866877899 - 100 * 0.866877899))) in H.
    unfold Rdiv at 1 in H.
    rewrite Rmult_assoc, Rinv_l in H by lra.
    lra.
Qed.

(** C4 (amended) at the tropopause pressure 100. *)
Lemma C4_tropo_weight_witness :
  0 < 100
  /\ tropo_weight 100 (100 / 0.866877899) = 1
  /\ tropo_weight 100 (100 * 0.866877899) = 0.
Proof.
  assert (H : 0 < 100) by lra.
  split; [exact H|].
  destruct (C4_tropo_weight 100 H) as (H1 & H0 & _).
  split; [exact H1 | exact H0].
Defined.

(** C5 on the small run: in mode 1 the particle is back at its pressure 500
    after the initialisation and one enforcement. *)
Lemma C5_isosurf_roundtrip_witness :
  (0 <= 0 < atm_np (ex_atm 1))%Z
  /\ (1 <= isosurf (ex_ctl 1 (- 1) (- 1) (- 1)) <= 4)%Z
  /\ exists atm1,
       module_isosurf_init (ex_ctl 1 (- 1) (- 1) (- 1)) ex_met ex_met None
         (ex_atm 1) = Ok atm1
       /\ atm_p (module_isosurf (ex_ctl 1 (- 1) (- 1) (- 1)) ex_met ex_met
                   atm1) 0%Z = 500.
Proof.
  assert (H1 : (0 <= 0 < atm_np (ex_atm 1))%Z) by (simpl; lia).
  assert (H2 : (1 <= isosurf (ex_ctl 1 (- 1) (- 1) (- 1)) <= 4)%Z)
    by (simpl; lia).
  split; [exact H1|]; split; [exact H2|].
  destruct (C5_isosurf_roundtrip (ex_ctl 1 (- 1) (- 1) (- 1)) ex_met ex_met
              None (ex_atm 1) 0%Z H1 H2) as (Hex & Hall).
  destruct Hex as (atm1 & E); [simpl; lia|].
  exists atm1; split; [exact E|].
  destruct (Hall atm1 E) as (Hm1 & _).
  destruct (Hm1 eq_refl) as (_ & _ & Hp); exact Hp.
Defined.

(** The times 0, 10, ... of the balloon series of the small run
    increase. *)
Lemma ex_series_increasing (i j : Z) :
  (0 <= i < j)%Z -> (j < atm_iso_n (ex_atm 1))%Z ->
  atm_iso_ts (ex_atm 1) i < atm_iso_ts (ex_atm 1) j.
Proof.
  intros Hij _; simpl.
  assert (IZR i < IZR j) by (apply IZR_lt; lia). lra.
Defined.

(** C6 on the small run: the particle, at the time 0 of the first sample,
    gets the pressure 500 of the first sample. *)
Lemma C6_balloon_series_witness :
  isosurf (ex_ctl 4 (- 1) (- 1) (- 1)) = 4%Z
  /\ (0 <= 0 < atm_np (ex_atm 1))%Z
  /\ (1 <= atm_iso_n (ex_atm 1))%Z
  /\ (forall i j, (0 <= i < j)%Z -> (j < atm_iso_n (ex_atm 1))%Z ->
                  atm_iso_ts (ex_atm 1) i < atm_iso_ts (ex_atm 1) j)
  /\ atm_p (module_isosurf (ex_ctl 4 (- 1) (- 1) (- 1)) ex_met ex_met
              (ex_atm 1)) 0%Z = 500.
Proof.
  assert (H1 : isosurf (ex_ctl 4 (- 1) (- 1) (- 1)) = 4%Z) by reflexivity.
  assert (H2 : (0 <= 0 < atm_np (ex_atm 1))%Z) by (simpl; lia).
  assert (H3 : (1 <= atm_iso_n (ex_atm 1))%Z) by (simpl; lia).
  split; [exact H1|]; split; [exact H2|]; split; [exact H3|].
  split; [exact ex_series_increasing|].
  destruct (C6_balloon_series (ex_ctl 4 (- 1) (- 1) (- 1)) ex_met ex_met
              (ex_atm 1) 0%Z H1 H2 H3 ex_series_increasing) as (Hfirst & _).
  cbv zeta in Hfirst. rewrite Hfirst; simpl; lra.
Defined.

(** C7, as stated, fails for a negative mass: with [dt = 1] and both
    lifetimes 1 the mass -1 becomes [- exp (-1)], which is larger. *)
Lemma C7_negative_mass_grows :
  0 <= (fun _ : Z => 1) 0%Z
  /\ 0 < tdec_trop (ex_ctl 0 (- 1) (- 1) (- 1))
  /\ 0 < tdec_strat (ex_ctl 0 (- 1) (- 1) (- 1))
  /\ ~ (atm_q (module_decay (ex_ctl 0 (- 1) (- 1) (- 1)) (ex_atm (- 1))
                 (fun _ => 1)) 0%Z 0%Z
        <= atm_q (ex_atm (- 1)) 0%Z 0%Z).
Proof.
  split; [simpl; lra|]; split; [simpl; lra|]; split; [simpl; lra|].
  change 0%Z with (qnt_m (ex_ctl 0 (- 1) (- 1) (- 1))) at 1.
  rewrite module_decay_mass by (simpl; lia).
  destruct (Rneqb_spec 1 0) as [_|H]; [|lra].
  unfold decay_tdec; cbn [ex_ctl tdec_trop tdec_strat qnt_m ex_atm atm_q].
  set (w := tropo_weight _ _).
  replace (w * 1 + (1 - w) * 1) with 1 by ring.
  replace (- (1) / 1) with (- (1)) by lra.
  assert (He : exp (- (1)) < exp 0) by (apply exp_increasing; lra).
  rewrite exp_0 in He; lra.
Qed.

(** C7 (amended) on the small run: the magnitude of the mass 3 does not
    grow. *)
Lemma C7_decay_not_increasing_witness :
  (0 <= 0 < atm_np (ex_atm 3))%Z
  /\ 0 <= (fun _ : Z => 1) 0%Z
  /\ 0 < tdec_trop (ex_ctl 0 (- 1) (- 1) (- 1))
  /\ 0 < tdec_strat (ex_ctl 0 (- 1) (- 1) (- 1))
  /\ clim_tropo (atm_time (ex_atm 3) 0%Z) (atm_lat (ex_atm 3) 0%Z) <> 0
  /\ Rabs (atm_q (module_decay (ex_ctl 0 (- 1) (- 1) (- 1)) (ex_atm 3)
                    (fun _ => 1)) 0%Z 0%Z)
     <= Rabs 3.
Proof.
  assert (H1 : (0 <= 0 < atm_np (ex_atm 3))%Z) by (simpl; lia).
  assert (H2 : 0 <= (fun _ : Z => 1) 0%Z) by (simpl; lra).
  assert (H3 : 0 < tdec_trop (ex_ctl 0 (- 1) (- 1) (- 1))) by (simpl; lra).
  assert (H4 : 0 < tdec_strat (ex_ctl 0 (- 1) (- 1) (- 1))) by (simpl; lra).
  assert (H5 : clim_tropo (atm_time (ex_atm 3) 0%Z)
                          (atm_lat (ex_atm 3) 0%Z) <> 0) by (simpl; lra).
  split; [exact H1|]; split; [exact H2|]; split; [exact H3|];
    split; [exact H4|]; split; [exact H5|].
  exact (proj1 (C7_decay_not_increasing (ex_ctl 0 (- 1) (- 1) (- 1))
                  (ex_atm 3) (fun _ => 1) 0%Z H1 H2 H3 H4 H5)).
Defined.

(** C8 on the small run: T_STS is requested in row 0, T_ice and T_NAT are
    not; the diagnostics leave the quantity array. *)
Lemma C8_tsts_reads_witness :
  (qnt_tsts (ex_ctl 0 (- 1) (- 1) 0) >= 0)%Z
  /\ module_meteo (ex_ctl 0 (- 1) (- 1) 0) ex_met ex_met (ex_atm 1) = None.
Proof.
  assert (H : (qnt_tsts (ex_ctl 0 (- 1) (- 1) 0) >= 0)%Z) by (simpl; lia).
  split; [exact H|].
  destruct (C8_tsts_reads (ex_ctl 0 (- 1) (- 1) 0) ex_met ex_met (ex_atm 1)
              0%Z H) as (_ & Hs & _).
  destruct (Hs (or_introl eq_refl)) as (_ & _ & _ & Hm).
  apply Hm; simpl; lia.
Defined.

(** C9 on the small run: [dt = 1] and [dt_met = 20]. *)
Lemma C9_meso_radicand_witness :
  1 <> 0
  /\ dt_met (ex_ctl 0 (- 1) (- 1) (- 1)) <> 0
  /\ 0 <= meso_radicand (ex_ctl 0 (- 1) (- 1) (- 1)) 1.
Proof.
  assert (H1 : 1 <> 0) by lra.
  assert (H2 : dt_met (ex_ctl 0 (- 1) (- 1) (- 1)) <> 0) by (simpl; lra).
  split; [exact H1|]; split; [exact H2|].
  destruct (C9_meso_radicand (ex_ctl 0 (- 1) (- 1) (- 1)) 1 H1 H2)
    as (Hiff & _).
  apply Hiff; simpl; rewrite Rabs_R1; lra.
Defined.

(** * The run on the small examples *)

Lemma ex_rows_ok (mode : Z) : meteo_rows_ok (ex_ctl mode (- 1) (- 1) (- 1)).
Proof.
  split; [|simpl; lia].
  unfold meteo_rows; simpl; repeat constructor; lia.
Qed.

Lemma ex_rows_tsts_ok : meteo_rows_ok (ex_ctl 0 0 1 2).
Proof.
  split; [|simpl; lia].
  unfold meteo_rows; simpl; repeat constructor; lia.
Qed.

Lemma ex_np_ok : (atm_np (ex_atm 1) <= NP)%Z.
Proof. simpl; lia. Qed.

Lemma ex_in_range : (0 <= 0 < atm_np (ex_atm 1))%Z.
Proof. simpl; lia. Qed.

Lemma ex_forward (mode : Z) :
  direction (ex_ctl mode (- 1) (- 1) (- 1)) = 1%Z
  \/ direction (ex_ctl mode (- 1) (- 1) (- 1)) = (- 1)%Z.
Proof. now left. Qed.

Lemma ex_dt_mod (mode : Z) : 0 < dt_mod (ex_ctl mode (- 1) (- 1) (- 1)).
Proof. simpl; lra. Qed.



Lemma ex_min_one (data : Z -> R) : gsl_stats_min data 1 = data 0%Z.
Proof.
  unfold gsl_stats_min, for_loop; simpl.
  destruct (Rltb (data 0%Z) (data 0%Z)); reflexivity.
Qed.


Lemma ex_min_two : gsl_stats_min (atm_time ex_atm2) (atm_np ex_atm2) = 0.
Proof.
  unfold gsl_stats_min, for_loop; simpl.
  destruct (Rltb_spec (0 * 10) (0 * 10)); [lra|].
  destruct (Rltb_spec (1 * 10) (0 * 10)); lra.
Qed.

Lemma ex_max_two : gsl_stats_max (atm_time ex_atm2) (atm_np ex_atm2) = 10.
Proof.
  unfold gsl_stats_max, for_loop; simpl.
  destruct (Rgtb_spec (0 * 10) (0 * 10)); [lra|].
  destruct (Rgtb_spec (1 * 10) (0 * 10)); lra.
Qed.


(** X5 on the small run: the check brings the particle from longitude 500
    and latitude 100 into the range, and a second check leaves it there. *)
Lemma X5_position_keeps_in_range_witness :
  exists atm1,
    module_position 2 ex_met ex_met (ex_atm 1) (fun _ => 1) = Some atm1
    /\ exists atm2,
         module_position 2 ex_met ex_met atm1 (fun _ => 1) = Some atm2
         /\ atm_lon atm2 0%Z = atm_lon atm1 0%Z
         /\ atm_lat atm2 0%Z = atm_lat atm1 0%Z.
Proof.
  destruct (X5_position_keeps_in_range 2 ex_met ex_met (ex_atm 1)
              (fun _ => 1) 0%Z (le_n 2) ex_in_range)
    as (atm1 & E1 & _ & atm2 & E2 & Hlon & Hlat).
  exists atm1; split; [exact E1|].
  exists atm2; split; [exact E2|]; split; [exact Hlon | exact Hlat].
Defined.

(** X6 on the small run: the particle is at the same point of the sphere
    after the check as at longitude 500 and latitude 100. *)
Lemma X6_position_same_point_witness :
  exists atm',
    module_position 2 ex_met ex_met (ex_atm 1) (fun _ => 1) = Some atm'
    /\ same_point 500 100 (atm_lon atm' 0%Z) (atm_lat atm' 0%Z).
Proof.
  exact (X6_position_same_point 2 ex_met ex_met (ex_atm 1) (fun _ => 1) 0%Z
           (le_n 2) ex_in_range).
Defined.

(** X7 on the small run: the pressure 500 lies between the top of the
    model (10) and the surface (1000) and is kept. *)
Lemma X7_position_pressure_witness :
  exists atm',
    module_position 2 ex_met ex_met (ex_atm 1) (fun _ => 1) = Some atm'
    /\ atm_p atm' 0%Z = 500.
Proof.
  assert (Hdt : (fun _ : Z => 1) 0%Z <> 0) by (simpl; lra).
  destruct (X7_position_pressure 2 ex_met ex_met (ex_atm 1) (fun _ => 1)
              0%Z (le_n 2) ex_in_range Hdt) as (atm' & E & H).
  exists atm'; split; [exact E|].
  cbv zeta in H; destruct H as (_ & _ & H).
  rewrite H by (simpl; lra).
  simpl; unfold Rmin; destruct (Rle_dec 500 1000); lra.
Defined.

(** X8 on the small run: the cache, valid at the start, is valid after the
    mesoscale diffusion. *)
Lemma X8_meso_cache_valid_witness :
  cache_valid ex_met ex_met (ex_atm 1)
  /\ cache_valid ex_met ex_met
       (module_diffusion_meso (ex_ctl 0 (- 1) (- 1) (- 1)) ex_met ex_met
          (ex_atm 1) (fun _ => 1) (fun _ => 0)).
Proof.
  assert (H : cache_valid ex_met ex_met (ex_atm 1))
    by (intros ix iy iz _; unfold float_cast; simpl; auto).
  split; [exact H|].
  exact (proj1 (X8_meso_cache_valid (ex_ctl 0 (- 1) (- 1) (- 1)) ex_met
                  ex_met (ex_atm 1) (fun _ => 1) (fun _ => 0) H)).
Defined.

(** X9 on the small run: with every coefficient 0 the turbulent diffusion
    returns the ensemble it was given. *)
Lemma X9_skipped_diffusion_is_idle_witness :
  (forall t lat : R, clim_tropo t lat <> 0)
  /\ module_diffusion_turb (ex_ctl 0 (- 1) (- 1) (- 1)) (ex_atm 1)
       (fun _ => 1) (fun _ => 0) = ex_atm 1.
Proof.
  assert (H : forall t lat : R, clim_tropo t lat <> 0)
    by (intros t lat; simpl; lra).
  split; [exact H|].
  apply (proj1 (X9_skipped_diffusion_is_idle (ex_ctl 0 (- 1) (- 1) (- 1))
                  ex_met ex_met (ex_atm 1) (fun _ => 1) (fun _ => 0) H));
    simpl; lra.
Defined.

(** X10 on the small file: its two samples are read, the empty line and
    the line with one number are skipped. *)
Lemma X10_balloon_file_witness :
  exists atm',
    module_isosurf_init (ex_ctl 4 (- 1) (- 1) (- 1)) ex_met ex_met
      (Some ex_lines) (set_atm_iso_n 0 (ex_atm 1)) = Ok atm'
    /\ atm_iso_n atm' = 2%Z
    /\ (atm_iso_ts atm' 1%Z, atm_iso_ps atm' 1%Z) = (10, 400).
Proof.
  assert (HNP : (0 <= NP)%Z) by (simpl; lia).
  pose proof (X10_balloon_file (ex_ctl 4 (- 1) (- 1) (- 1)) ex_met ex_met
                ex_lines (set_atm_iso_n 0 (ex_atm 1)) HNP eq_refl eq_refl)
    as H.
  cbv zeta in H; destruct H as (_ & _ & _ & H).
  destruct H as (atm' & E & En & Es & _);
    [simpl; discriminate | simpl; lia |].
  exists atm'; split; [exact E|]; split; [exact En|].
  exact (Es 1%nat (le_n 2)).
Defined.

(** X11 on the small run: at the step time 0 the particle, which is at the
    time 0 already, is not moved and keeps its longitude 500. *)
Lemma X11_resting_particle_witness :
  exists atm' dt',
    timestep 2 (ex_ctl 0 (- 1) (- 1) (- 1)) ex_met ex_met 0
      (fun _ => 0) (fun _ => 0) (ex_atm 1, fun _ => 1) = Some (atm', dt')
    /\ dt' 0%Z = 0
    /\ atm_lon atm' 0%Z = 500.
Proof.
  destruct (timestep_ok 2 (ex_ctl 0 (- 1) (- 1) (- 1)) ex_met ex_met 0
              (fun _ => 0) (fun _ => 0) (ex_atm 1) (fun _ => 1) (le_n 2)
              (ex_rows_ok 0) ex_np_ok) as ([atm' dt'] & E).
  assert (Hdt : dt' 0%Z = 0).
  { destruct (timestep_time _ _ _ _ _ _ _ _ _ _ _ E) as (_ & -> & _).
    rewrite time_steps_dt; unfold time_step_of; simpl.
    destruct (Rltb_spec (1 * (0 - 0)) 0); [lra|].
    now rewrite !andb_false_r. }
  exists atm', dt'; split; [exact E|]; split; [exact Hdt|].
  destruct (X11_resting_particle 2 (ex_ctl 0 (- 1) (- 1) (- 1)) ex_met
              ex_met 0 (fun _ => 0) (fun _ => 0) (ex_atm 1) (fun _ => 1)
              atm' dt' 0%Z E ex_in_range Hdt) as (_ & Hlon & _).
  exact Hlon.
Defined.

(** X12 on the small run: the decay over the step 1 and then over the step
    2 is the decay over the step 3. *)
Lemma X12_decay_composes_witness :
  atm_q (module_decay (ex_ctl 0 (- 1) (- 1) (- 1))
           (module_decay (ex_ctl 0 (- 1) (- 1) (- 1)) (ex_atm 1)
              (fun _ => 1)) (fun _ => 2)) 0%Z 0%Z
  = atm_q (module_decay (ex_ctl 0 (- 1) (- 1) (- 1)) (ex_atm 1)
             (fun _ => 1 + 2)) 0%Z 0%Z.
Proof.
  assert (Ht : 0 < tdec_trop (ex_ctl 0 (- 1) (- 1) (- 1))) by (simpl; lra).
  assert (Hs : 0 < tdec_strat (ex_ctl 0 (- 1) (- 1) (- 1))) by (simpl; lra).
  assert (Hpt : clim_tropo (atm_time (ex_atm 1) 0%Z)
                  (atm_lat (ex_atm 1) 0%Z) <> 0) by (simpl; lra).
  exact (proj1 (X12_decay_composes (ex_ctl 0 (- 1) (- 1) (- 1)) (ex_atm 1)
                  (fun _ => 1) (fun _ => 2) 0%Z ex_in_range Ht Hs Hpt)).
Defined.

(** X13 on the small run: the step at the time 10 keeps the number of
    particles and the balloon series. *)
Lemma X13_step_footprint_witness :
  exists atm' dt',
    timestep 2 (ex_ctl 0 (- 1) (- 1) (- 1)) ex_met ex_met 10
      (fun _ => 0) (fun _ => 0) (ex_atm 1, fun _ => 0) = Some (atm', dt')
    /\ keeps F_np (ex_atm 1) atm'
    /\ keeps F_iso (ex_atm 1) atm'.
Proof.
  destruct (timestep_ok 2 (ex_ctl 0 (- 1) (- 1) (- 1)) ex_met ex_met 10
              (fun _ => 0) (fun _ => 0) (ex_atm 1) (fun _ => 0) (le_n 2)
              (ex_rows_ok 0) ex_np_ok) as ([atm' dt'] & E).
  exists atm', dt'; split; [exact E|].
  destruct (X13_step_footprint 2 (ex_ctl 0 (- 1) (- 1) (- 1)) ex_met ex_met
              10 (fun _ => 0) (fun _ => 0) (ex_atm 1) (fun _ => 0) atm' dt'
              E) as (Hn & Hi & _).
  split; [exact Hn | exact Hi].
Defined.

(** X14 on the small run, with T_ice, T_NAT and T_STS in the rows 0, 1 and
    2: the T_STS row of the particle holds the mean of the other two. *)
Lemma X14_tsts_is_mean_witness :
  exists atm',
    module_meteo (ex_ctl 0 0 1 2) ex_met ex_met (ex_atm 1) = Some atm'
    /\ atm_q atm' 2%Z 0%Z = 0.5 * (atm_q atm' 0%Z 0%Z + atm_q atm' 1%Z 0%Z).
Proof.
  assert (Hsts : (qnt_tsts (ex_ctl 0 0 1 2) >= 0)%Z) by (simpl; lia).
  assert (Hice : qnt_tice (ex_ctl 0 0 1 2) <> qnt_tsts (ex_ctl 0 0 1 2))
    by (simpl; lia).
  assert (Hnat : qnt_tnat (ex_ctl 0 0 1 2) <> qnt_tsts (ex_ctl 0 0 1 2))
    by (simpl; lia).
  destruct (X14_tsts_is_mean (ex_ctl 0 0 1 2) ex_met ex_met (ex_atm 1)
              ex_rows_tsts_ok ex_np_ok Hsts Hice Hnat) as (atm' & E & H).
  exists atm'; split; [exact E|].
  exact (H 0%Z ex_in_range).
Defined.

(** X15 on the small run, in mode 1: the pressure of the surface does not
    depend on the pressure the particle had. *)
Lemma X15_isosurf_overrides_witness :
  atm_p (module_isosurf (ex_ctl 1 (- 1) (- 1) (- 1)) ex_met ex_met
           (wr_p 0 7 (ex_atm 1))) 0%Z
  = atm_p (module_isosurf (ex_ctl 1 (- 1) (- 1) (- 1)) ex_met ex_met
             (ex_atm 1)) 0%Z.
Proof.
  assert (Hm : isosurf (ex_ctl 1 (- 1) (- 1) (- 1)) = 1%Z
               \/ isosurf (ex_ctl 1 (- 1) (- 1) (- 1)) = 4%Z) by now left.
  assert (Kn : keeps F_np (ex_atm 1) (wr_p 0 7 (ex_atm 1))) by reflexivity.
  assert (Kt : keeps F_time (ex_atm 1) (wr_p 0 7 (ex_atm 1)))
    by reflexivity.
  assert (Ki : keeps F_iso (ex_atm 1) (wr_p 0 7 (ex_atm 1)))
    by (repeat split).
  exact (proj1 (X15_isosurf_overrides (ex_ctl 1 (- 1) (- 1) (- 1)) ex_met
                  ex_met ex_met ex_met (ex_atm 1) (wr_p 0 7 (ex_atm 1)) 0%Z
                  Hm ex_in_range Kn Kt Ki)).
Defined.


(** X18 on the small run: the particle at the pressure 500, with the
    tropopause at 200, decays with the tropospheric lifetime 1. *)
Lemma X18_decay_regimes_witness :
  atm_q (module_decay (ex_ctl 0 (- 1) (- 1) (- 1)) (ex_atm 3) (fun _ => 1))
    0%Z 0%Z
  = 3 * exp (- 1 / 1).
Proof.
  assert (Hdt : (fun _ : Z => 1) 0%Z <> 0) by (simpl; lra).
  pose proof (X18_decay_regimes (ex_ctl 0 (- 1) (- 1) (- 1)) (ex_atm 3)
                (fun _ => 1) 0%Z ex_in_range Hdt) as H.
  cbv zeta in H; destruct H as (Htrop & _); [simpl; lra|].
  apply Htrop; simpl; lra.
Defined.
